(** * Dr. Memory: stack adjustment handling (stack.c)

    A shallow embedding of the stack-pointer-adjustment tracking code of
    Dr. Memory: the stack-swap threshold policy, the region-bounds
    resolution, the swap classifier, the errant-stack handler, the shared
    adjustment handler, the generator of the shared fast-path fragments and
    the patcher that rewrites the threshold embedded in them.

    The code is 32-bit x86: [reg_t] is an unsigned and [ptr_int_t] a signed
    32-bit integer, both carried by [Z] with the wrap-around written out. *)

From Stdlib Require Import ZArith List Bool Lia String.
Import ListNotations.
Local Open Scope Z_scope.

(** ** Machine integers *)

Module Word.

Definition modulus : Z := 2 ^ 32.
Definition half_modulus : Z := 2 ^ 31.

(** Conversion to [reg_t], [size_t], [uint] or a pointer. *)
Definition to_reg_t (z : Z) : Z := z mod modulus.

(** Conversion to [ptr_int_t] or [int] (two's complement). *)
Definition to_ptr_int_t (z : Z) : Z :=
  let u := z mod modulus in
  if u <? half_modulus then u else u - modulus.

(** Negation of an [int]. *)
Definition neg_int (z : Z) : Z := to_ptr_int_t (- z).

Definition is_reg_t (z : Z) : Prop := 0 <= z < modulus.
Definition is_int (z : Z) : Prop := - half_modulus <= z < half_modulus.

End Word.
Import Word.

(** ** Constants *)

(** number of swap triggers that aren't really swaps before we increase
    the swap threshold *)
Definition MAX_NUMBER_NON_SWAPS : Z := 32.

Definition MIN_SWAP_THRESHOLD : Z := 2048.

(** Modelled from the spec: the macro PAGE_SIZE comes from a header that is
    not part of the sources; the spec only speaks of one page size, and the
    x86 page of 4096 bytes is taken for it. *)
Definition PAGE_SIZE : Z := 4096.

(** ** Shadow memory *)

Inductive shadow_val : Type :=
| SHADOW_UNADDRESSABLE
| SHADOW_UNDEFINED
| SHADOW_DEFINED.

Definition shadow_map : Type := Z -> shadow_val.
Definition memory : Type := Z -> Z.

(** Modelled from the spec: shadow_set_range is defined in shadow.c, which is
    not part of the sources.  The Shadow Memory collaborator offers
    set_range(start, end, state); every byte address from [start] up to,
    not including, [end_] takes the state [val]. *)
Definition shadow_set_range (start end_ : Z) (val : shadow_val)
           (sh : shadow_map) : shadow_map :=
  fun a => if (start <=? a) && (a <? end_) then val else sh a.

(** The C library's memset(p, c, n): the [n] bytes from [p] on take [c]. *)
Definition memset (p c n : Z) (m : memory) : memory :=
  fun a => if (p <=? a) && (a <? p + n) then c else m a.

(** ** Instructions of the generated code *)

Inductive reg_id_t : Type :=
| REG_NULL | REG_EAX | REG_ECX | REG_EDX | REG_EBX
| REG_ESP | REG_EBP | REG_ESI | REG_EDI.

Inductive opnd_size_t : Type := OPSZ_1 | OPSZ_4.

Inductive label_t : Type :=
| loop_pop_repeat | loop_push | loop_push_repeat | loop_done | restore
| loop_next_shadow | loop_shadow_lookup | shadow_lookup | mi_slowpath.

Inductive opnd_t : Type :=
| opnd_create_null
| opnd_create_reg (r : reg_id_t)
| opnd_create_immed_int (v : Z) (size : opnd_size_t)
| opnd_create_base_disp (base : reg_id_t) (disp : Z) (size : opnd_size_t)
| opnd_create_instr (l : label_t)
| opnd_create_pc (pc : Z)
| spill_slot_opnd (slot : Z).

Inductive opcode_t : Type :=
| OP_mov_st | OP_mov_ld | OP_leave | OP_lea | OP_xchg
| OP_inc | OP_dec | OP_add | OP_sub | OP_ret | OP_enter | OP_and
| OP_cmp | OP_test | OP_neg | OP_or | OP_push | OP_pop
| OP_jg | OP_jg_short | OP_jl_short | OP_jge_short | OP_je_short
| OP_jnz_short | OP_jmp | OP_jmp_short | OP_jmp_ind | OP_call
| OP_LABEL.

Record instr_t : Type := mk_instr {
  instr_get_opcode : opcode_t;
  instr_dsts : list opnd_t;
  instr_srcs : list opnd_t
}.

Definition instr_get_src (inst : instr_t) (i : nat) : opnd_t :=
  nth i (instr_srcs inst) opnd_create_null.

Definition opnd_is_reg (o : opnd_t) : bool :=
  match o with opnd_create_reg _ => true | _ => false end.

Definition opnd_is_immed_int (o : opnd_t) : bool :=
  match o with opnd_create_immed_int _ _ => true | _ => false end.

Definition opnd_get_immed_int (o : opnd_t) : Z :=
  match o with opnd_create_immed_int v _ => v | _ => 0 end.

Definition opcode_eqb (a b : opcode_t) : bool :=
  match a, b with
  | OP_mov_st, OP_mov_st | OP_mov_ld, OP_mov_ld | OP_leave, OP_leave
  | OP_lea, OP_lea | OP_xchg, OP_xchg | OP_inc, OP_inc | OP_dec, OP_dec
  | OP_add, OP_add | OP_sub, OP_sub | OP_ret, OP_ret | OP_enter, OP_enter
  | OP_and, OP_and | OP_cmp, OP_cmp | OP_test, OP_test | OP_neg, OP_neg
  | OP_or, OP_or | OP_push, OP_push | OP_pop, OP_pop | OP_jg, OP_jg
  | OP_jg_short, OP_jg_short | OP_jl_short, OP_jl_short
  | OP_jge_short, OP_jge_short | OP_je_short, OP_je_short
  | OP_jnz_short, OP_jnz_short | OP_jmp, OP_jmp
  | OP_jmp_short, OP_jmp_short | OP_jmp_ind, OP_jmp_ind
  | OP_call, OP_call | OP_LABEL, OP_LABEL => true
  | _, _ => false
  end.

(** The instruction constructors of the code generator's library, with the
    operand layout it documents: sources first as written, then the
    destination where it is also read. *)
Definition OPND_CREATE_INT32 (v : Z) : opnd_t := opnd_create_immed_int v OPSZ_4.
Definition OPND_CREATE_INT8 (v : Z) : opnd_t := opnd_create_immed_int v OPSZ_1.
Definition OPND_CREATE_MEM8 (r : reg_id_t) (d : Z) : opnd_t :=
  opnd_create_base_disp r d OPSZ_1.
Definition OPND_CREATE_MEM32 (r : reg_id_t) (d : Z) : opnd_t :=
  opnd_create_base_disp r d OPSZ_4.

Definition INSTR_CREATE_label (l : label_t) : instr_t :=
  mk_instr OP_LABEL [] [opnd_create_instr l].
Definition INSTR_CREATE_mov_st (d s : opnd_t) : instr_t := mk_instr OP_mov_st [d] [s].
Definition INSTR_CREATE_mov_ld (d s : opnd_t) : instr_t := mk_instr OP_mov_ld [d] [s].
Definition INSTR_CREATE_add (d s : opnd_t) : instr_t := mk_instr OP_add [d] [s; d].
Definition INSTR_CREATE_sub (d s : opnd_t) : instr_t := mk_instr OP_sub [d] [s; d].
Definition INSTR_CREATE_cmp (s1 s2 : opnd_t) : instr_t := mk_instr OP_cmp [] [s1; s2].
Definition INSTR_CREATE_test (s1 s2 : opnd_t) : instr_t := mk_instr OP_test [] [s1; s2].
Definition INSTR_CREATE_neg (d : opnd_t) : instr_t := mk_instr OP_neg [d] [d].
Definition INSTR_CREATE_inc (d : opnd_t) : instr_t := mk_instr OP_inc [d] [d].
Definition INSTR_CREATE_dec (d : opnd_t) : instr_t := mk_instr OP_dec [d] [d].
Definition INSTR_CREATE_jcc (op : opcode_t) (t : opnd_t) : instr_t := mk_instr op [] [t].
Definition INSTR_CREATE_jmp (t : opnd_t) : instr_t := mk_instr OP_jmp [] [t].
Definition INSTR_CREATE_jmp_short (t : opnd_t) : instr_t := mk_instr OP_jmp_short [] [t].
Definition INSTR_CREATE_jmp_ind (t : opnd_t) : instr_t := mk_instr OP_jmp_ind [] [t].

(** ** Adjustment kinds *)

Inductive esp_adjust_t : Type :=
| ESP_ADJUST_ABSOLUTE
| ESP_ADJUST_NEGATIVE
| ESP_ADJUST_POSITIVE
| ESP_ADJUST_RET_IMMED (* positive, but after a pop *)
| ESP_ADJUST_AND       (* and with a mask *)
| ESP_ADJUST_INVALID.

Definition ESP_ADJUST_FAST_FIRST : esp_adjust_t := ESP_ADJUST_ABSOLUTE.
Definition ESP_ADJUST_FAST_LAST : esp_adjust_t := ESP_ADJUST_RET_IMMED.

Definition get_esp_adjust_type (opc : opcode_t) : esp_adjust_t :=
  match opc with
  | OP_mov_st | OP_mov_ld | OP_leave | OP_lea | OP_xchg => ESP_ADJUST_ABSOLUTE
  | OP_inc | OP_dec | OP_add => ESP_ADJUST_POSITIVE
  | OP_sub => ESP_ADJUST_NEGATIVE
  | OP_ret => ESP_ADJUST_RET_IMMED
  | OP_enter => ESP_ADJUST_NEGATIVE
  | OP_and => ESP_ADJUST_AND
  | _ => ESP_ADJUST_INVALID
  end.

(** ** The table of shared fast-path fragments

    [shared_esp_fastpath[2][ESP_ADJUST_FAST_LAST+1]]: one encoded fragment
    per flags-liveness variant and fast adjustment kind.  A fragment is the
    list of its instructions in address order. *)

Definition fragment : Type := list instr_t.

Record fastpath_row : Type := mk_row {
  frag_absolute : fragment;
  frag_negative : fragment;
  frag_positive : fragment;
  frag_ret_immed : fragment
}.

Record fastpath_table : Type := mk_table {
  row_eflags_dead : fastpath_row;   (* index 0 *)
  row_eflags_live : fastpath_row    (* index 1 *)
}.

Definition table_row (t : fastpath_table) (eflags_live : bool) : fastpath_row :=
  if eflags_live then row_eflags_live t else row_eflags_dead t.

Definition set_absolute (t : fastpath_table) (eflags_live : bool)
           (f : fragment) : fastpath_table :=
  let upd r := mk_row f (frag_negative r) (frag_positive r) (frag_ret_immed r) in
  if eflags_live
  then mk_table (row_eflags_dead t) (upd (row_eflags_live t))
  else mk_table (upd (row_eflags_dead t)) (row_eflags_live t).

(** ** Process state *)

(** The options the code reads.  The declaration of the options is not
    part of the sources: the threshold is taken to be an [int], the type the
    patcher is handed and compares with the embedded immediates. *)
Record options_t : Type := mk_options {
  stack_swap_threshold : Z;
  check_push : bool;
  pause_at_unaddressable : bool;
  shared_slowpath : bool;
  statistics : bool;
  (** Modelled from the spec: the macro SHADOW_STACK_POINTER() comes from a
      header that is not part of the sources; it tells the full-tracking
      mode (true) from the lightweight, leaks-only, mode (false). *)
  SHADOW_STACK_POINTER : bool;
  (** The answer of the external whole_bb_spills_enabled(). *)
  whole_bb_spills_enabled : bool
}.

(** The counters of the file, kept when the build defines STATISTICS. *)
Record stats_t : Type := mk_stats {
  adjust_esp_executions : Z;
  adjust_esp_fastpath : Z;
  stack_swaps : Z;
  stack_swap_triggers : Z;
  push_addressable : Z;
  push_addressable_heap : Z;
  push_addressable_mmap : Z
}.

Inductive log_msg : Type :=
| MSG_intra_stack_adjust (cur_xsp new_xsp : Z)
| MSG_cannot_determine_stack_bounds (cur_xsp : Z)
| MSG_stack_swap (cur_xsp new_xsp : Z)
| MSG_relative_adjust_above_threshold (delta : Z)
| MSG_heap_as_stack (addr : Z)
| MSG_mmap_as_stack (addr : Z)
| MSG_assuming_stack (is_heap : bool) (stack_start stack_end : Z)
| MSG_pushing_addressable.

(** What the code asks of its collaborators, in the order it asks. *)
Inductive event : Type :=
| EvIsInHeapRegion (addr : Z)
| EvMallocLargeLookup (addr : Z)
| EvMmapAnonLookup (addr : Z)
| EvQueryMemory (addr : Z)
| EvLog (msg : log_msg)
| EvWaitForUser
| EvShadowSetRange (start end_ : Z) (val : shadow_val)
| EvMemset (p n : Z)
| EvUpdateThreshold (new_threshold : Z)
| EvPatchGencode (new_threshold : Z).

Record state : Type := mk_state {
  options : options_t;
  num_non_swaps : Z;                  (* static int in check_stack_swap *)
  stats : stats_t;
  mc_xsp : Z;                         (* the application's stack pointer *)
  shadow : shadow_map;
  app_memory : memory;
  shared_esp_fastpath : fastpath_table;
  events : list event                 (* newest first *)
}.

Definition threshold (st : state) : Z := stack_swap_threshold (options st).

Definition set_threshold (v : Z) (st : state) : state :=
  let o := options st in
  mk_state (mk_options v (check_push o) (pause_at_unaddressable o)
                       (shared_slowpath o) (statistics o)
                       (SHADOW_STACK_POINTER o) (whole_bb_spills_enabled o))
           (num_non_swaps st) (stats st) (mc_xsp st) (shadow st)
           (app_memory st) (shared_esp_fastpath st) (events st).

Definition set_num_non_swaps (v : Z) (st : state) : state :=
  mk_state (options st) v (stats st) (mc_xsp st) (shadow st)
           (app_memory st) (shared_esp_fastpath st) (events st).

Definition set_stats (s : stats_t) (st : state) : state :=
  mk_state (options st) (num_non_swaps st) s (mc_xsp st) (shadow st)
           (app_memory st) (shared_esp_fastpath st) (events st).

Definition set_shadow (sh : shadow_map) (st : state) : state :=
  mk_state (options st) (num_non_swaps st) (stats st) (mc_xsp st) sh
           (app_memory st) (shared_esp_fastpath st) (events st).

Definition set_app_memory (m : memory) (st : state) : state :=
  mk_state (options st) (num_non_swaps st) (stats st) (mc_xsp st) (shadow st)
           m (shared_esp_fastpath st) (events st).

Definition set_shared_esp_fastpath (t : fastpath_table) (st : state) : state :=
  mk_state (options st) (num_non_swaps st) (stats st) (mc_xsp st) (shadow st)
           (app_memory st) t (events st).

Definition add_event (e : event) (st : state) : state :=
  mk_state (options st) (num_non_swaps st) (stats st) (mc_xsp st) (shadow st)
           (app_memory st) (shared_esp_fastpath st) (e :: events st).

(** ** The monad of the handlers: state, and a fatal stop on a failed ASSERT *)

Inductive result (A : Type) : Type :=
| Ok (a : A)
| Fatal (msg : string).
Arguments Ok {A} a.
Arguments Fatal {A} msg.

Definition M (A : Type) : Type := state -> result (A * state).

Definition ret {A} (a : A) : M A := fun st => Ok (a, st).

Definition bind {A B} (m : M A) (f : A -> M B) : M B :=
  fun st => match m st with
            | Ok (a, st') => f a st'
            | Fatal msg => Fatal msg
            end.

Notation "x <- m ;; k" := (bind m (fun x => k))
  (at level 61, m at next level, right associativity).
Notation "m ;;; k" := (bind m (fun _ => k))
  (at level 61, right associativity).

Definition modify (f : state -> state) : M unit := fun st => Ok (tt, f st).
Definition gets {A} (f : state -> A) : M A := fun st => Ok (f st, st).

(** Modelled from the spec: the macro ASSERT comes from a header that is
    not part of the sources; by the spec a failed internal-consistency
    check is fatal, the process stops. *)
Definition ASSERT (c : bool) (msg : string) : M unit :=
  fun st => if c then Ok (tt, st) else Fatal msg.

Definition emit (e : event) : M unit := modify (add_event e).

(** LOG and ELOG at the levels 0 and 1 (warnings and errors): the message
    joins the events.  The level-3 traces are left out. *)
Definition LOG (msg : log_msg) : M unit := emit (EvLog msg).

(** Modelled from the spec: the macro STATS_INC comes from a header that is
    not part of the sources; the telemetry counters of the spec count one
    per event, here in [uint] arithmetic. *)
Definition inc (v : Z) : Z := to_reg_t (v + 1).

Definition STATS_INC (f : stats_t -> stats_t) : M unit :=
  modify (fun st => set_stats (f (stats st)) st).

Definition inc_adjust_esp_executions (s : stats_t) : stats_t :=
  mk_stats (inc (adjust_esp_executions s)) (adjust_esp_fastpath s) (stack_swaps s)
           (stack_swap_triggers s) (push_addressable s)
           (push_addressable_heap s) (push_addressable_mmap s).
Definition inc_stack_swaps (s : stats_t) : stats_t :=
  mk_stats (adjust_esp_executions s) (adjust_esp_fastpath s) (inc (stack_swaps s))
           (stack_swap_triggers s) (push_addressable s)
           (push_addressable_heap s) (push_addressable_mmap s).
Definition inc_stack_swap_triggers (s : stats_t) : stats_t :=
  mk_stats (adjust_esp_executions s) (adjust_esp_fastpath s) (stack_swaps s)
           (inc (stack_swap_triggers s)) (push_addressable s)
           (push_addressable_heap s) (push_addressable_mmap s).
Definition inc_push_addressable (s : stats_t) : stats_t :=
  mk_stats (adjust_esp_executions s) (adjust_esp_fastpath s) (stack_swaps s)
           (stack_swap_triggers s) (inc (push_addressable s))
           (push_addressable_heap s) (push_addressable_mmap s).
Definition inc_push_addressable_heap (s : stats_t) : stats_t :=
  mk_stats (adjust_esp_executions s) (adjust_esp_fastpath s) (stack_swaps s)
           (stack_swap_triggers s) (push_addressable s)
           (inc (push_addressable_heap s)) (push_addressable_mmap s).
Definition inc_push_addressable_mmap (s : stats_t) : stats_t :=
  mk_stats (adjust_esp_executions s) (adjust_esp_fastpath s) (stack_swaps s)
           (stack_swap_triggers s) (push_addressable s)
           (push_addressable_heap s) (inc (push_addressable_mmap s)).

(** The two mutators of monitored state, each leaving its call in the
    event list. *)
Definition do_shadow_set_range (start end_ : Z) (val : shadow_val) : M unit :=
  emit (EvShadowSetRange start end_ val) ;;;
  modify (fun st => set_shadow (shadow_set_range start end_ val (shadow st)) st).

Definition do_memset (p n : Z) : M unit :=
  emit (EvMemset p n) ;;;
  modify (fun st => set_app_memory (memset p 0 n (app_memory st)) st).

(** ** The Region Resolver collaborators

    The heap-region test, the large-malloc index, the anonymous-mapping index
    and the operating system's memory query are external; a lookup that
    succeeds gives the base and the size of the region.  [LINUX] is the
    build flag of the same name. *)

Record resolver : Type := mk_resolver {
  LINUX : bool;
  is_in_heap_region : Z -> bool;
  malloc_large_lookup : Z -> option (Z * Z);
  mmap_anon_lookup : Z -> option (Z * Z);
  dr_query_memory : Z -> option (Z * Z)
}.

(** ** STACK SWAP THRESHOLD ADJUSTMENTS *)

(** *** The patcher of the generated code *)

(** One instruction of the scan: a compare of a register with an immediate
    that equals the threshold, or its negation, gets the new value. *)
Definition patch_instr (old_threshold new_threshold : Z) (found : Z)
           (inst : instr_t) : instr_t * Z :=
  if opcode_eqb (instr_get_opcode inst) OP_cmp &&
     opnd_is_reg (instr_get_src inst 0) &&
     opnd_is_immed_int (instr_get_src inst 1)
  then
    let immed := opnd_get_immed_int (instr_get_src inst 1) in
    if immed =? old_threshold then
      (* immed is always last: the store through pc-4 overwrites it; the
         ASSERT on that and the warning on a cache-line crossing are about
         the encoding and are left out *)
      (mk_instr (instr_get_opcode inst) (instr_dsts inst)
                [instr_get_src inst 0; OPND_CREATE_INT32 new_threshold],
       found + 1)
    else if immed =? neg_int old_threshold then
      (mk_instr (instr_get_opcode inst) (instr_dsts inst)
                [instr_get_src inst 0; OPND_CREATE_INT32 (neg_int new_threshold)],
       found + 1)
    else (inst, found)
  else (inst, found).

(** The do-while loop over a fragment, from its entry to the entry of the
    next one; it stops at the second patch.  A fragment is never empty, so
    the first, unconditional, round stays inside it. *)
Fixpoint patch_fragment (old_threshold new_threshold : Z) (found : Z)
         (code : fragment) : fragment * Z :=
  match code with
  | [] => ([], found)
  | inst :: rest =>
      let '(inst', found') := patch_instr old_threshold new_threshold found inst in
      if found' >=? 2 then (inst' :: rest, found')
      else
        let '(rest', found'') :=
          patch_fragment old_threshold new_threshold found' rest in
        (inst' :: rest', found'')
  end.

(** The body of the loop over the two flags-liveness variants. *)
Definition update_swap_threshold_in (eflags_live : bool) (new_threshold : Z)
  : M unit :=
  t <- gets shared_esp_fastpath ;;
  old <- gets threshold ;;
  (* only ESP_ADJUST_ABSOLUTE checks for a stack swap: swaps aren't relative *)
  let '(code', found) :=
    patch_fragment old new_threshold 0 (frag_absolute (table_row t eflags_live)) in
  modify (set_shared_esp_fastpath (set_absolute t eflags_live code')) ;;;
  ASSERT (found =? 2) "cannot find both threshold cmps in esp fastpath!".

(** Caller has made the memory writable and holds a lock *)
Definition esp_fastpath_update_swap_threshold (new_threshold : Z) : M unit :=
  emit (EvPatchGencode new_threshold) ;;;
  update_swap_threshold_in false new_threshold ;;;
  update_swap_threshold_in true new_threshold.

(** Modelled from the spec: update_stack_swap_threshold is defined outside
    stack.c and is not part of the sources.  By the spec the threshold is
    mutated only by this operation, and a threshold change invokes the
    Runtime Patcher, which compares the embedded operands with the old
    threshold: the patcher runs first, then the option takes the new
    value. *)
Definition update_stack_swap_threshold (new_threshold : Z) : M unit :=
  emit (EvUpdateThreshold new_threshold) ;;;
  esp_fastpath_update_swap_threshold new_threshold ;;;
  modify (set_threshold new_threshold).

Definition check_stack_size_vs_threshold (stack_size : Z) : M unit :=
  thr <- gets threshold ;;
  (* It's better to have the threshold too small than too big *)
  if stack_size <? to_reg_t thr then
    let new_thresh := MIN_SWAP_THRESHOLD in
    let new_thresh :=
      if new_thresh <? MIN_SWAP_THRESHOLD then MIN_SWAP_THRESHOLD else new_thresh in
    if new_thresh <? to_reg_t thr
    then update_stack_swap_threshold new_thresh
    else ret tt
  else ret tt.

(** *** Region bounds *)

(** Retrieves the bounds for the malloc or mmap region containing addr.
    If addr is in a small malloc this routine will fail. *)
Definition get_stack_region_bounds (R : resolver) (addr : Z)
  : M (option (Z * Z)) :=
  emit (EvIsInHeapRegion addr) ;;;
  if is_in_heap_region R addr then
    emit (EvMallocLargeLookup addr) ;;;
    ret (malloc_large_lookup R addr)
  else
    found <- (if LINUX R
              then emit (EvMmapAnonLookup addr) ;;; ret (mmap_anon_lookup R addr)
              else ret None) ;;
    match found with
    | Some b => ret (Some b)
    | None => emit (EvQueryMemory addr) ;;; ret (dr_query_memory R addr)
    end.

(** *** The swap classifier *)

Definition check_stack_swap (R : resolver) (cur_xsp new_xsp : Z) : M bool :=
  let is_swap : M bool :=
    LOG (MSG_stack_swap cur_xsp new_xsp) ;;;
    STATS_INC inc_stack_swaps ;;;
    (* If don't know stack bounds: better to treat as swap *)
    ret true in
  STATS_INC inc_stack_swap_triggers ;;;
  bounds <- get_stack_region_bounds R cur_xsp ;;
  match bounds with
  | Some (stack_start, stack_size) =>
      if (new_xsp >=? stack_start) &&
         (new_xsp <? to_reg_t (stack_start + stack_size))
      then
        LOG (MSG_intra_stack_adjust cur_xsp new_xsp) ;;;
        (* Reluctantly increase the threshold linearly: better too small *)
        n <- gets num_non_swaps ;;
        modify (set_num_non_swaps (to_ptr_int_t (n + 1))) ;;;
        (if n >? MAX_NUMBER_NON_SWAPS then
           modify (set_num_non_swaps 0) ;;;
           thr <- gets threshold ;;
           update_stack_swap_threshold (to_ptr_int_t (thr + PAGE_SIZE))
         else ret tt) ;;;
        ret false
      else is_swap
  | None =>
      LOG (MSG_cannot_determine_stack_bounds cur_xsp) ;;;
      is_swap
  end.

(** *** The errant-stack handler *)

Definition handle_push_addressable (R : resolver) (addr start_addr sz : Z)
  : M bool :=
  STATS_INC inc_push_addressable ;;;
  do_check <- gets (fun st => check_push (options st)) ;;
  if do_check then
    let is_heap := is_in_heap_region R addr in
    emit (EvIsInHeapRegion addr) ;;;
    LOG (if is_heap then MSG_heap_as_stack addr else MSG_mmap_as_stack addr) ;;;
    bounds <- get_stack_region_bounds R addr ;;
    match bounds with
    | Some (stack_start, stack_size) =>
        LOG (MSG_assuming_stack is_heap stack_start
                                (to_reg_t (stack_start + stack_size))) ;;;
        STATS_INC (if is_heap then inc_push_addressable_heap
                   else inc_push_addressable_mmap) ;;;
        (* handled = true *)
        do_shadow_set_range
          (if to_reg_t (addr - PAGE_SIZE) <? stack_start then stack_start
           else
             (* stop at start_addr: don't mark what's being pushed as unaddr! *)
             to_reg_t (addr - PAGE_SIZE))
          start_addr SHADOW_UNADDRESSABLE ;;;
        check_stack_size_vs_threshold stack_size ;;;
        ret true
    | None =>
        LOG MSG_pushing_addressable ;;;
        pause <- gets (fun st => pause_at_unaddressable (options st)) ;;
        (if pause then emit EvWaitForUser else ret tt) ;;;
        ret false
    end
  else ret false.

(** ** The adjustment handler *)

(** [delta > options.stack_swap_threshold || delta < -options.stack_swap_threshold] *)
Definition exceeds_threshold (delta thr : Z) : bool :=
  (delta >? thr) || (delta <? neg_int thr).

(** The end of handle_esp_adjust, reached by every adjustment that is not a
    stack swap: [esp] is the local copy of the stack pointer. *)
Definition apply_adjustment (esp delta : Z) : M unit :=
  if negb (delta =? 0) then
    shadowing <- gets (fun st => SHADOW_STACK_POINTER (options st)) ;;
    if negb shadowing then
      if delta <? 0 then
        (* zero out newly allocated stack space to avoid stale pointers
           from misleading our leak scan *)
        do_memset (to_reg_t (esp + delta)) (to_reg_t (- delta))
      else ret tt
    else
      do_shadow_set_range
        (if delta >? 0 then esp else to_reg_t (esp + delta))
        (if delta >? 0 then to_reg_t (esp + delta) else esp)
        (if delta >? 0 then SHADOW_UNADDRESSABLE else SHADOW_UNDEFINED)
  else ret tt.

(** [val] is either a relative delta or the absolute new stack pointer. *)
Definition handle_esp_adjust (R : resolver) (type : esp_adjust_t) (val : Z)
  : M unit :=
  let delta := to_ptr_int_t val in
  STATS_INC inc_adjust_esp_executions ;;;
  esp <- gets mc_xsp ;;
  thr <- gets threshold ;;
  match type with
  | ESP_ADJUST_ABSOLUTE =>
      let delta := to_ptr_int_t (val - esp) in
      (* Treat as a stack swap (vs ebp->esp, etc.) if a large change *)
      swap <- (if exceeds_threshold delta thr
               then check_stack_swap R esp val else ret false) ;;
      if swap then
        (* Stack swap: nothing to do *)
        ret tt
      else apply_adjustment esp delta
  | ESP_ADJUST_AND =>
      let newval := to_ptr_int_t (Z.land esp val) in
      let delta := to_ptr_int_t (newval - esp) in
      swap <- (if exceeds_threshold delta thr
               then check_stack_swap R esp (to_reg_t newval) else ret false) ;;
      if swap then
        (* Stack swap: nothing to do *)
        ret tt
      else apply_adjustment esp delta
  | _ =>
      let delta :=
        match type with ESP_ADJUST_NEGATIVE => neg_int delta | _ => delta end in
      (* We assume a swap would not happen w/ a relative adjustment *)
      (if exceeds_threshold delta thr
       then LOG (MSG_relative_adjust_above_threshold delta) else ret tt) ;;;
      let esp :=
        match type with
        | ESP_ADJUST_RET_IMMED => to_reg_t (esp + 4) (* pop of retaddr happens first *)
        | _ => esp
        end in
      apply_adjustment esp delta
  end.

(** ** The generator of the shared fast-path fragments *)

(** The helpers of the instrumentation framework that emit code of their
    own, and the addresses and encodings the fragments embed. *)
Record emitter : Type := mk_emitter {
  insert_save_aflags : list instr_t;
  insert_restore_aflags : list instr_t;
  (** add_jcc_slowpath: a conditional jump, of the given opcode, to the
      slow-path label. *)
  add_jcc_slowpath : opcode_t -> list instr_t;
  (** add_shadow_table_lookup for a 4-byte reference, on edx, ebx and ecx. *)
  add_shadow_table_lookup : list instr_t;
  dr_insert_clean_call : list opnd_t -> list instr_t;
  get_shadow_block_size : Z;
  shared_esp_slowpath : Z;
  SHADOW_DWORD_UNADDRESSABLE : Z;
  SHADOW_DWORD_UNDEFINED : Z;
  addr_of_adjust_esp_fastpath : Z
}.

(** The spill slots of the instrumentation framework, numbered from 0. *)
Definition SPILL_SLOT_3 : Z := 2.
Definition SPILL_SLOT_5 : Z := 4.
Definition SPILL_SLOT_6 : Z := 5.

Definition esp_spill_slot_base (o : options_t) : Z :=
  if whole_bb_spills_enabled o then SPILL_SLOT_6
  else if negb (SHADOW_STACK_POINTER o) then
    (* we don't have shared_esp_fastpath, and instrument slowpath only
       uses slots 1 and 2 *)
    SPILL_SLOT_3
  else SPILL_SLOT_5.

Definition is_absolute (type : esp_adjust_t) : bool :=
  match type with ESP_ADJUST_ABSOLUTE => true | _ => false end.
Definition is_ret_immed (type : esp_adjust_t) : bool :=
  match type with ESP_ADJUST_RET_IMMED => true | _ => false end.
Definition is_negative (type : esp_adjust_t) : bool :=
  match type with ESP_ADJUST_NEGATIVE => true | _ => false end.

Section Generator.

Variable E : emitter.
Variable o : options_t.

Let reg1 := opnd_create_reg REG_EDX.
Let reg2 := opnd_create_reg REG_EBX.
Let reg3 := opnd_create_reg REG_ECX.
Let slot_base := spill_slot_opnd (esp_spill_slot_base o).
Let slot_arg := spill_slot_opnd (esp_spill_slot_base o + 1).

(** for absolute, calculate the delta, and treat as a stack swap if a
    large change; a swap is assumed not to happen w/ a relative
    adjustment *)
Definition swap_check (type : esp_adjust_t) : list instr_t :=
  if is_absolute type then
    [ INSTR_CREATE_sub reg3 reg1;
      INSTR_CREATE_cmp reg3 (OPND_CREATE_INT32 (stack_swap_threshold o)) ]
    (* We need to verify whether it's a real swap *)
    ++ add_jcc_slowpath E OP_jg
    ++ [ INSTR_CREATE_cmp reg3
           (OPND_CREATE_INT32 (neg_int (stack_swap_threshold o))) ]
    ++ add_jcc_slowpath E OP_jl_short
  else [].

(** save the 2 args for retrieval at end; the initial address to look up
    in the shadow table is cur esp *)
Definition fastpath_entry (eflags_live : bool) (type : esp_adjust_t)
  : list instr_t :=
  [ INSTR_CREATE_mov_st slot_arg (opnd_create_reg REG_ECX);
    INSTR_CREATE_mov_st slot_base (opnd_create_reg REG_EDX) ]
  ++ (if eflags_live then insert_save_aflags E else [])
  ++ [ INSTR_CREATE_mov_ld reg1 (opnd_create_reg REG_ESP) ]
  ++ (if is_ret_immed type
      then [ INSTR_CREATE_add reg1 (OPND_CREATE_INT8 4) ] else []).

(** the walk over the shadow bytes, one per 4 stack bytes, in both
    directions, and the handler of a shadow block boundary *)
Definition fastpath_loops (type : esp_adjust_t) : list instr_t :=
  (* Ensure the size is 4-aligned so our loop works out *)
  [ INSTR_CREATE_test reg3 (OPND_CREATE_INT32 3) ]
  ++ add_jcc_slowpath E OP_jnz_short
  ++ [ INSTR_CREATE_label loop_shadow_lookup;
       INSTR_CREATE_cmp reg3 (OPND_CREATE_INT32 0);
       INSTR_CREATE_jcc OP_jg_short (opnd_create_instr shadow_lookup);
       INSTR_CREATE_jcc OP_je_short (opnd_create_instr loop_done);
       INSTR_CREATE_sub reg1 (OPND_CREATE_INT8 4);
       INSTR_CREATE_label shadow_lookup ]
  ++ add_shadow_table_lookup E
  ++ [ (* we need separate loops for inc vs dec *)
       INSTR_CREATE_cmp reg3 (OPND_CREATE_INT32 0);
       INSTR_CREATE_jcc OP_jl_short (opnd_create_instr loop_push);
       (* increasing loop: calculate end of shadow block *)
       INSTR_CREATE_neg reg2;
       INSTR_CREATE_add reg2 reg1;
       INSTR_CREATE_add reg2 (OPND_CREATE_INT32 (get_shadow_block_size E));
       INSTR_CREATE_label loop_pop_repeat;
       INSTR_CREATE_mov_st (OPND_CREATE_MEM8 REG_EDX 0)
                           (OPND_CREATE_INT8 (SHADOW_DWORD_UNADDRESSABLE E));
       INSTR_CREATE_inc reg1;
       INSTR_CREATE_sub reg3 (OPND_CREATE_INT8 4);
       INSTR_CREATE_test reg3 reg3;
       INSTR_CREATE_jcc OP_je_short (opnd_create_instr loop_done);
       INSTR_CREATE_cmp reg1 reg2;
       INSTR_CREATE_jcc OP_jge_short (opnd_create_instr loop_next_shadow);
       INSTR_CREATE_jmp_short (opnd_create_instr loop_pop_repeat);
       (* shadow block boundary handler, shared by both loops *)
       INSTR_CREATE_label loop_next_shadow;
       INSTR_CREATE_mov_ld reg1 (opnd_create_reg REG_ESP) ]
  ++ (if is_ret_immed type
      then [ INSTR_CREATE_add reg1 (OPND_CREATE_INT8 4) ] else [])
  ++ [ INSTR_CREATE_add reg1 slot_arg;
       INSTR_CREATE_sub reg1 reg3;
       INSTR_CREATE_jmp_short (opnd_create_instr loop_shadow_lookup);
       (* decreasing loop: calculate start of shadow block *)
       INSTR_CREATE_label loop_push;
       INSTR_CREATE_neg reg2;
       INSTR_CREATE_add reg2 reg1;
       INSTR_CREATE_label loop_push_repeat;
       INSTR_CREATE_mov_st (OPND_CREATE_MEM8 REG_EDX 0)
                           (OPND_CREATE_INT8 (SHADOW_DWORD_UNDEFINED E));
       INSTR_CREATE_dec reg1;
       INSTR_CREATE_add reg3 (OPND_CREATE_INT8 4);
       INSTR_CREATE_test reg3 reg3;
       INSTR_CREATE_jcc OP_je_short (opnd_create_instr loop_done);
       INSTR_CREATE_cmp reg1 reg2;
       INSTR_CREATE_jcc OP_jl_short (opnd_create_instr loop_next_shadow);
       INSTR_CREATE_jmp_short (opnd_create_instr loop_push_repeat);
       INSTR_CREATE_label loop_done ]
  ++ (if statistics o
      then [ INSTR_CREATE_inc
               (OPND_CREATE_MEM32 REG_NULL (addr_of_adjust_esp_fastpath E)) ]
      else [])
  ++ [ INSTR_CREATE_jmp_short (opnd_create_instr restore) ].

(** the exit to the slow path, and the return to the call site *)
Definition fastpath_exit (eflags_live : bool) (type : esp_adjust_t)
  : list instr_t :=
  [ INSTR_CREATE_label mi_slowpath ]
  ++ (if shared_slowpath o then
        [ INSTR_CREATE_mov_ld (opnd_create_reg REG_ECX) slot_arg;
          INSTR_CREATE_mov_ld (opnd_create_reg REG_EDX) slot_base ]
        ++ (if is_negative type
            then [ (* slowpath does its own negation *)
                   INSTR_CREATE_neg (opnd_create_reg REG_ECX) ]
            else [])
        (* since not returning here, must restore flags *)
        ++ (if eflags_live then insert_restore_aflags E else [])
        ++ [ INSTR_CREATE_jmp (opnd_create_pc (shared_esp_slowpath E)) ]
      else dr_insert_clean_call E [slot_arg])
  ++ [ INSTR_CREATE_label restore ]
  ++ (if eflags_live then insert_restore_aflags E else [])
  ++ [ INSTR_CREATE_jmp_ind slot_base ].

Definition generate_shared_esp_fastpath_helper (eflags_live : bool)
           (type : esp_adjust_t) : list instr_t :=
  fastpath_entry eflags_live type
  ++ swap_check type
  ++ fastpath_loops type
  ++ fastpath_exit eflags_live type.

(** We have multiple versions for {eflags,adjust-type}; instrlist_encode
    lays the instructions of each out in order. *)
Definition generate_shared_esp_fastpath : fastpath_table :=
  let row eflags_live :=
    mk_row (generate_shared_esp_fastpath_helper eflags_live ESP_ADJUST_ABSOLUTE)
           (generate_shared_esp_fastpath_helper eflags_live ESP_ADJUST_NEGATIVE)
           (generate_shared_esp_fastpath_helper eflags_live ESP_ADJUST_POSITIVE)
           (generate_shared_esp_fastpath_helper eflags_live ESP_ADJUST_RET_IMMED) in
  mk_table (row false) (row true).

End Generator.

(** The options with another threshold. *)
Definition with_threshold (v : Z) (o : options_t) : options_t :=
  mk_options v (check_push o) (pause_at_unaddressable o) (shared_slowpath o)
             (statistics o) (SHADOW_STACK_POINTER o) (whole_bb_spills_enabled o).

(** ** Application instructions

    The instrumentation pass and the shared slow path look at decoded
    instructions of the application.  Their opcodes are those above and the
    few more the pass names; every other opcode is [OP_unlisted]. *)

Inductive app_opcode_t : Type :=
| OP_of (opc : opcode_t)
| OP_sysenter | OP_int | OP_int3 | OP_into
| OP_unlisted (code : Z).

Record app_instr_t : Type := mk_app_instr {
  app_get_opcode : app_opcode_t;
  app_dsts : list opnd_t;
  app_srcs : list opnd_t
}.

Definition app_get_src (inst : app_instr_t) (i : nat) : opnd_t :=
  nth i (app_srcs inst) opnd_create_null.

Definition app_get_dst (inst : app_instr_t) (i : nat) : opnd_t :=
  nth i (app_dsts inst) opnd_create_null.

(** An instruction of the generated code, seen as a decoded instruction. *)
Definition decoded (inst : instr_t) : app_instr_t :=
  mk_app_instr (OP_of (instr_get_opcode inst)) (instr_dsts inst) (instr_srcs inst).

(** [opc == OP_x] for one of the opcodes above. *)
Definition opc_is (opc : app_opcode_t) (x : opcode_t) : bool :=
  match opc with OP_of o => opcode_eqb o x | _ => false end.

Definition reg_eqb (a b : reg_id_t) : bool :=
  match a, b with
  | REG_NULL, REG_NULL | REG_EAX, REG_EAX | REG_ECX, REG_ECX
  | REG_EDX, REG_EDX | REG_EBX, REG_EBX | REG_ESP, REG_ESP
  | REG_EBP, REG_EBP | REG_ESI, REG_ESI | REG_EDI, REG_EDI => true
  | _, _ => false
  end.

Definition REG_XSP : reg_id_t := REG_ESP.

Definition opnd_get_reg (o : opnd_t) : reg_id_t :=
  match o with opnd_create_reg r => r | _ => REG_NULL end.

(** The library's opnd_uses_reg, over the operands modelled: a register
    operand uses its register, a memory operand its base.  The 16-bit and
    8-bit sub-registers are not modelled. *)
Definition opnd_uses_reg (o : opnd_t) (r : reg_id_t) : bool :=
  match o with
  | opnd_create_reg r' => reg_eqb r' r
  | opnd_create_base_disp b _ _ => reg_eqb b r
  | _ => false
  end.

Definition instr_writes_esp (inst : app_instr_t) : bool :=
  existsb (fun opnd => opnd_is_reg opnd && opnd_uses_reg opnd REG_ESP)
          (app_dsts inst).

(** What the pass asks about an opcode or an instruction: opc_is_push and
    opc_is_pop are defined outside stack.c, instr_is_cti is the library's
    test for a control transfer instruction. *)
Record opcode_info : Type := mk_opcode_info {
  opc_is_push : app_opcode_t -> bool;
  opc_is_pop : app_opcode_t -> bool;
  instr_is_cti : app_instr_t -> bool
}.

(** The kind of an application opcode: get_esp_adjust_type, with the
    default case for the opcodes that are not listed above. *)
Definition esp_adjust_type_of (opc : app_opcode_t) : esp_adjust_t :=
  match opc with
  | OP_of o => get_esp_adjust_type o
  | _ => ESP_ADJUST_INVALID
  end.

(** assumes that inst does write to esp *)
Definition needs_esp_adjust (D : opcode_info) (o : options_t)
           (inst : app_instr_t) : bool :=
  let opc := app_get_opcode inst in
  (* implicit esp changes (e.g., push and pop) are handled during the
     read/write: this is for explicit esp changes *)
  if (opc_is_push D opc || opc_is_pop D opc) &&
     (* handle implicit esp adjustments that are not reads or writes *)
     (negb (opc_is opc OP_ret) || negb (opnd_is_immed_int (app_get_src inst 0))) &&
     negb (opc_is opc OP_enter) && negb (opc_is opc OP_leave)
  then (* esp changes are all reads or writes *) false
  (* -leaks_only doesn't care about shrinking the stack; technically
     OP_leave doesn't have to shrink it: we assume it does *)
  else if negb (SHADOW_STACK_POINTER o) &&
          (opc_is opc OP_inc || opc_is opc OP_ret || opc_is opc OP_leave ||
           (opc_is opc OP_add && opnd_is_immed_int (app_get_src inst 0) &&
            (opnd_get_immed_int (app_get_src inst 0) >=? 0)) ||
           (opc_is opc OP_sub && opnd_is_immed_int (app_get_src inst 0) &&
            (opnd_get_immed_int (app_get_src inst 0) <=? 0)))
  then false
  else
    match opc with
    (* We consider sysenter a pop for the hidden ret.  We ignore its write
       to esp. *)
    | OP_sysenter => false
    (* We ignore stack changes due to int* *)
    | OP_int | OP_int3 | OP_into => false
    | _ =>
        (* Ignore "or esp,esp" *)
        if opc_is opc OP_or && opnd_is_reg (app_get_src inst 0) &&
           opnd_is_reg (app_get_dst inst 0) &&
           reg_eqb (opnd_get_reg (app_get_src inst 0)) REG_XSP &&
           reg_eqb (opnd_get_reg (app_get_dst inst 0)) REG_XSP
        then false
        else true
    end.

(** ** The shared slow path *)

(** Rather than force gen code to pass another arg we derive the type: the
    routine decodes forward from the return address of the slow-path call,
    which it reads from the spill slot [esp_spill_slot_base], past eflags
    and register restoration, to the application instruction.  [code] is
    what decode gives from that address on, one instruction after the
    other, [None] where the bytes are not a valid instruction; the code the
    model is given ends where decoding fails. *)
Fixpoint handle_esp_adjust_shared_slowpath (D : opcode_info) (R : resolver)
         (code : list (option app_instr_t)) (val : Z) : M unit :=
  match code with
  | Some inst :: rest =>
      if instr_writes_esp inst then
        (* ret gets mangled: we'll skip the ecx save and hit the pop *)
        if opc_is (app_get_opcode inst) OP_pop then
          handle_esp_adjust R (get_esp_adjust_type OP_ret) val
        else
          o <- gets options ;;
          ASSERT (needs_esp_adjust D o inst) "found wrong esp-using instr" ;;;
          handle_esp_adjust R (esp_adjust_type_of (app_get_opcode inst)) val
      else if instr_is_cti D inst then
        ASSERT false "somehow missed app esp-adjust instr"
      else handle_esp_adjust_shared_slowpath D R rest val
  | _ => ASSERT false "unknown suspect instr"
  end.

(** On entry ecx holds the val arg and edx the return address, which needs
    persistent storage.  The clean call is to
    handle_esp_adjust_shared_slowpath, with ecx for its argument. *)
Definition generate_shared_esp_slowpath (E : emitter) (o : options_t)
  : list instr_t :=
  [ INSTR_CREATE_mov_st (spill_slot_opnd (esp_spill_slot_base o))
                        (opnd_create_reg REG_EDX) ]
  ++ dr_insert_clean_call E [opnd_create_reg REG_ECX]
  ++ [ INSTR_CREATE_jmp_ind (spill_slot_opnd (esp_spill_slot_base o)) ].

(** ** The operand of the fast-path instrumentation

    instrument_esp_adjust_fastpath, from the operand it starts with to the
    end of its chain on the opcode: the operand that holds the value of the
    adjustment, whether the value is to be negated and whether it is
    absolute; [None] where the routine hands the instruction over to
    instrument_esp_adjust_slowpath.  The routine has asked needs_esp_adjust
    before, which the ASSERT on a return relies on. *)
Record fastpath_operand : Type := mk_fastpath_operand {
  arg : opnd_t;
  negate : bool;
  absolute : bool
}.

Definition instrument_esp_adjust_fastpath_operand (inst : app_instr_t)
  : option fastpath_operand :=
  let opc := app_get_opcode inst in
  let arg := app_get_src inst 0 in (* 1st src for nearly all cases *)
  if opc_is opc OP_ret then Some (mk_fastpath_operand arg false false)
  else if opc_is opc OP_inc then
    Some (mk_fastpath_operand (OPND_CREATE_INT32 1) false false)
  else if opc_is opc OP_dec then
    Some (mk_fastpath_operand (OPND_CREATE_INT32 (-1)) false false)
  else if opc_is opc OP_add then Some (mk_fastpath_operand arg false false)
  else if opc_is opc OP_sub then Some (mk_fastpath_operand arg true false)
  else if opc_is opc OP_enter then Some (mk_fastpath_operand arg true false)
  else if opc_is opc OP_mov_st || opc_is opc OP_mov_ld ||
          opc_is opc OP_leave || opc_is opc OP_lea
  then Some (mk_fastpath_operand arg false true)
  else if opc_is opc OP_xchg then
    Some (mk_fastpath_operand
            (if opnd_is_reg arg && opnd_uses_reg arg REG_ESP
             then app_get_src inst 1 else arg)
            false true)
  else None.

(** ** The machine the generated code runs on

    The code of the fragments and of the instrumentation works on the
    registers, on the thread's spill slots, on memory (a byte per address)
    and on the flags.  Of the flags only what a conditional jump of that code
    reads is kept, as the operands of the last compare, taken as signed
    integers: [test a, b] sets them as [cmp (a & b), 0] does, and after an
    arithmetic instruction they are unknown to the model. *)

Record machine : Type := mk_machine {
  regs : reg_id_t -> Z;
  slots : Z -> Z;
  mem : memory;
  last_cmp : option (Z * Z)
}.

Definition set_reg (r : reg_id_t) (v : Z) (m : machine) : machine :=
  mk_machine (fun r' => if reg_eqb r' r then v else regs m r')
             (slots m) (mem m) (last_cmp m).

Definition set_slot (n : Z) (v : Z) (m : machine) : machine :=
  mk_machine (regs m) (fun n' => if n' =? n then v else slots m n')
             (mem m) (last_cmp m).

Definition set_mem (f : memory) (m : machine) : machine :=
  mk_machine (regs m) (slots m) f (last_cmp m).

Definition set_last_cmp (c : option (Z * Z)) (m : machine) : machine :=
  mk_machine (regs m) (slots m) (mem m) c.

Definition opnd_size_bytes (size : opnd_size_t) : Z :=
  match size with OPSZ_1 => 1 | OPSZ_4 => 4 end.

(** The address of a memory operand; a null base stands for no base. *)
Definition opnd_address (m : machine) (base : reg_id_t) (disp : Z) : Z :=
  to_reg_t ((match base with REG_NULL => 0 | _ => regs m base end) + disp).

(** The [n] bytes from [a] on, little-endian. *)
Fixpoint load_bytes (n : nat) (a : Z) (f : memory) : Z :=
  match n with
  | O => 0
  | S n' => f a + 256 * load_bytes n' (a + 1) f
  end.

Definition store_bytes (a n v : Z) (f : memory) : memory :=
  fun x => if (a <=? x) && (x <? a + n)
           then (v / 2 ^ (8 * (x - a))) mod 256
           else f x.

(** The value of a register, immediate, spill-slot or memory operand; an
    immediate is sign-extended to 32 bits.  A memory operand that runs over
    the end of the address space is outside the model. *)
Definition opnd_value (m : machine) (o : opnd_t) : option Z :=
  match o with
  | opnd_create_reg r => Some (regs m r)
  | opnd_create_immed_int v _ => Some (to_reg_t v)
  | spill_slot_opnd n => Some (slots m n)
  | opnd_create_base_disp base disp size =>
      let a := opnd_address m base disp in
      if a + opnd_size_bytes size <=? modulus
      then Some (load_bytes (Z.to_nat (opnd_size_bytes size)) a (mem m))
      else None
  | _ => None
  end.

Definition opnd_store (m : machine) (o : opnd_t) (v : Z) : option machine :=
  match o with
  | opnd_create_reg r => Some (set_reg r v m)
  | spill_slot_opnd n => Some (set_slot n v m)
  | opnd_create_base_disp base disp size =>
      let a := opnd_address m base disp in
      if a + opnd_size_bytes size <=? modulus
      then Some (set_mem (store_bytes a (opnd_size_bytes size) v (mem m)) m)
      else None
  | _ => None
  end.

(** Where control goes after an instruction or at the end of a block. *)
Inductive control : Type :=
| Fall                      (* on to the next instruction *)
| Jump (l : label_t)        (* a jump to a label of the fragment *)
| At (l : label_t)          (* the block ran into a label *)
| Exit (pc : Z)             (* a jump to an address outside the fragment *)
| Return (addr : Z)         (* a jump through a spill slot *)
| Called (args : list Z)    (* a clean call, with the values of its arguments *)
| Stuck.                    (* outside of what the model runs *)

Definition jcc_taken (opc : opcode_t) (c : Z * Z) : option bool :=
  let '(a, b) := c in
  match opc with
  | OP_jg | OP_jg_short => Some (a >? b)
  | OP_jl_short => Some (a <? b)
  | OP_jge_short => Some (a >=? b)
  | OP_je_short => Some (a =? b)
  | OP_jnz_short => Some (negb (a =? b))
  | _ => None
  end.

(** An arithmetic instruction on its destination and its first source. *)
Definition exec_arith (f : Z -> Z -> Z) (inst : instr_t) (m : machine)
  : control * machine :=
  match instr_dsts inst with
  | [d] =>
      match opnd_value m d, opnd_value m (instr_get_src inst 0) with
      | Some vd, Some vs =>
          match opnd_store (set_last_cmp None m) d (to_reg_t (f vd vs)) with
          | Some m' => (Fall, m')
          | None => (Stuck, m)
          end
      | _, _ => (Stuck, m)
      end
  | _ => (Stuck, m)
  end.

(** One instruction.  A clean call is the one instruction of opcode
    [OP_call] that carries the arguments. *)
Definition exec (inst : instr_t) (m : machine) : control * machine :=
  match instr_get_opcode inst with
  | OP_mov_st | OP_mov_ld =>
      match instr_dsts inst, opnd_value m (instr_get_src inst 0) with
      | [d], Some v =>
          match opnd_store m d v with
          | Some m' => (Fall, m')
          | None => (Stuck, m)
          end
      | _, _ => (Stuck, m)
      end
  | OP_add => exec_arith (fun vd vs => vd + vs) inst m
  | OP_sub => exec_arith (fun vd vs => vd - vs) inst m
  | OP_neg => exec_arith (fun vd _ => - vd) inst m
  | OP_inc => exec_arith (fun vd _ => vd + 1) inst m
  | OP_dec => exec_arith (fun vd _ => vd - 1) inst m
  | OP_cmp =>
      match opnd_value m (instr_get_src inst 0),
            opnd_value m (instr_get_src inst 1) with
      | Some a, Some b =>
          (Fall, set_last_cmp (Some (to_ptr_int_t a, to_ptr_int_t b)) m)
      | _, _ => (Stuck, m)
      end
  | OP_test =>
      match opnd_value m (instr_get_src inst 0),
            opnd_value m (instr_get_src inst 1) with
      | Some a, Some b =>
          (Fall, set_last_cmp (Some (to_ptr_int_t (Z.land a b), 0)) m)
      | _, _ => (Stuck, m)
      end
  | OP_jg | OP_jg_short | OP_jl_short | OP_jge_short | OP_je_short
  | OP_jnz_short =>
      match last_cmp m, instr_get_src inst 0 with
      | Some c, opnd_create_instr l =>
          match jcc_taken (instr_get_opcode inst) c with
          | Some true => (Jump l, m)
          | Some false => (Fall, m)
          | None => (Stuck, m)
          end
      | _, _ => (Stuck, m)
      end
  | OP_jmp_short =>
      match instr_get_src inst 0 with
      | opnd_create_instr l => (Jump l, m)
      | _ => (Stuck, m)
      end
  | OP_jmp =>
      match instr_get_src inst 0 with
      | opnd_create_pc pc => (Exit pc, m)
      | _ => (Stuck, m)
      end
  | OP_jmp_ind =>
      match opnd_value m (instr_get_src inst 0) with
      | Some addr => (Return addr, m)
      | None => (Stuck, m)
      end
  | OP_call =>
      match fold_right
              (fun o acc =>
                 match opnd_value m o, acc with
                 | Some v, Some vs => Some (v :: vs)
                 | _, _ => None
                 end)
              (Some []) (instr_srcs inst) with
      | Some args => (Called args, m)
      | None => (Stuck, m)
      end
  | _ => (Stuck, m)
  end.

Definition label_eqb (a b : label_t) : bool :=
  match a, b with
  | loop_pop_repeat, loop_pop_repeat | loop_push, loop_push
  | loop_push_repeat, loop_push_repeat | loop_done, loop_done
  | restore, restore | loop_next_shadow, loop_next_shadow
  | loop_shadow_lookup, loop_shadow_lookup | shadow_lookup, shadow_lookup
  | mi_slowpath, mi_slowpath => true
  | _, _ => false
  end.

(** The label an instruction is, if it is one. *)
Definition instr_label (inst : instr_t) : option label_t :=
  match instr_get_opcode inst, instr_get_src inst 0 with
  | OP_LABEL, opnd_create_instr l => Some l
  | _, _ => None
  end.

(** A basic block: from its first instruction to the first that leaves it,
    or to the next label. *)
Fixpoint run_block (code : list instr_t) (m : machine) : control * machine :=
  match code with
  | [] => (Fall, m)
  | inst :: rest =>
      match instr_label inst with
      | Some l => (At l, m)
      | None =>
          match exec inst m with
          | (Fall, m') => run_block rest m'
          | r => r
          end
      end
  end.

(** The code that follows a label. *)
Fixpoint block_at (l : label_t) (code : list instr_t) : list instr_t :=
  match code with
  | [] => []
  | inst :: rest =>
      match instr_label inst with
      | Some l' => if label_eqb l' l then rest else block_at l rest
      | None => block_at l rest
      end
  end.

(** The code from a block on, across jumps to its labels and falls into
    them, for as many blocks as [fuel] allows beyond the first; it ends where
    control leaves the code or falls off its end. *)
Fixpoint run (fuel : nat) (code block : list instr_t) (m : machine)
  : control * machine :=
  match fuel with
  | O => run_block block m
  | S fuel' =>
      match run_block block m with
      | (Jump l, m') | (At l, m') => run fuel' code (block_at l code) m'
      | r => r
      end
  end.

(** ** The zeroing loop of the lightweight instrumentation

    instrument_esp_adjust_fastpath, when the stack pointer is not shadowed:
    the loop it inlines ahead of the application's instruction, from the copy
    of the stack pointer into the first scratch register to the label the
    loop leaves by.  [reg1] and [reg_mod] are the scratch registers the
    framework picks; [reg_mod] holds the value of the adjustment, negated
    already for a sub.  The routine creates its two labels afresh: the model
    takes them as the parameters [retaddr] and [loop_repeat].  The spills of
    the scratch registers and of the flags around the loop are the
    framework's. *)
Definition inline_zero_loop (reg1 reg_mod : reg_id_t) (type : esp_adjust_t)
           (retaddr loop_repeat : label_t) : list instr_t :=
  [ INSTR_CREATE_mov_ld (opnd_create_reg reg1) (opnd_create_reg REG_XSP) ]
  ++ (if negb (is_absolute type)
      then [ (* calculate the end of the loop *)
             INSTR_CREATE_add (opnd_create_reg reg_mod) (opnd_create_reg reg1) ]
      else [])
  ++ [ (* only zero if allocating stack, not when deallocating *)
       INSTR_CREATE_cmp (opnd_create_reg reg_mod) (opnd_create_reg REG_XSP);
       INSTR_CREATE_jcc OP_jge_short (opnd_create_instr retaddr);
       (* now we know we're decreasing stack addresses, so start zeroing *)
       INSTR_CREATE_label loop_repeat;
       INSTR_CREATE_sub (opnd_create_reg reg1) (OPND_CREATE_INT8 4);
       INSTR_CREATE_cmp (opnd_create_reg reg1) (opnd_create_reg reg_mod);
       INSTR_CREATE_jcc OP_jl_short (opnd_create_instr retaddr);
       INSTR_CREATE_mov_st (OPND_CREATE_MEM32 reg1 0) (OPND_CREATE_INT32 0);
       INSTR_CREATE_jmp_short (opnd_create_instr loop_repeat);
       INSTR_CREATE_label retaddr ].

(** * The vocabulary of the properties *)

(** ** The patcher and the generated fragments *)

(** The test of the scan: a compare of a register with an immediate that is
    the threshold or its negation. *)
Definition is_threshold_cmp (thr : Z) (inst : instr_t) : bool :=
  opcode_eqb (instr_get_opcode inst) OP_cmp &&
  opnd_is_reg (instr_get_src inst 0) &&
  opnd_is_immed_int (instr_get_src inst 1) &&
  ((opnd_get_immed_int (instr_get_src inst 1) =? thr) ||
   (opnd_get_immed_int (instr_get_src inst 1) =? neg_int thr)).

Definition no_threshold_cmp (thr : Z) (code : list instr_t) : bool :=
  forallb (fun inst => negb (is_threshold_cmp thr inst)) code.

(** The value of [found] when the scan of a fragment ends. *)
Definition threshold_cmps_found (thr : Z) (code : fragment) : Z :=
  snd (patch_fragment thr thr 0 code).

(** Both fragments of the absolute kind pass the patcher's assertion. *)
Definition gencode_patchable (st : state) : bool :=
  (threshold_cmps_found (threshold st)
     (frag_absolute (table_row (shared_esp_fastpath st) false)) =? 2) &&
  (threshold_cmps_found (threshold st)
     (frag_absolute (table_row (shared_esp_fastpath st) true)) =? 2).

(** The table after a patch of both fragments of the absolute kind. *)
Definition patch_table (thr new_threshold : Z) (t : fastpath_table)
  : fastpath_table :=
  let t0 :=
    set_absolute t false
      (fst (patch_fragment thr new_threshold 0 (frag_absolute (table_row t false)))) in
  set_absolute t0 true
    (fst (patch_fragment thr new_threshold 0 (frag_absolute (table_row t0 true)))).

(** The state a successful threshold update leaves. *)
Definition after_patch (new_threshold : Z) (st : state) : state :=
  set_shared_esp_fastpath
    (patch_table (threshold st) new_threshold (shared_esp_fastpath st))
    (add_event (EvPatchGencode new_threshold) st).

Definition after_update (new_threshold : Z) (st : state) : state :=
  set_threshold new_threshold
    (after_patch new_threshold (add_event (EvUpdateThreshold new_threshold) st)).

Definition threshold_cmp (r : reg_id_t) (v : Z) : instr_t :=
  INSTR_CREATE_cmp (opnd_create_reg r) (OPND_CREATE_INT32 v).

(** What precedes the first compare, and what follows the second, in a
    fragment of the absolute kind. *)
Definition absolute_pre (E : emitter) (o : options_t) (eflags_live : bool) : list instr_t :=
  fastpath_entry E o eflags_live ESP_ADJUST_ABSOLUTE
  ++ [ INSTR_CREATE_sub (opnd_create_reg REG_ECX) (opnd_create_reg REG_EDX) ].

Definition absolute_post (E : emitter) (o : options_t) (eflags_live : bool) : list instr_t :=
  add_jcc_slowpath E OP_jl_short
  ++ fastpath_loops E o ESP_ADJUST_ABSOLUTE
  ++ fastpath_exit E o eflags_live ESP_ADJUST_ABSOLUTE.

(** The helpers' code ahead of the second compare holds no compare with
    the threshold. *)
Definition emitter_clear (E : emitter) (thr : Z) : bool :=
  no_threshold_cmp thr (insert_save_aflags E) &&
  no_threshold_cmp thr (add_jcc_slowpath E OP_jg).

(** ** Region bounds and the swap classifier *)

Definition add_events (l : list event) (st : state) : state :=
  mk_state (options st) (num_non_swaps st) (stats st) (mc_xsp st) (shadow st)
           (app_memory st) (shared_esp_fastpath st) (l ++ events st).

(** The answer of get_stack_region_bounds. *)
Definition region_of (R : resolver) (addr : Z) : option (Z * Z) :=
  if is_in_heap_region R addr then malloc_large_lookup R addr
  else
    match (if LINUX R then mmap_anon_lookup R addr else None) with
    | Some b => Some b
    | None => dr_query_memory R addr
    end.

(** The collaborators it asks, the newest first. *)
Definition lookups_of (R : resolver) (addr : Z) : list event :=
  if is_in_heap_region R addr
  then [EvMallocLargeLookup addr; EvIsInHeapRegion addr]
  else
    (match (if LINUX R then mmap_anon_lookup R addr else None) with
     | Some _ => []
     | None => [EvQueryMemory addr]
     end)
    ++ (if LINUX R then [EvMmapAnonLookup addr] else [])
    ++ [EvIsInHeapRegion addr].

(** The test of check_stack_swap on the bounds it got. *)
Definition in_stack_region (new_xsp : Z) (bounds : option (Z * Z)) : bool :=
  match bounds with
  | Some (stack_start, stack_size) =>
      (new_xsp >=? stack_start) &&
      (new_xsp <? to_reg_t (stack_start + stack_size))
  | None => false
  end.

Definition is_stack_swap (R : resolver) (cur_xsp new_xsp : Z) : bool :=
  negb (in_stack_region new_xsp (region_of R cur_xsp)).

(** The state after the lookup of check_stack_swap. *)
Definition triggered (R : resolver) (cur_xsp : Z) (st : state) : state :=
  add_events (lookups_of R cur_xsp)
             (set_stats (inc_stack_swap_triggers (stats st)) st).

(** The state a confirmed swap leaves. *)
Definition swap_state (R : resolver) (cur_xsp new_xsp : Z) (st : state) : state :=
  let st1 := triggered R cur_xsp st in
  let st2 :=
    match region_of R cur_xsp with
    | Some _ => st1
    | None => add_event (EvLog (MSG_cannot_determine_stack_bounds cur_xsp)) st1
    end in
  let st3 := add_event (EvLog (MSG_stack_swap cur_xsp new_xsp)) st2 in
  set_stats (inc_stack_swaps (stats st3)) st3.

(** The state a false alarm leaves when the threshold stays. *)
Definition intra_state (R : resolver) (cur_xsp new_xsp : Z) (st : state) : state :=
  set_num_non_swaps (to_ptr_int_t (num_non_swaps st + 1))
    (add_event (EvLog (MSG_intra_stack_adjust cur_xsp new_xsp))
               (triggered R cur_xsp st)).

(** The state a false alarm leaves when it raises the threshold. *)
Definition bump_state (R : resolver) (cur_xsp new_xsp : Z) (st : state) : state :=
  after_update (to_ptr_int_t (threshold st + PAGE_SIZE))
               (set_num_non_swaps 0 (intra_state R cur_xsp new_xsp st)).

(** ** The adjustment handler *)

(** The delta handle_esp_adjust works with, by adjustment kind. *)
Definition adjust_delta (type : esp_adjust_t) (val esp : Z) : Z :=
  match type with
  | ESP_ADJUST_ABSOLUTE => to_ptr_int_t (val - esp)
  | ESP_ADJUST_AND => to_ptr_int_t (to_ptr_int_t (Z.land esp val) - esp)
  | ESP_ADJUST_NEGATIVE => neg_int (to_ptr_int_t val)
  | _ => to_ptr_int_t val
  end.

(** The stack pointer the adjustment starts from: a return with an
    immediate pops the return address first. *)
Definition adjust_base (type : esp_adjust_t) (esp : Z) : Z :=
  match type with
  | ESP_ADJUST_RET_IMMED => to_reg_t (esp + 4)
  | _ => esp
  end.

(** The candidate new stack pointer, for the kinds checked for a swap. *)
Definition swap_candidate (type : esp_adjust_t) (val esp : Z) : option Z :=
  match type with
  | ESP_ADJUST_ABSOLUTE => Some val
  | ESP_ADJUST_AND => Some (to_reg_t (to_ptr_int_t (Z.land esp val)))
  | _ => None
  end.

Definition entered (st : state) : state :=
  set_stats (inc_adjust_esp_executions (stats st)) st.

(** The state apply_adjustment leaves; it never stops. *)
Definition adjusted (esp delta : Z) (st : state) : state :=
  if negb (delta =? 0) then
    if negb (SHADOW_STACK_POINTER (options st)) then
      if delta <? 0 then
        set_app_memory
          (memset (to_reg_t (esp + delta)) 0 (to_reg_t (- delta)) (app_memory st))
          (add_event (EvMemset (to_reg_t (esp + delta)) (to_reg_t (- delta))) st)
      else st
    else if delta >? 0 then
      set_shadow
        (shadow_set_range esp (to_reg_t (esp + delta)) SHADOW_UNADDRESSABLE
                          (shadow st))
        (add_event (EvShadowSetRange esp (to_reg_t (esp + delta))
                                     SHADOW_UNADDRESSABLE) st)
    else
      set_shadow
        (shadow_set_range (to_reg_t (esp + delta)) esp SHADOW_UNDEFINED
                          (shadow st))
        (add_event (EvShadowSetRange (to_reg_t (esp + delta)) esp
                                     SHADOW_UNDEFINED) st)
  else st.

(** ** What is observed of a run *)

Definition is_region_lookup (e : event) : bool :=
  match e with
  | EvIsInHeapRegion _ | EvMallocLargeLookup _
  | EvMmapAnonLookup _ | EvQueryMemory _ => true
  | _ => false
  end.

Definition is_mutation (e : event) : bool :=
  match e with
  | EvShadowSetRange _ _ _ | EvMemset _ _ => true
  | _ => false
  end.

Definition is_threshold_update (e : event) : bool :=
  match e with EvUpdateThreshold _ => true | _ => false end.

Definition is_patch (e : event) : bool :=
  match e with EvPatchGencode _ => true | _ => false end.

Definition is_relative_warning (e : event) : bool :=
  match e with
  | EvLog (MSG_relative_adjust_above_threshold _) => true
  | _ => false
  end.

(** How many events of a kind a state has seen. *)
Definition seen (p : event -> bool) (st : state) : nat :=
  List.length (filter p (events st)).

(** The calls of shadow_set_range and memset a state has seen, the newest
    first. *)
Definition mutations (st : state) : list event :=
  filter is_mutation (events st).

(** The update the spec asks of an ordinary adjustment from [pre] to
    [post]: in full-tracking mode the newly claimed range becomes Undefined
    on growth and the released range Unaddressable on shrink; in lightweight
    mode the newly claimed range is zero-filled and a shrink is ignored.
    Nothing else changes. *)
Definition local_update (pre post : Z) (st st' : state) : Prop :=
  if SHADOW_STACK_POINTER (options st) then
    app_memory st' = app_memory st /\
    forall a, shadow st' a =
              if (post <=? a) && (a <? pre) then SHADOW_UNDEFINED
              else if (pre <=? a) && (a <? post) then SHADOW_UNADDRESSABLE
              else shadow st a
  else
    shadow st' = shadow st /\
    forall a, app_memory st' a =
              if (post <=? a) && (a <? pre) then 0 else app_memory st a.

(** The one call that update takes: shadow_set_range over the range between
    the two pointers in full-tracking mode, memset over the claimed range in
    lightweight mode, and no call where nothing is to change. *)
Definition local_calls (shadowing : bool) (pre post : Z) : list event :=
  if pre =? post then []
  else if shadowing then
    [EvShadowSetRange (Z.min pre post) (Z.max pre post)
                      (if post <? pre then SHADOW_UNDEFINED
                       else SHADOW_UNADDRESSABLE)]
  else if post <? pre then [EvMemset post (pre - post)]
  else [].

(** Bookkeeping that an ordinary adjustment leaves alone. *)
Definition same_control (st st' : state) : Prop :=
  options st' = options st /\
  num_non_swaps st' = num_non_swaps st /\
  stats st' = stats st /\
  mc_xsp st' = mc_xsp st /\
  shared_esp_fastpath st' = shared_esp_fastpath st.

(** ** A concrete process

    A thread on a stack mapped at 0x10000 up to 0x30000, its stack pointer in
    the middle, the shadow state unaddressable below it; the threshold is
    the default 0x9000 and the fragments are the generated ones. *)

Definition E0 : emitter :=
  {| insert_save_aflags :=
       [ mk_instr OP_mov_st [spill_slot_opnd 0] [opnd_create_reg REG_EAX] ];
     insert_restore_aflags :=
       [ mk_instr OP_mov_ld [opnd_create_reg REG_EAX] [spill_slot_opnd 0] ];
     add_jcc_slowpath := fun op =>
       [ INSTR_CREATE_jcc op (opnd_create_instr mi_slowpath) ];
     add_shadow_table_lookup :=
       [ INSTR_CREATE_mov_ld (opnd_create_reg REG_EBX) (opnd_create_reg REG_EDX);
         INSTR_CREATE_cmp (opnd_create_reg REG_EBX) (OPND_CREATE_INT32 0) ];
     dr_insert_clean_call := fun args => [ mk_instr OP_call [] args ];
     get_shadow_block_size := 16384;
     shared_esp_slowpath := 0x70000000;
     SHADOW_DWORD_UNADDRESSABLE := 0;
     SHADOW_DWORD_UNDEFINED := 0x55;
     addr_of_adjust_esp_fastpath := 0x71000000 |}.

Definition R0 : resolver :=
  {| LINUX := true;
     is_in_heap_region := fun _ => false;
     malloc_large_lookup := fun _ => None;
     mmap_anon_lookup := fun a =>
       if (0x10000 <=? a) && (a <? 0x30000) then Some (0x10000, 0x20000)
       else None;
     dr_query_memory := fun _ => None |}.

Definition options0 : options_t :=
  {| stack_swap_threshold := 0x9000;
     check_push := true;
     pause_at_unaddressable := false;
     shared_slowpath := true;
     statistics := true;
     SHADOW_STACK_POINTER := true;
     whole_bb_spills_enabled := false |}.

Definition st0 : state :=
  {| options := options0;
     num_non_swaps := 0;
     stats := mk_stats 0 0 0 0 0 0 0;
     mc_xsp := 0x20000;
     shadow := fun a => if a <? 0x20000 then SHADOW_UNADDRESSABLE
                        else SHADOW_DEFINED;
     app_memory := fun _ => 0xCC;
     shared_esp_fastpath := generate_shared_esp_fastpath E0 options0;
     events := [] |}.

(** The same process in lightweight (leaks-only) mode. *)
Definition st0_leaks_only : state :=
  {| options :=
       {| stack_swap_threshold := 0x9000;
          check_push := true;
          pause_at_unaddressable := false;
          shared_slowpath := true;
          statistics := true;
          SHADOW_STACK_POINTER := false;
          whole_bb_spills_enabled := false |};
     num_non_swaps := 0;
     stats := mk_stats 0 0 0 0 0 0 0;
     mc_xsp := 0x20000;
     shadow := shadow st0;
     app_memory := fun _ => 0xCC;
     shared_esp_fastpath := shared_esp_fastpath st0;
     events := [] |}.

(** ** Region-bounds resolution as the spec words it *)

(** The resolution as the spec words it: the heap-allocation index, the
    anonymous-mapping index and the generic query of the operating system,
    tried in that fixed order, the first success returned. *)
Definition spec_region_lookup (R : resolver) (addr : Z) : option (Z * Z) :=
  match malloc_large_lookup R addr with
  | Some b => Some b
  | None =>
      match mmap_anon_lookup R addr with
      | Some b => Some b
      | None => dr_query_memory R addr
      end
  end.

(** An address inside a small malloc: in a heap region, unknown to the index
    of large mallocs, known to the operating system. *)
Definition R_small_malloc : resolver :=
  {| LINUX := true;
     is_in_heap_region := fun a => (0x8000000 <=? a) && (a <? 0x8100000);
     malloc_large_lookup := fun _ => None;
     mmap_anon_lookup := fun _ => None;
     dr_query_memory := fun a =>
       if (0x8000000 <=? a) && (a <? 0x8100000) then Some (0x8000000, 0x100000)
       else None |}.

(** ** The two ways through the adjustment handler *)

(** The handler confirms a swap: the kind is checked for swaps, the delta
    exceeds the threshold and the classifier says so. *)
Definition confirmed_swap (R : resolver) (type : esp_adjust_t) (val : Z)
           (st : state) : bool :=
  match swap_candidate type val (mc_xsp st) with
  | Some new_xsp =>
      exceeds_threshold (adjust_delta type val (mc_xsp st)) (threshold st) &&
      is_stack_swap R (mc_xsp st) new_xsp
  | None => false
  end.

(** The state in which an ordinary adjustment reaches the update. *)
Definition classified (R : resolver) (type : esp_adjust_t) (val : Z)
           (st : state) : state :=
  let esp := mc_xsp st in
  let delta := adjust_delta type val esp in
  match swap_candidate type val esp with
  | Some new_xsp =>
      if exceeds_threshold delta (threshold st) then
        if num_non_swaps st >? MAX_NUMBER_NON_SWAPS
        then bump_state R esp new_xsp (entered st)
        else intra_state R esp new_xsp (entered st)
      else entered st
  | None =>
      if exceeds_threshold delta (threshold st)
      then add_event (EvLog (MSG_relative_adjust_above_threshold delta))
                     (entered st)
      else entered st
  end.

(** ** The clauses of the claims *)

(** A property of the state a computation leaves, when it does not stop. *)
Definition forall_ok {A} (r : result (A * state)) (P : state -> Prop) : Prop :=
  match r with
  | Ok (_, st') => P st'
  | Fatal _ => True
  end.

(** The last clause of C4: the granule (4 bytes) at the new top of stack
    keeps its shadow state. *)
Definition new_top_granule_untouched (post : Z) (st st' : state) : Prop :=
  forall a, post <= a < post + 4 -> shadow st' a = shadow st a.

(** A run of classifier calls, one per pair of an old and a candidate new
    stack pointer. *)
Fixpoint false_alarms (R : resolver) (l : list (Z * Z)) : M unit :=
  match l with
  | [] => ret tt
  | (cur_xsp, new_xsp) :: rest =>
      check_stack_swap R cur_xsp new_xsp ;;; false_alarms R rest
  end.

Definition is_false_alarm (R : resolver) (p : Z * Z) : Prop :=
  is_stack_swap R (fst p) (snd p) = false.

(** ** The instrumentation pass and the shared slow path *)

(** The enumerators of esp_adjust_t, as the integers they are. *)
Definition esp_adjust_index (type : esp_adjust_t) : Z :=
  match type with
  | ESP_ADJUST_ABSOLUTE => 0
  | ESP_ADJUST_NEGATIVE => 1
  | ESP_ADJUST_POSITIVE => 2
  | ESP_ADJUST_RET_IMMED => 3
  | ESP_ADJUST_AND => 4
  | ESP_ADJUST_INVALID => 5
  end.

(** [type >= ESP_ADJUST_FAST_FIRST && type <= ESP_ADJUST_FAST_LAST], the
    kinds that index the table of fragments. *)
Definition is_fast_kind (type : esp_adjust_t) : bool :=
  (esp_adjust_index ESP_ADJUST_FAST_FIRST <=? esp_adjust_index type) &&
  (esp_adjust_index type <=? esp_adjust_index ESP_ADJUST_FAST_LAST).

(** An instruction the forward decoding passes over: it is valid, does not
    write esp and is no control transfer. *)
Definition passed_over (D : opcode_info) (i : option app_instr_t) : bool :=
  match i with
  | Some inst => negb (instr_writes_esp inst) && negb (instr_is_cti D inst)
  | None => false
  end.



(** Pushes, pops and control transfers among the opcodes modelled. *)
Definition D0 : opcode_info :=
  {| opc_is_push := fun opc =>
       opc_is opc OP_push || opc_is opc OP_call || opc_is opc OP_enter;
     opc_is_pop := fun opc =>
       opc_is opc OP_pop || opc_is opc OP_ret || opc_is opc OP_leave;
     instr_is_cti := fun inst =>
       match app_get_opcode inst with
       | OP_of (OP_jg | OP_jg_short | OP_jl_short | OP_jge_short | OP_je_short
               | OP_jnz_short | OP_jmp | OP_jmp_short | OP_jmp_ind | OP_call
               | OP_ret) => true
       | _ => false
       end |}.

(** [sub esp, 16], and the restore of a scratch register ahead of it. *)
Definition sub_esp_16 : app_instr_t :=
  decoded (INSTR_CREATE_sub (opnd_create_reg REG_ESP) (OPND_CREATE_INT8 16)).

Definition restore_ecx : app_instr_t :=
  decoded (INSTR_CREATE_mov_ld (opnd_create_reg REG_ECX) (spill_slot_opnd 0)).

(** ** The application between two adjustments *)

(** The application's stack pointer takes the value its instruction gives
    it. *)
Definition set_mc_xsp (v : Z) (st : state) : state :=
  mk_state (options st) (num_non_swaps st) (stats st) v (shadow st)
           (app_memory st) (shared_esp_fastpath st) (events st).

(** ** The generated code and the threshold *)

(** The table is the one the generator emits for the options in force. *)
Definition gencode_current (E : emitter) (st : state) : Prop :=
  shared_esp_fastpath st = generate_shared_esp_fastpath E (options st).

(** What the patcher may make of an instruction: the instruction itself or,
    of a compare of a register with the old threshold or its negation, the
    same compare with the new threshold or its negation. *)
Definition patched_from (old_threshold new_threshold : Z)
           (inst inst' : instr_t) : Prop :=
  inst' = inst \/
  (is_threshold_cmp old_threshold inst = true /\
   instr_get_opcode inst' = OP_cmp /\
   instr_dsts inst' = instr_dsts inst /\
   instr_get_src inst' 0 = instr_get_src inst 0 /\
   (instr_get_src inst' 1 = OPND_CREATE_INT32 new_threshold \/
    instr_get_src inst' 1 = OPND_CREATE_INT32 (neg_int new_threshold))).

(** ** The fast path, run *)

Definition defines_label (l : label_t) (code : list instr_t) : bool :=
  existsb (fun inst =>
             match instr_label inst with
             | Some l' => label_eqb l' l
             | None => false
             end) code.

(** The helpers emit what their names say: the jump to the slow-path label
    alone, the clean call alone, and a table lookup that does not hold the
    slow-path label. *)
Definition plain_emitter (E : emitter) : Prop :=
  (forall op, add_jcc_slowpath E op =
              [INSTR_CREATE_jcc op (opnd_create_instr mi_slowpath)]) /\
  (forall args, dr_insert_clean_call E args = [mk_instr OP_call [] args]) /\
  defines_label mi_slowpath (add_shadow_table_lookup E) = false.

(** The delta a fragment works with: the value it is handed in ecx, or for
    the absolute kind its distance from the stack pointer.  For a sub the
    instrumentation has negated the value before. *)
Definition fastpath_delta (type : esp_adjust_t) (val esp : Z) : Z :=
  if is_absolute type then to_ptr_int_t (val - esp) else to_ptr_int_t val.

(** A thread at the slow-path label of a fragment reached for [sub esp, 16]:
    the slot of the value holds -16, the slot of the return address the
    address of the call site. *)
Definition m0 : machine :=
  {| regs := fun r => match r with REG_ESP => 0x20000 | _ => 0 end;
     slots := fun n => if n =? 5 then to_reg_t (-16)
                       else if n =? 4 then 0x8048123 else 0;
     mem := fun _ => 0xCC;
     last_cmp := None |}.

(** ** The labels of a fragment *)

(** The labels a list of instructions defines, and the labels its jumps
    aim at, in order. *)
Definition labels_defined (code : list instr_t) : list label_t :=
  flat_map (fun inst =>
              match instr_label inst with
              | Some l => [l]
              | None => []
              end) code.

Definition jump_targets (code : list instr_t) : list label_t :=
  flat_map (fun inst =>
              match instr_label inst, instr_get_src inst 0 with
              | None, opnd_create_instr l => [l]
              | _, _ => []
              end) code.

(** Code of a helper: it defines no label of its own and jumps nowhere but
    to the slow-path label. *)
Definition helper_code (code : list instr_t) : Prop :=
  labels_defined code = [] /\
  forall l, In l (jump_targets code) -> l = mi_slowpath.

Definition emitter_helpers (E : emitter) (o : options_t) : Prop :=
  helper_code (insert_save_aflags E) /\
  helper_code (insert_restore_aflags E) /\
  helper_code (add_jcc_slowpath E OP_jg) /\
  helper_code (add_jcc_slowpath E OP_jl_short) /\
  helper_code (add_jcc_slowpath E OP_jnz_short) /\
  helper_code (add_shadow_table_lookup E) /\
  helper_code (dr_insert_clean_call E
                 [spill_slot_opnd (esp_spill_slot_base o + 1)]).

(** ** The zeroing loop, run *)

(** One round of the loop, from the label [loop_repeat] on. *)
Definition zero_loop_round (reg1 reg_mod : reg_id_t) (retaddr loop_repeat : label_t)
  : list instr_t :=
  [ INSTR_CREATE_sub (opnd_create_reg reg1) (OPND_CREATE_INT8 4);
    INSTR_CREATE_cmp (opnd_create_reg reg1) (opnd_create_reg reg_mod);
    INSTR_CREATE_jcc OP_jl_short (opnd_create_instr retaddr);
    INSTR_CREATE_mov_st (OPND_CREATE_MEM32 reg1 0) (OPND_CREATE_INT32 0);
    INSTR_CREATE_jmp_short (opnd_create_instr loop_repeat);
    INSTR_CREATE_label retaddr ].

(** The address the loop stops at: the value in [reg_mod] for the absolute
    kind, and the stack pointer plus that value for the others. *)
Definition zero_loop_target (type : esp_adjust_t) (val esp : Z) : Z :=
  if is_absolute type then val else to_reg_t (val + esp).

(** Two addresses lie in the same half of the address space, the lower one
    at least 4 above its start: the signed compares of the loop then order
    them as addresses. *)
Definition same_half (lo target esp : Z) : Prop :=
  (lo = 0 \/ lo = half_modulus) /\
  lo + 4 <= target < lo + half_modulus /\
  lo <= esp < lo + half_modulus.

(** A thread about to run [sub esp, 22] in lightweight mode: the
    instrumentation has put -22 in ecx. *)
Definition m_sub_22 : machine :=
  {| regs := fun r => match r with
                      | REG_ESP => 0x20000
                      | REG_ECX => to_reg_t (-22)
                      | _ => 0
                      end;
     slots := fun _ => 0;
     mem := fun _ => 0xCC;
     last_cmp := None |}.

(** * Properties *)

(** ** Machine integers *)

Module WordFacts.

Lemma modulus_eq : modulus = 4294967296.
Proof. reflexivity. Qed.

Lemma half_modulus_eq : half_modulus = 2147483648.
Proof. reflexivity. Qed.

Lemma to_reg_t_small (z : Z) : is_reg_t z -> to_reg_t z = z.
Proof. unfold is_reg_t, to_reg_t. intros H. now apply Z.mod_small. Qed.

Lemma to_ptr_int_t_range (z : Z) : is_int (to_ptr_int_t z).
Proof.
  unfold is_int, to_ptr_int_t.
  pose proof (Z.mod_pos_bound z modulus) as H.
  rewrite modulus_eq, half_modulus_eq in *.
  destruct (z mod 4294967296 <? 2147483648) eqn:C;
    [apply Z.ltb_lt in C | apply Z.ltb_ge in C]; lia.
Qed.

Lemma to_ptr_int_t_small (z : Z) : is_int z -> to_ptr_int_t z = z.
Proof.
  unfold is_int, to_ptr_int_t. rewrite modulus_eq, half_modulus_eq. intros H.
  destruct (Z_lt_dec z 0) as [Hn | Hp].
  - replace (z mod 4294967296) with (z + 4294967296).
    + destruct (z + 4294967296 <? 2147483648) eqn:C;
        [apply Z.ltb_lt in C | apply Z.ltb_ge in C]; lia.
    + apply Z.mod_unique with (q := -1); lia.
  - rewrite Z.mod_small by lia.
    destruct (z <? 2147483648) eqn:C;
      [apply Z.ltb_lt in C | apply Z.ltb_ge in C]; lia.
Qed.

Lemma neg_int_small (z : Z) :
  - half_modulus < z < half_modulus -> neg_int z = - z.
Proof.
  intros H. unfold neg_int. apply to_ptr_int_t_small.
  unfold is_int. lia.
Qed.

(** The size handed to memset for a negative delta. *)
Lemma to_reg_t_opp (d : Z) : is_int d -> d < 0 -> to_reg_t (- d) = - d.
Proof.
  unfold is_int. rewrite half_modulus_eq. intros H Hn.
  apply to_reg_t_small. unfold is_reg_t. rewrite modulus_eq. lia.
Qed.

(** The threshold test is the test on the magnitude. *)
Lemma exceeds_threshold_abs (delta thr : Z) :
  0 <= thr < half_modulus ->
  exceeds_threshold delta thr = (Z.abs delta >? thr).
Proof.
  intros H. unfold exceeds_threshold. rewrite neg_int_small by lia.
  destruct (Z.gtb_spec delta thr), (Z.ltb_spec delta (- thr)),
    (Z.gtb_spec (Z.abs delta) thr); try reflexivity; lia.
Qed.

End WordFacts.
Import WordFacts.

(** ** Stepping through the monad *)

Ltac run_monad :=
  unfold bind, ret, gets, modify, emit, LOG, STATS_INC, ASSERT,
    do_shadow_set_range, do_memset; simpl.

(** The equations of the monad, one per primitive, for stepping through a
    handler from a given state. *)
Lemma bind_ret {A B} (a : A) (k : A -> M B) st : bind (ret a) k st = k a st.
Proof. reflexivity. Qed.

Lemma bind_gets {A B} (f : state -> A) (k : A -> M B) st :
  bind (gets f) k st = k (f st) st.
Proof. reflexivity. Qed.

Lemma bind_modify {B} (f : state -> state) (k : unit -> M B) st :
  bind (modify f) k st = k tt (f st).
Proof. reflexivity. Qed.

Lemma bind_emit {B} (e : event) (k : unit -> M B) st :
  bind (emit e) k st = k tt (add_event e st).
Proof. reflexivity. Qed.

Lemma bind_LOG {B} (msg : log_msg) (k : unit -> M B) st :
  bind (LOG msg) k st = k tt (add_event (EvLog msg) st).
Proof. reflexivity. Qed.

Lemma bind_STATS_INC {B} (f : stats_t -> stats_t) (k : unit -> M B) st :
  bind (STATS_INC f) k st = k tt (set_stats (f (stats st)) st).
Proof. reflexivity. Qed.

Lemma bind_assoc {A B C} (m : M A) (f : A -> M B) (g : B -> M C) st :
  bind (bind m f) g st = bind m (fun a => bind (f a) g) st.
Proof. unfold bind. destruct (m st) as [[a st'] | msg]; reflexivity. Qed.

Lemma bind_if {A B} (c : bool) (m1 m2 : M A) (k : A -> M B) st :
  bind (if c then m1 else m2) k st = if c then bind m1 k st else bind m2 k st.
Proof. now destruct c. Qed.

Lemma bind_Ok {A B} (m : M A) (k : A -> M B) st a st' :
  m st = Ok (a, st') -> bind m k st = k a st'.
Proof. unfold bind. now intros ->. Qed.

Create Rewrite HintDb monad.
#[local] Hint Rewrite @bind_ret @bind_gets @bind_modify @bind_emit @bind_LOG
  @bind_STATS_INC : monad.

Ltac step := autorewrite with monad.

(** ** The patcher of the generated code *)

Lemma patch_instr_other thr new found inst :
  is_threshold_cmp thr inst = false ->
  patch_instr thr new found inst = (inst, found).
Proof.
  unfold is_threshold_cmp, patch_instr. intros H.
  destruct (opcode_eqb (instr_get_opcode inst) OP_cmp &&
            opnd_is_reg (instr_get_src inst 0) &&
            opnd_is_immed_int (instr_get_src inst 1)); [| reflexivity].
  simpl in H. apply orb_false_elim in H as [H1 H2]. now rewrite H1, H2.
Qed.

Lemma patch_instr_found thr new found inst :
  snd (patch_instr thr new found inst) =
  if is_threshold_cmp thr inst then found + 1 else found.
Proof.
  unfold is_threshold_cmp, patch_instr.
  destruct (opcode_eqb (instr_get_opcode inst) OP_cmp &&
            opnd_is_reg (instr_get_src inst 0) &&
            opnd_is_immed_int (instr_get_src inst 1)); [| reflexivity].
  simpl.
  destruct (opnd_get_immed_int (instr_get_src inst 1) =? thr); [reflexivity |].
  destruct (opnd_get_immed_int (instr_get_src inst 1) =? neg_int thr);
    reflexivity.
Qed.

(** The count does not depend on the value written. *)
Lemma patch_fragment_found thr new new' code : forall found,
  snd (patch_fragment thr new found code) =
  snd (patch_fragment thr new' found code).
Proof.
  induction code as [| inst rest IH]; intros found; [reflexivity |].
  simpl.
  pose proof (patch_instr_found thr new found inst) as F1.
  pose proof (patch_instr_found thr new' found inst) as F2.
  destruct (patch_instr thr new found inst) as [i1 f1].
  destruct (patch_instr thr new' found inst) as [i2 f2].
  simpl in F1, F2. rewrite <- F1 in F2. subst f2.
  destruct (f1 >=? 2); [reflexivity |].
  specialize (IH f1).
  destruct (patch_fragment thr new f1 rest), (patch_fragment thr new' f1 rest).
  exact IH.
Qed.

(** The scan never counts past two. *)
Lemma patch_fragment_found_le thr new code : forall found,
  found < 2 -> snd (patch_fragment thr new found code) <= 2.
Proof.
  induction code as [| inst rest IH]; intros found Hf; [simpl; lia |].
  simpl.
  pose proof (patch_instr_found thr new found inst) as F.
  destruct (patch_instr thr new found inst) as [i1 f1]. simpl in F.
  destruct (f1 >=? 2) eqn:C.
  - simpl. destruct (is_threshold_cmp thr inst); subst f1; lia.
  - rewrite Z.geb_leb in C. apply Z.leb_gt in C.
    specialize (IH f1 C).
    destruct (patch_fragment thr new f1 rest). exact IH.
Qed.

(** Instructions that are no threshold compare are stepped over. *)
Lemma patch_fragment_skip thr new pre rest : forall found,
  no_threshold_cmp thr pre = true ->
  found < 2 ->
  patch_fragment thr new found (pre ++ rest) =
  (pre ++ fst (patch_fragment thr new found rest),
   snd (patch_fragment thr new found rest)).
Proof.
  induction pre as [| inst pre IH]; intros found Hn Hf.
  - simpl. now destruct (patch_fragment thr new found rest).
  - simpl in Hn. apply andb_true_iff in Hn as [Hi Hp].
    apply negb_true_iff in Hi.
    simpl. rewrite (patch_instr_other _ _ _ _ Hi).
    replace (found >=? 2) with false
      by (symmetry; rewrite Z.geb_leb; apply Z.leb_gt; lia).
    rewrite (IH found Hp Hf). reflexivity.
Qed.

Lemma update_swap_threshold_in_eq eflags_live new st :
  update_swap_threshold_in eflags_live new st =
  let t := shared_esp_fastpath st in
  let p := patch_fragment (threshold st) new 0
             (frag_absolute (table_row t eflags_live)) in
  if snd p =? 2
  then Ok (tt, set_shared_esp_fastpath (set_absolute t eflags_live (fst p)) st)
  else Fatal "cannot find both threshold cmps in esp fastpath!".
Proof.
  unfold update_swap_threshold_in. run_monad.
  destruct (patch_fragment (threshold st) new 0
              (frag_absolute (table_row (shared_esp_fastpath st) eflags_live)))
    as [code' found].
  reflexivity.
Qed.

(** The patcher succeeds exactly when it finds two compares in each
    fragment, and then leaves the patched table. *)
Lemma esp_fastpath_update_swap_threshold_eq new st :
  esp_fastpath_update_swap_threshold new st =
  if gencode_patchable st then Ok (tt, after_patch new st)
  else Fatal "cannot find both threshold cmps in esp fastpath!".
Proof.
  unfold esp_fastpath_update_swap_threshold, gencode_patchable,
    threshold_cmps_found, after_patch, patch_table.
  rewrite (patch_fragment_found _ _ new), (patch_fragment_found _ (threshold st) new).
  unfold bind at 1. unfold emit, modify. unfold bind.
  rewrite update_swap_threshold_in_eq. cbv zeta.
  destruct st as [o n s x sh m [r0 r1] ev]. unfold threshold. simpl.
  destruct (snd (patch_fragment (stack_swap_threshold o) new 0
                   (frag_absolute r0)) =? 2); [| reflexivity].
  rewrite update_swap_threshold_in_eq. cbv zeta. unfold threshold. simpl.
  destruct (snd (patch_fragment (stack_swap_threshold o) new 0
                   (frag_absolute r1)) =? 2); reflexivity.
Qed.

Lemma update_stack_swap_threshold_eq new st :
  update_stack_swap_threshold new st =
  if gencode_patchable st then Ok (tt, after_update new st)
  else Fatal "cannot find both threshold cmps in esp fastpath!".
Proof.
  unfold update_stack_swap_threshold.
  unfold bind at 1. unfold emit, modify. unfold bind.
  rewrite esp_fastpath_update_swap_threshold_eq.
  change (gencode_patchable (add_event (EvUpdateThreshold new) st))
    with (gencode_patchable st).
  destruct (gencode_patchable st); reflexivity.
Qed.

(** *** The fragments the generator emits *)

(** A fragment with the two compares in the expected order: both are
    rewritten, and nothing else. *)
Lemma patch_fragment_two_cmps thr new r pre mid post :
  thr <> neg_int thr ->
  no_threshold_cmp thr pre = true ->
  no_threshold_cmp thr mid = true ->
  patch_fragment thr new 0
    (pre ++ threshold_cmp r thr :: mid ++ threshold_cmp r (neg_int thr) :: post) =
  (pre ++ threshold_cmp r new :: mid ++ threshold_cmp r (neg_int new) :: post, 2).
Proof.
  intros Hne Hpre Hmid.
  assert (A : patch_fragment thr new 1 (threshold_cmp r (neg_int thr) :: post) =
              (threshold_cmp r (neg_int new) :: post, 2)).
  { cbn [patch_fragment]. unfold threshold_cmp at 1, patch_instr. simpl.
    replace (neg_int thr =? thr) with false
      by (symmetry; apply Z.eqb_neq; congruence).
    rewrite Z.eqb_refl. reflexivity. }
  assert (B : patch_fragment thr new 1
                (mid ++ threshold_cmp r (neg_int thr) :: post) =
              (mid ++ threshold_cmp r (neg_int new) :: post, 2)).
  { rewrite patch_fragment_skip by (assumption || lia). now rewrite A. }
  assert (C : patch_instr thr new 0 (threshold_cmp r thr) =
              (threshold_cmp r new, 1)).
  { unfold threshold_cmp, patch_instr. simpl. now rewrite Z.eqb_refl. }
  rewrite patch_fragment_skip by (assumption || lia).
  cbn [patch_fragment]. rewrite C.
  change (1 >=? 2) with false. cbv iota. rewrite B. reflexivity.
Qed.

Section GeneratedCode.

Variable E : emitter.

Lemma absolute_fragment_shape o eflags_live :
  generate_shared_esp_fastpath_helper E o eflags_live ESP_ADJUST_ABSOLUTE =
  absolute_pre E o eflags_live
  ++ threshold_cmp REG_ECX (stack_swap_threshold o)
  :: add_jcc_slowpath E OP_jg
  ++ threshold_cmp REG_ECX (neg_int (stack_swap_threshold o))
  :: absolute_post E o eflags_live.
Proof.
  unfold generate_shared_esp_fastpath_helper, absolute_pre, absolute_post,
    swap_check. simpl is_absolute. cbv iota.
  repeat rewrite <- app_assoc. reflexivity.
Qed.

Lemma absolute_pre_threshold v o eflags_live :
  absolute_pre E (with_threshold v o) eflags_live = absolute_pre E o eflags_live.
Proof. reflexivity. Qed.

Lemma absolute_post_threshold v o eflags_live :
  absolute_post E (with_threshold v o) eflags_live = absolute_post E o eflags_live.
Proof. reflexivity. Qed.

(** The fragments of the relative kinds do not depend on the threshold. *)
Lemma relative_fragment_threshold v o eflags_live type :
  is_absolute type = false ->
  generate_shared_esp_fastpath_helper E (with_threshold v o) eflags_live type =
  generate_shared_esp_fastpath_helper E o eflags_live type.
Proof.
  intros H. unfold generate_shared_esp_fastpath_helper, swap_check.
  rewrite H. reflexivity.
Qed.

Lemma absolute_pre_clear thr o eflags_live :
  emitter_clear E thr = true ->
  no_threshold_cmp thr (absolute_pre E o eflags_live) = true.
Proof.
  unfold emitter_clear. intros H. apply andb_true_iff in H as [Hs _].
  unfold absolute_pre, fastpath_entry, no_threshold_cmp.
  repeat rewrite forallb_app. simpl.
  destruct eflags_live; [| reflexivity].
  unfold no_threshold_cmp in Hs. rewrite Hs. reflexivity.
Qed.

Lemma patch_absolute_fragment thr new o eflags_live :
  0 < thr < half_modulus ->
  emitter_clear E thr = true ->
  patch_fragment thr new 0
    (generate_shared_esp_fastpath_helper E (with_threshold thr o)
       eflags_live ESP_ADJUST_ABSOLUTE) =
  (generate_shared_esp_fastpath_helper E (with_threshold new o)
     eflags_live ESP_ADJUST_ABSOLUTE, 2).
Proof.
  intros Hthr Hclear.
  rewrite !absolute_fragment_shape.
  rewrite !absolute_pre_threshold, !absolute_post_threshold.
  change (stack_swap_threshold (with_threshold thr o)) with thr.
  change (stack_swap_threshold (with_threshold new o)) with new.
  apply patch_fragment_two_cmps.
  - rewrite neg_int_small by lia. lia.
  - now apply absolute_pre_clear.
  - unfold emitter_clear in Hclear. now apply andb_true_iff in Hclear as [_ H].
Qed.

Lemma with_threshold_same o : with_threshold (stack_swap_threshold o) o = o.
Proof. now destruct o. Qed.

(** Patching the generated table gives the table generated for the new
    threshold. *)
Lemma patch_generated_table new o :
  0 < stack_swap_threshold o < half_modulus ->
  emitter_clear E (stack_swap_threshold o) = true ->
  patch_table (stack_swap_threshold o) new (generate_shared_esp_fastpath E o) =
  generate_shared_esp_fastpath E (with_threshold new o).
Proof.
  intros Hthr Hclear.
  pose proof (patch_absolute_fragment _ new o false Hthr Hclear) as P0.
  pose proof (patch_absolute_fragment _ new o true Hthr Hclear) as P1.
  rewrite with_threshold_same in P0, P1.
  unfold patch_table, generate_shared_esp_fastpath.
  cbn [table_row set_absolute row_eflags_dead row_eflags_live frag_absolute
       frag_negative frag_positive frag_ret_immed].
  rewrite P0, P1. cbn [fst].
  rewrite (relative_fragment_threshold new o false ESP_ADJUST_NEGATIVE eq_refl),
    (relative_fragment_threshold new o false ESP_ADJUST_POSITIVE eq_refl),
    (relative_fragment_threshold new o false ESP_ADJUST_RET_IMMED eq_refl),
    (relative_fragment_threshold new o true ESP_ADJUST_NEGATIVE eq_refl),
    (relative_fragment_threshold new o true ESP_ADJUST_POSITIVE eq_refl),
    (relative_fragment_threshold new o true ESP_ADJUST_RET_IMMED eq_refl).
  reflexivity.
Qed.

Lemma generated_table_patchable st :
  shared_esp_fastpath st = generate_shared_esp_fastpath E (options st) ->
  0 < threshold st < half_modulus ->
  emitter_clear E (threshold st) = true ->
  gencode_patchable st = true.
Proof.
  intros Ht Hthr Hclear. unfold gencode_patchable, threshold_cmps_found.
  rewrite Ht. unfold threshold in *.
  pose proof (patch_absolute_fragment _ (stack_swap_threshold (options st))
                (options st) false Hthr Hclear) as P0.
  pose proof (patch_absolute_fragment _ (stack_swap_threshold (options st))
                (options st) true Hthr Hclear) as P1.
  rewrite with_threshold_same in P0, P1.
  unfold generate_shared_esp_fastpath.
  cbn [table_row row_eflags_dead row_eflags_live frag_absolute].
  rewrite P0, P1. reflexivity.
Qed.

End GeneratedCode.

(** ** Region bounds and the swap classifier *)

Lemma get_stack_region_bounds_eq R addr st :
  get_stack_region_bounds R addr st =
  Ok (region_of R addr, add_events (lookups_of R addr) st).
Proof.
  unfold get_stack_region_bounds, region_of, lookups_of. run_monad.
  destruct (is_in_heap_region R addr); [reflexivity |].
  destruct (LINUX R); simpl.
  - destruct (mmap_anon_lookup R addr); reflexivity.
  - reflexivity.
Qed.

Lemma check_stack_swap_swap R cur_xsp new_xsp st :
  is_stack_swap R cur_xsp new_xsp = true ->
  check_stack_swap R cur_xsp new_xsp st =
  Ok (true, swap_state R cur_xsp new_xsp st).
Proof.
  unfold is_stack_swap, check_stack_swap, swap_state, triggered. intros H.
  step. rewrite (bind_Ok _ _ _ _ _ (get_stack_region_bounds_eq _ _ _)).
  destruct (region_of R cur_xsp) as [[stack_start stack_size] |]; simpl in H.
  - apply negb_true_iff in H. rewrite H. reflexivity.
  - reflexivity.
Qed.

Lemma check_stack_swap_intra R cur_xsp new_xsp st :
  is_stack_swap R cur_xsp new_xsp = false ->
  check_stack_swap R cur_xsp new_xsp st =
  if num_non_swaps st >? MAX_NUMBER_NON_SWAPS then
    if gencode_patchable st
    then Ok (false, bump_state R cur_xsp new_xsp st)
    else Fatal "cannot find both threshold cmps in esp fastpath!"
  else Ok (false, intra_state R cur_xsp new_xsp st).
Proof.
  unfold is_stack_swap, check_stack_swap. intros H.
  step. rewrite (bind_Ok _ _ _ _ _ (get_stack_region_bounds_eq _ _ _)).
  destruct (region_of R cur_xsp) as [[stack_start stack_size] |]; simpl in H;
    [| discriminate].
  apply negb_false_iff in H. rewrite H.
  step. cbn [num_non_swaps add_event add_events set_stats].
  destruct (num_non_swaps st >? MAX_NUMBER_NON_SWAPS) eqn:C.
  - rewrite bind_assoc. step. rewrite bind_assoc. step.
    unfold bind. rewrite update_stack_swap_threshold_eq.
    change (gencode_patchable _) with (gencode_patchable st).
    destruct (gencode_patchable st); reflexivity.
  - step. reflexivity.
Qed.

(** ** The adjustment handler *)

Lemma handle_esp_adjust_eq R type val st :
  handle_esp_adjust R type val st =
  let esp := mc_xsp st in
  let delta := adjust_delta type val esp in
  match swap_candidate type val esp with
  | Some new_xsp =>
      if exceeds_threshold delta (threshold st) then
        bind (check_stack_swap R esp new_xsp)
             (fun swap => if swap then ret tt else apply_adjustment esp delta)
             (entered st)
      else apply_adjustment esp delta (entered st)
  | None =>
      apply_adjustment (adjust_base type esp) delta
        (if exceeds_threshold delta (threshold st)
         then add_event (EvLog (MSG_relative_adjust_above_threshold delta))
                        (entered st)
         else entered st)
  end.
Proof.
  unfold handle_esp_adjust, entered. step.
  change (mc_xsp (set_stats _ st)) with (mc_xsp st).
  change (threshold (set_stats _ st)) with (threshold st).
  destruct type; cbn [adjust_delta adjust_base swap_candidate]; cbv zeta;
    try (rewrite bind_if; step;
         destruct (exceeds_threshold _ (threshold st)); reflexivity).
Qed.

Lemma apply_adjustment_eq esp delta st :
  apply_adjustment esp delta st = Ok (tt, adjusted esp delta st).
Proof.
  unfold apply_adjustment, adjusted.
  destruct (delta =? 0); [reflexivity |]. cbn [negb]. step.
  destruct (SHADOW_STACK_POINTER (options st)); cbn [negb].
  - unfold do_shadow_set_range. destruct (delta >? 0); reflexivity.
  - destruct (delta <? 0); reflexivity.
Qed.

Lemma adjusted_control esp delta st : same_control st (adjusted esp delta st).
Proof.
  unfold same_control, adjusted.
  destruct (delta =? 0), (SHADOW_STACK_POINTER (options st)),
    (delta <? 0), (delta >? 0); cbn; repeat split.
Qed.

Lemma adjusted_seen p esp delta st :
  (forall e, is_mutation e = true -> p e = false) ->
  seen p (adjusted esp delta st) = seen p st.
Proof.
  intros Hp. unfold seen, adjusted.
  destruct (delta =? 0), (SHADOW_STACK_POINTER (options st)),
    (delta <? 0), (delta >? 0); cbn; try reflexivity;
    rewrite Hp by reflexivity; reflexivity.
Qed.

Lemma adjusted_local esp delta st :
  is_int delta ->
  is_reg_t (esp + delta) ->
  local_update esp (esp + delta) st (adjusted esp delta st).
Proof.
  intros Hd Hr. unfold local_update, adjusted.
  rewrite (to_reg_t_small _ Hr).
  destruct (Z.eqb_spec delta 0) as [-> | Hnz]; cbn [negb].
  - rewrite Z.add_0_r.
    destruct (SHADOW_STACK_POINTER (options st)); split; try reflexivity;
      intros a;
      destruct (Z.leb_spec esp a), (Z.ltb_spec a esp); cbn; try reflexivity; lia.
  - destruct (SHADOW_STACK_POINTER (options st)); cbn [negb].
    + destruct (Z.gtb_spec delta 0) as [Hp | Hn]; cbn; split; try reflexivity;
        intros a; unfold shadow_set_range;
        destruct (Z.leb_spec (esp + delta) a), (Z.ltb_spec a esp),
          (Z.leb_spec esp a), (Z.ltb_spec a (esp + delta));
        cbn; try reflexivity; lia.
    + destruct (Z.ltb_spec delta 0) as [Hn | Hp]; cbn; split; try reflexivity;
        intros a; unfold memset.
      * rewrite (to_reg_t_opp _ Hd Hn).
        replace (esp + delta + - delta) with esp by lia. reflexivity.
      * destruct (Z.leb_spec (esp + delta) a), (Z.ltb_spec a esp);
          cbn; try reflexivity; lia.
Qed.

(** ** Region-bounds resolution (C6) *)

(** C6, as stated, fails: for an address in a small malloc the code asks the
    heap index only and fails, where the chain of the three lookups in
    priority order succeeds through the query of the operating system. *)
Lemma C6_counterexample :
  exists st',
    get_stack_region_bounds R_small_malloc 0x8000010 st0 = Ok (None, st') /\
    spec_region_lookup R_small_malloc 0x8000010 = Some (0x8000000, 0x100000) /\
    seen (fun e => match e with EvQueryMemory _ => true | _ => false end) st' = 0%nat.
Proof. eexists. repeat split. Qed.

(** C6, amended: the resolution first tests whether the address lies in a
    heap region.  If it does, only the index of large mallocs is asked and
    its answer, success or failure, is the answer.  Otherwise the
    anonymous-mapping index is asked (on Linux), then, if that fails, the
    operating system, and the first success is the answer; the heap index is
    not asked. *)
Theorem C6_region_bounds_dispatch (R : resolver) (addr : Z) (st : state) :
  exists r asked,
    get_stack_region_bounds R addr st = Ok (r, add_events asked st) /\
    (if is_in_heap_region R addr then
       r = malloc_large_lookup R addr /\
       asked = [EvMallocLargeLookup addr; EvIsInHeapRegion addr]
     else if LINUX R then
       match mmap_anon_lookup R addr with
       | Some b =>
           r = Some b /\
           asked = [EvMmapAnonLookup addr; EvIsInHeapRegion addr]
       | None =>
           r = dr_query_memory R addr /\
           asked = [EvQueryMemory addr; EvMmapAnonLookup addr;
                    EvIsInHeapRegion addr]
       end
     else
       r = dr_query_memory R addr /\
       asked = [EvQueryMemory addr; EvIsInHeapRegion addr]).
Proof.
  exists (region_of R addr), (lookups_of R addr).
  split; [apply get_stack_region_bounds_eq |].
  unfold region_of, lookups_of.
  destruct (is_in_heap_region R addr); [now split |].
  destruct (LINUX R); [| now split].
  destruct (mmap_anon_lookup R addr); now split.
Qed.

(** ** The swap classifier (C2) *)

(** With bounds that end inside the address space, the test of the
    classifier is membership in [base, base + size). *)
Lemma in_stack_region_bounds new_xsp base size :
  is_reg_t (base + size) ->
  in_stack_region new_xsp (Some (base, size)) =
  (base <=? new_xsp) && (new_xsp <? base + size).
Proof.
  intros H. unfold in_stack_region. rewrite (to_reg_t_small _ H).
  now rewrite Z.geb_leb.
Qed.

(** C2: the classifier, asked about an old and a candidate new stack
    pointer, answers "not a swap" when the bounds of the old pointer's region
    resolve and hold the candidate, and "swap" when they resolve and do not
    hold it, or do not resolve.  The generated code is patchable, so a raise
    of the threshold on the way does not stop the process, and resolved
    bounds end inside the address space. *)
Theorem C2_swap_classification (R : resolver) (cur_xsp new_xsp : Z) (st : state) :
  gencode_patchable st = true ->
  (forall base size,
      region_of R cur_xsp = Some (base, size) -> is_reg_t (base + size)) ->
  exists st',
    check_stack_swap R cur_xsp new_xsp st =
    Ok (match region_of R cur_xsp with
        | Some (base, size) =>
            negb ((base <=? new_xsp) && (new_xsp <? base + size))
        | None => true
        end, st').
Proof.
  intros Hp Hwf.
  assert (Hs : is_stack_swap R cur_xsp new_xsp =
               match region_of R cur_xsp with
               | Some (base, size) =>
                   negb ((base <=? new_xsp) && (new_xsp <? base + size))
               | None => true
               end).
  { unfold is_stack_swap.
    destruct (region_of R cur_xsp) as [[base size] |] eqn:Er; [| reflexivity].
    now rewrite in_stack_region_bounds by (now apply Hwf). }
  rewrite <- Hs.
  destruct (is_stack_swap R cur_xsp new_xsp) eqn:Sw.
  - eexists. now apply check_stack_swap_swap.
  - rewrite (check_stack_swap_intra _ _ _ _ Sw), Hp.
    destruct (num_non_swaps st >? MAX_NUMBER_NON_SWAPS); eexists; reflexivity.
Qed.

(** In the concrete process: a candidate 0x10000 below the stack pointer,
    still on the stack, is no swap. *)
Lemma C2_witness :
  exists st',
    check_stack_swap R0 0x20000 0x10000 st0 = Ok (false, st').
Proof.
  apply (C2_swap_classification R0 0x20000 0x10000 st0).
  - vm_compute. reflexivity.
  - intros base size H. vm_compute in H. injection H as <- <-.
    vm_compute. split; [discriminate | reflexivity].
Defined.

(** ** The two ways through the adjustment handler *)

Lemma handle_esp_adjust_swap R type val st :
  confirmed_swap R type val st = true ->
  exists new_xsp,
    swap_candidate type val (mc_xsp st) = Some new_xsp /\
    handle_esp_adjust R type val st =
    Ok (tt, swap_state R (mc_xsp st) new_xsp (entered st)).
Proof.
  unfold confirmed_swap. intros H. rewrite handle_esp_adjust_eq. cbv zeta.
  destruct (swap_candidate type val (mc_xsp st)) as [new_xsp |];
    [| discriminate].
  apply andb_true_iff in H as [He Hs]. rewrite He.
  exists new_xsp. split; [reflexivity |].
  now rewrite (bind_Ok _ _ _ _ _ (check_stack_swap_swap _ _ _ _ Hs)).
Qed.

Lemma handle_esp_adjust_ordinary R type val st :
  confirmed_swap R type val st = false ->
  gencode_patchable st = true ->
  handle_esp_adjust R type val st =
  Ok (tt, adjusted (adjust_base type (mc_xsp st))
                   (adjust_delta type val (mc_xsp st))
                   (classified R type val st)).
Proof.
  unfold confirmed_swap, classified. intros H Hp.
  rewrite handle_esp_adjust_eq. cbv zeta.
  destruct (swap_candidate type val (mc_xsp st)) as [new_xsp |] eqn:Ec.
  - assert (Hb : adjust_base type (mc_xsp st) = mc_xsp st)
      by (destruct type; try discriminate; reflexivity).
    rewrite Hb.
    destruct (exceeds_threshold _ (threshold st)).
    + simpl in H.
      unfold bind. rewrite (check_stack_swap_intra _ _ _ _ H).
      change (gencode_patchable (entered st)) with (gencode_patchable st).
      rewrite Hp. change (num_non_swaps (entered st)) with (num_non_swaps st).
      destruct (num_non_swaps st >? MAX_NUMBER_NON_SWAPS);
        apply apply_adjustment_eq.
    + apply apply_adjustment_eq.
  - apply apply_adjustment_eq.
Qed.

(** An ordinary adjustment that stays within the threshold, or is of a
    relative kind, needs no patchable code. *)
Lemma handle_esp_adjust_local R type val st :
  (exceeds_threshold (adjust_delta type val (mc_xsp st)) (threshold st) = false \/
   swap_candidate type val (mc_xsp st) = None) ->
  handle_esp_adjust R type val st =
  Ok (tt, adjusted (adjust_base type (mc_xsp st))
                   (adjust_delta type val (mc_xsp st))
                   (classified R type val st)).
Proof.
  unfold classified. intros H. rewrite handle_esp_adjust_eq. cbv zeta.
  destruct (swap_candidate type val (mc_xsp st)) as [new_xsp |] eqn:Ec.
  - destruct H as [H | H]; [| discriminate]. rewrite H.
    assert (Hb : adjust_base type (mc_xsp st) = mc_xsp st)
      by (destruct type; try discriminate; reflexivity).
    rewrite Hb. apply apply_adjustment_eq.
  - apply apply_adjustment_eq.
Qed.

Lemma filter_lookups_of p R addr :
  (forall e, is_region_lookup e = true -> p e = false) ->
  filter p (lookups_of R addr) = [].
Proof.
  intros Hp. unfold lookups_of.
  destruct (is_in_heap_region R addr); cbn.
  - now rewrite !Hp.
  - destruct (LINUX R); [destruct (mmap_anon_lookup R addr) |]; cbn;
      now rewrite !Hp.
Qed.

(** What the classification of an ordinary adjustment leaves alone. *)
Lemma classified_frame R type val st :
  shadow (classified R type val st) = shadow st /\
  app_memory (classified R type val st) = app_memory st /\
  mc_xsp (classified R type val st) = mc_xsp st /\
  SHADOW_STACK_POINTER (options (classified R type val st)) =
    SHADOW_STACK_POINTER (options st) /\
  stack_swaps (stats (classified R type val st)) = stack_swaps (stats st) /\
  seen is_mutation (classified R type val st) = seen is_mutation st.
Proof.
  unfold classified. cbv zeta.
  destruct (swap_candidate type val (mc_xsp st)) as [new_xsp |];
    destruct (exceeds_threshold _ (threshold st));
    try destruct (num_non_swaps st >? MAX_NUMBER_NON_SWAPS);
    repeat split; try reflexivity;
    unfold seen; cbn; rewrite ?filter_app, ?filter_lookups_of by
      (intros [] ; (discriminate || reflexivity)); reflexivity.
Qed.

Lemma classified_mutations R type val st :
  mutations (classified R type val st) = mutations st.
Proof.
  unfold classified, mutations. cbv zeta.
  destruct (swap_candidate type val (mc_xsp st)) as [new_xsp |];
    destruct (exceeds_threshold _ (threshold st));
    try destruct (num_non_swaps st >? MAX_NUMBER_NON_SWAPS);
    cbn; rewrite ?filter_app, ?filter_lookups_of by
      (intros [] ; (discriminate || reflexivity)); reflexivity.
Qed.

(** The call an adjustment makes. *)
Lemma adjusted_mutations esp delta st :
  is_int delta ->
  is_reg_t (esp + delta) ->
  mutations (adjusted esp delta st) =
  local_calls (SHADOW_STACK_POINTER (options st)) esp (esp + delta)
  ++ mutations st.
Proof.
  intros Hd Hr. unfold mutations, adjusted, local_calls.
  rewrite (to_reg_t_small _ Hr).
  destruct (Z.eqb_spec delta 0) as [-> | Hnz]; cbn [negb].
  - rewrite Z.add_0_r, Z.eqb_refl. reflexivity.
  - destruct (Z.eqb_spec esp (esp + delta)) as [He | _]; [lia |].
    destruct (SHADOW_STACK_POINTER (options st)); cbn [negb].
    + destruct (Z.gtb_spec delta 0) as [Hp | Hn]; cbn.
      * rewrite Z.min_l, Z.max_r by lia.
        destruct (Z.ltb_spec (esp + delta) esp); [lia | reflexivity].
      * rewrite Z.min_r, Z.max_l by lia.
        destruct (Z.ltb_spec (esp + delta) esp); [reflexivity | lia].
    + destruct (Z.ltb_spec delta 0) as [Hn | Hp]; cbn.
      * rewrite (to_reg_t_opp _ Hd Hn).
        destruct (Z.ltb_spec (esp + delta) esp); [| lia].
        replace (esp - (esp + delta)) with (- delta) by lia. reflexivity.
      * destruct (Z.ltb_spec (esp + delta) esp); [lia | reflexivity].
Qed.

Lemma adjusted_classified_calls R type val st :
  let pre := adjust_base type (mc_xsp st) in
  let delta := adjust_delta type val (mc_xsp st) in
  is_reg_t (pre + delta) ->
  mutations (adjusted pre delta (classified R type val st)) =
  local_calls (SHADOW_STACK_POINTER (options st)) pre (pre + delta)
  ++ mutations st.
Proof.
  intros pre delta Hr.
  rewrite adjusted_mutations, classified_mutations;
    [| destruct type; cbn [adjust_delta]; unfold neg_int;
       apply to_ptr_int_t_range | exact Hr].
  destruct (classified_frame R type val st) as (_ & _ & _ & -> & _).
  reflexivity.
Qed.

(** ** A confirmed swap (C3) *)

Lemma swap_state_frame R cur_xsp new_xsp st :
  shadow (swap_state R cur_xsp new_xsp st) = shadow st /\
  app_memory (swap_state R cur_xsp new_xsp st) = app_memory st /\
  seen is_mutation (swap_state R cur_xsp new_xsp st) = seen is_mutation st /\
  stack_swaps (stats (swap_state R cur_xsp new_xsp st)) =
    inc (stack_swaps (stats st)).
Proof.
  unfold swap_state, triggered. cbv zeta.
  destruct (region_of R cur_xsp); repeat split; try reflexivity;
    unfold seen; cbn; rewrite ?filter_app, ?filter_lookups_of by
      (intros []; (discriminate || reflexivity)); reflexivity.
Qed.

(** C3: when the handler confirms a stack swap it returns with the shadow
    state and the application's memory as they were, having called neither
    shadow_set_range nor memset, and the counter of swaps is one more; an
    adjustment that is not a confirmed swap leaves that counter alone. *)
Theorem C3_confirmed_swap_no_mutation
        (R : resolver) (type : esp_adjust_t) (val : Z) (st : state) :
  (confirmed_swap R type val st = true ->
   exists st',
     handle_esp_adjust R type val st = Ok (tt, st') /\
     shadow st' = shadow st /\
     app_memory st' = app_memory st /\
     seen is_mutation st' = seen is_mutation st /\
     stack_swaps (stats st') = inc (stack_swaps (stats st))) /\
  (confirmed_swap R type val st = false ->
   forall st',
     handle_esp_adjust R type val st = Ok (tt, st') ->
     stack_swaps (stats st') = stack_swaps (stats st)).
Proof.
  split.
  - intros H. destruct (handle_esp_adjust_swap _ _ _ _ H) as (new_xsp & _ & E).
    eexists. split; [exact E |].
    destruct (swap_state_frame R (mc_xsp st) new_xsp (entered st))
      as (Hs & Hm & Hc & Hn).
    repeat split; assumption.
  - intros H st' E.
    rewrite handle_esp_adjust_eq in E. cbv zeta in E.
    unfold confirmed_swap in H.
    assert (A : forall esp delta s, stack_swaps (stats (adjusted esp delta s)) =
                                    stack_swaps (stats s)).
    { intros esp delta s.
      destruct (adjusted_control esp delta s) as (_ & _ & -> & _). reflexivity. }
    destruct (swap_candidate type val (mc_xsp st)) as [new_xsp |].
    + destruct (exceeds_threshold _ (threshold st)).
      * simpl in H. unfold bind in E.
        rewrite (check_stack_swap_intra _ _ _ _ H) in E.
        destruct (num_non_swaps (entered st) >? MAX_NUMBER_NON_SWAPS);
          [destruct (gencode_patchable (entered st)); [| discriminate] |];
          rewrite apply_adjustment_eq in E; injection E as <-;
          rewrite A; reflexivity.
      * rewrite apply_adjustment_eq in E. injection E as <-.
        rewrite A. reflexivity.
    + rewrite apply_adjustment_eq in E. injection E as <-. rewrite A.
      destruct (exceeds_threshold _ (threshold st)); reflexivity.
Qed.

(** In the concrete process: the stack pointer is set to 0x50000, which is
    off the stack mapped at 0x10000 up to 0x30000. *)
Lemma C3_witness :
  exists st',
    handle_esp_adjust R0 ESP_ADJUST_ABSOLUTE 0x50000 st0 = Ok (tt, st') /\
    shadow st' = shadow st0 /\
    app_memory st' = app_memory st0 /\
    seen is_mutation st' = seen is_mutation st0 /\
    stack_swaps (stats st') = 1.
Proof.
  apply (proj1 (C3_confirmed_swap_no_mutation R0 ESP_ADJUST_ABSOLUTE 0x50000 st0)).
  vm_compute. reflexivity.
Defined.

(** ** Adjustments within the threshold (C5) *)

Lemma adjust_delta_int type val esp : is_int (adjust_delta type val esp).
Proof.
  destruct type; cbn [adjust_delta]; unfold neg_int; apply to_ptr_int_t_range.
Qed.

(** The update of an ordinary adjustment, from the state the handler was
    entered in. *)
Lemma adjusted_classified_local R type val st :
  let pre := adjust_base type (mc_xsp st) in
  let delta := adjust_delta type val (mc_xsp st) in
  is_reg_t (pre + delta) ->
  local_update pre (pre + delta) st (adjusted pre delta (classified R type val st)).
Proof.
  intros pre delta Hr.
  pose proof (adjusted_local pre delta (classified R type val st)
                (adjust_delta_int _ _ _) Hr) as L.
  destruct (classified_frame R type val st) as (Hs & Hm & _ & Ho & _).
  unfold local_update in *. rewrite Ho, Hs, Hm in L. exact L.
Qed.

(** C5: an adjustment whose delta is at most the threshold in magnitude
    makes the handler ask for no region bounds and classify nothing, and the
    local update is applied in the direction of the delta: in full-tracking
    mode the shadow state of the claimed or released range changes, in
    lightweight mode the claimed range is zero-filled and a shrink is
    ignored. *)
Theorem C5_within_threshold_is_local
        (R : resolver) (type : esp_adjust_t) (val : Z) (st : state) :
  let pre := adjust_base type (mc_xsp st) in
  let delta := adjust_delta type val (mc_xsp st) in
  is_int (threshold st) ->
  Z.abs delta <= threshold st ->
  exists st',
    handle_esp_adjust R type val st = Ok (tt, st') /\
    seen is_region_lookup st' = seen is_region_lookup st /\
    stack_swap_triggers (stats st') = stack_swap_triggers (stats st) /\
    (is_reg_t (pre + delta) ->
     local_update pre (pre + delta) st st' /\
     mutations st' =
       local_calls (SHADOW_STACK_POINTER (options st)) pre (pre + delta)
       ++ mutations st).
Proof.
  intros pre delta Hi Ha. subst pre delta.
  assert (He : exceeds_threshold (adjust_delta type val (mc_xsp st))
                                 (threshold st) = false).
  { unfold is_int in Hi. rewrite exceeds_threshold_abs by lia.
    rewrite Z.gtb_ltb. apply Z.ltb_ge. exact Ha. }
  eexists. split; [apply handle_esp_adjust_local; now left |].
  assert (Hc : classified R type val st = entered st).
  { unfold classified. cbv zeta. rewrite He.
    now destruct (swap_candidate type val (mc_xsp st)). }
  repeat split.
  - rewrite adjusted_seen by (intros []; (discriminate || reflexivity)).
    now rewrite Hc.
  - destruct (adjusted_control (adjust_base type (mc_xsp st))
                (adjust_delta type val (mc_xsp st)) (classified R type val st))
      as (_ & _ & -> & _).
    now rewrite Hc.
  - now apply adjusted_classified_local.
  - now apply adjusted_classified_calls.
Qed.

(** In the concrete process: a frame of 64 bytes is set up by [sub]; in
    full-tracking mode the 64 bytes below the old stack pointer become
    undefined and the byte below them stays unaddressable; in lightweight
    mode the 64 bytes are zeroed and the shadow state stays. *)
Lemma C5_witness :
  (exists st',
      handle_esp_adjust R0 ESP_ADJUST_NEGATIVE 64 st0 = Ok (tt, st') /\
      seen is_region_lookup st' = 0%nat /\
      shadow st' (0x20000 - 64) = SHADOW_UNDEFINED /\
      shadow st' (0x20000 - 65) = SHADOW_UNADDRESSABLE /\
      shadow st' 0x20000 = SHADOW_DEFINED /\
      mutations st' = [EvShadowSetRange 0x1ffc0 0x20000 SHADOW_UNDEFINED]) /\
  (exists st',
      handle_esp_adjust R0 ESP_ADJUST_NEGATIVE 64 st0_leaks_only = Ok (tt, st') /\
      seen is_region_lookup st' = 0%nat /\
      shadow st' = shadow st0_leaks_only /\
      app_memory st' (0x20000 - 64) = 0 /\
      app_memory st' (0x20000 - 65) = 0xCC /\
      app_memory st' 0x20000 = 0xCC /\
      mutations st' = [EvMemset 0x1ffc0 64]).
Proof.
  split.
  - destruct (C5_within_threshold_is_local R0 ESP_ADJUST_NEGATIVE 64 st0)
      as (st' & E & L & _ & U).
    + vm_compute. split; [discriminate | reflexivity].
    + vm_compute. discriminate.
    + exists st'. split; [exact E |]. split; [exact L |].
      destruct U as [[_ U] C].
      * vm_compute. split; [discriminate | reflexivity].
      * rewrite !U. repeat split. exact C.
  - destruct (C5_within_threshold_is_local R0 ESP_ADJUST_NEGATIVE 64
                st0_leaks_only) as (st' & E & L & _ & U).
    + vm_compute. split; [discriminate | reflexivity].
    + vm_compute. discriminate.
    + exists st'. split; [exact E |]. split; [exact L |].
      destruct U as [[S U] C].
      * vm_compute. split; [discriminate | reflexivity].
      * rewrite !U. repeat split; [exact S | exact C].
Defined.

(** ** Relative adjustments (C10) *)

(** C10: for a relative kind (and any kind other than the absolute set and
    the mask) the handler asks for no region bounds and classifies nothing,
    however large the delta: a delta above the threshold adds one warning to
    the log, and the update is applied as for any adjustment on the stack.
    So only the absolute and the mask kinds can be classified as swaps.
    The generated fragments agree: those of the relative kinds do not depend
    on the threshold. *)
Theorem C10_relative_never_classified
        (R : resolver) (type : esp_adjust_t) (val : Z) (st : state) :
  let pre := adjust_base type (mc_xsp st) in
  let delta := adjust_delta type val (mc_xsp st) in
  type <> ESP_ADJUST_ABSOLUTE ->
  type <> ESP_ADJUST_AND ->
  (exists st',
      handle_esp_adjust R type val st = Ok (tt, st') /\
      seen is_region_lookup st' = seen is_region_lookup st /\
      stack_swap_triggers (stats st') = stack_swap_triggers (stats st) /\
      stack_swaps (stats st') = stack_swaps (stats st) /\
      seen is_relative_warning st' =
        (if exceeds_threshold delta (threshold st)
         then S (seen is_relative_warning st)
         else seen is_relative_warning st) /\
      (is_reg_t (pre + delta) ->
       local_update pre (pre + delta) st st' /\
       mutations st' =
         local_calls (SHADOW_STACK_POINTER (options st)) pre (pre + delta)
         ++ mutations st)) /\
  (forall (E : emitter) (o : options_t) (v : Z) (eflags_live : bool),
      generate_shared_esp_fastpath_helper E (with_threshold v o) eflags_live type =
      generate_shared_esp_fastpath_helper E o eflags_live type).
Proof.
  intros pre delta Habs Hand. subst pre delta.
  assert (Hc : swap_candidate type val (mc_xsp st) = None)
    by (destruct type; try reflexivity; contradiction).
  split.
  - eexists. split; [apply handle_esp_adjust_local; now right |].
    assert (Hs : classified R type val st =
                 if exceeds_threshold (adjust_delta type val (mc_xsp st))
                                      (threshold st)
                 then add_event
                        (EvLog (MSG_relative_adjust_above_threshold
                                  (adjust_delta type val (mc_xsp st))))
                        (entered st)
                 else entered st).
    { unfold classified. cbv zeta. now rewrite Hc. }
    destruct (adjusted_control (adjust_base type (mc_xsp st))
                (adjust_delta type val (mc_xsp st)) (classified R type val st))
      as (_ & _ & Hst & _).
    repeat split.
    + rewrite adjusted_seen by (intros []; (discriminate || reflexivity)).
      rewrite Hs. now destruct (exceeds_threshold _ (threshold st)).
    + rewrite Hst, Hs. now destruct (exceeds_threshold _ (threshold st)).
    + rewrite Hst, Hs. now destruct (exceeds_threshold _ (threshold st)).
    + rewrite adjusted_seen by (intros []; (discriminate || reflexivity)).
      rewrite Hs. now destruct (exceeds_threshold _ (threshold st)).
    + now apply adjusted_classified_local.
    + now apply adjusted_classified_calls.
  - intros E o v eflags_live. apply relative_fragment_threshold.
    destruct type; try reflexivity; contradiction.
Qed.

(** In the concrete process: [sub] of 0x10000 bytes, above the threshold of
    0x9000: one warning, no lookup, no swap, and the shadow state of the
    claimed range is set. *)
Lemma C10_witness :
  exists st',
    handle_esp_adjust R0 ESP_ADJUST_NEGATIVE 0x10000 st0 = Ok (tt, st') /\
    seen is_region_lookup st' = 0%nat /\
    stack_swap_triggers (stats st') = 0 /\
    stack_swaps (stats st') = 0 /\
    seen is_relative_warning st' = 1%nat /\
    shadow st' 0x10000 = SHADOW_UNDEFINED.
Proof.
  destruct (C10_relative_never_classified R0 ESP_ADJUST_NEGATIVE 0x10000 st0)
    as ((st' & E & L & T & S & W & U) & _).
  - discriminate.
  - discriminate.
  - exists st'. repeat (split; [assumption |]).
    destruct U as [[_ U] _].
    + vm_compute. split; [discriminate | reflexivity].
    + rewrite U. reflexivity.
Defined.

(** ** The update in full-tracking mode (C4) *)

(** C4, as stated, fails on growth: [sub] of 16 bytes moves the stack
    pointer of the concrete process to 0x1fff0, and the shadow state of that
    very byte, the new top of stack, goes from unaddressable to undefined. *)
Lemma C4_counterexample :
  exists st',
    handle_esp_adjust R0 ESP_ADJUST_NEGATIVE 16 st0 = Ok (tt, st') /\
    adjust_base ESP_ADJUST_NEGATIVE (mc_xsp st0) +
      adjust_delta ESP_ADJUST_NEGATIVE 16 (mc_xsp st0) = 0x1fff0 /\
    ~ new_top_granule_untouched 0x1fff0 st0 st'.
Proof.
  exists (adjusted (adjust_base ESP_ADJUST_NEGATIVE (mc_xsp st0))
                   (adjust_delta ESP_ADJUST_NEGATIVE 16 (mc_xsp st0))
                   (classified R0 ESP_ADJUST_NEGATIVE 16 st0)).
  split; [apply handle_esp_adjust_local; left; vm_compute; reflexivity |].
  split; [reflexivity |].
  intros H. specialize (H 0x1fff0 ltac:(lia)).
  vm_compute in H. discriminate H.
Qed.

(** C4, amended: in full-tracking mode an adjustment from [pre] to [post]
    that is not a confirmed swap marks the half-open byte range between the
    two: on growth [post, pre) becomes undefined, the new top of stack
    included and the old one excluded; on shrink [pre, post) becomes
    unaddressable, and the granule at the new top of stack is left alone.
    No byte outside the range changes, and the application's memory is not
    written.  The handler makes one call for it, shadow_set_range from the
    lower to the upper of the two pointers, and none for a delta of 0. *)
Theorem C4_full_tracking_update
        (R : resolver) (type : esp_adjust_t) (val : Z) (st : state) :
  let pre := adjust_base type (mc_xsp st) in
  let delta := adjust_delta type val (mc_xsp st) in
  let post := pre + delta in
  SHADOW_STACK_POINTER (options st) = true ->
  confirmed_swap R type val st = false ->
  gencode_patchable st = true ->
  is_reg_t post ->
  exists st',
    handle_esp_adjust R type val st = Ok (tt, st') /\
    app_memory st' = app_memory st /\
    (delta < 0 ->
     (forall a, post <= a < pre -> shadow st' a = SHADOW_UNDEFINED) /\
     shadow st' post = SHADOW_UNDEFINED) /\
    (delta > 0 ->
     (forall a, pre <= a < post -> shadow st' a = SHADOW_UNADDRESSABLE) /\
     new_top_granule_untouched post st st') /\
    (forall a, a < Z.min pre post \/ Z.max pre post <= a ->
               shadow st' a = shadow st a) /\
    mutations st' = local_calls true pre post ++ mutations st.
Proof.
  intros pre delta post Hfull Hswap Hp Hr. subst post.
  eexists. split; [now apply handle_esp_adjust_ordinary |].
  pose proof (adjusted_classified_local R type val st Hr) as L.
  fold pre delta in L |- *.
  unfold local_update in L. rewrite Hfull in L. destruct L as [Lm Ls].
  split; [exact Lm |].
  split; [| split; [| split]]; cycle 3.
  - rewrite <- Hfull. now apply adjusted_classified_calls.
  - intros Hd.
    assert (A : forall a, pre + delta <= a < pre ->
                          shadow (adjusted pre delta (classified R type val st)) a =
                          SHADOW_UNDEFINED).
    { intros a Ha. rewrite Ls.
      destruct (Z.leb_spec (pre + delta) a), (Z.ltb_spec a pre);
        cbn; try reflexivity; lia. }
    split; [exact A | apply A; lia].
  - intros Hd. split.
    + intros a Ha. rewrite Ls.
      destruct (Z.leb_spec (pre + delta) a), (Z.ltb_spec a pre),
        (Z.leb_spec pre a), (Z.ltb_spec a (pre + delta));
        cbn; try reflexivity; lia.
    + intros a Ha. rewrite Ls.
      destruct (Z.leb_spec (pre + delta) a), (Z.ltb_spec a pre),
        (Z.leb_spec pre a), (Z.ltb_spec a (pre + delta));
        cbn; try reflexivity; lia.
  - intros a Ha. rewrite Ls.
    destruct (Z.leb_spec (pre + delta) a), (Z.ltb_spec a pre),
      (Z.leb_spec pre a), (Z.ltb_spec a (pre + delta));
      cbn; try reflexivity; lia.
Qed.

(** In the concrete process: [leave] sets the stack pointer 0x10000 bytes
    down, above the threshold but on the same stack, so the classifier finds
    a false alarm and the range is marked undefined, the new top of stack
    with it. *)
Lemma C4_witness :
  exists st',
    handle_esp_adjust R0 ESP_ADJUST_ABSOLUTE 0x10000 st0 = Ok (tt, st') /\
    app_memory st' = app_memory st0 /\
    shadow st' 0x10000 = SHADOW_UNDEFINED /\
    shadow st' 0x1ffff = SHADOW_UNDEFINED /\
    shadow st' 0xffff = shadow st0 0xffff /\
    shadow st' 0x20000 = shadow st0 0x20000 /\
    mutations st' = [EvShadowSetRange 0x10000 0x20000 SHADOW_UNDEFINED].
Proof.
  destruct (C4_full_tracking_update R0 ESP_ADJUST_ABSOLUTE 0x10000 st0)
    as (st' & E & M & G & _ & F & C).
  - reflexivity.
  - vm_compute. reflexivity.
  - vm_compute. reflexivity.
  - vm_compute. split; [discriminate | reflexivity].
  - exists st'. split; [exact E |]. split; [exact M |].
    destruct G as [G1 G2]; [vm_compute; reflexivity |].
    split; [exact G2 |].
    split; [apply G1; vm_compute; split; [discriminate | reflexivity] |].
    split; [apply F; vm_compute; left; reflexivity |].
    split; [apply F; vm_compute; right; discriminate |].
    exact C.
Defined.

(** ** The threshold sizing policy (C7) *)

Lemma check_stack_size_vs_threshold_eq stack_size st :
  0 <= threshold st < half_modulus ->
  check_stack_size_vs_threshold stack_size st =
  if (stack_size <? threshold st) && (MIN_SWAP_THRESHOLD <? threshold st)
  then update_stack_swap_threshold MIN_SWAP_THRESHOLD st
  else Ok (tt, st).
Proof.
  intros Hi. unfold check_stack_size_vs_threshold. step.
  assert (Hr : to_reg_t (threshold st) = threshold st).
  { apply to_reg_t_small. unfold is_reg_t.
    rewrite half_modulus_eq in Hi. rewrite modulus_eq. lia. }
  rewrite Hr. change (MIN_SWAP_THRESHOLD <? MIN_SWAP_THRESHOLD) with false.
  cbv iota.
  destruct (stack_size <? threshold st); [| reflexivity].
  destruct (MIN_SWAP_THRESHOLD <? threshold st); reflexivity.
Qed.

(** C7: when the size of a stack region becomes known and is smaller than
    the threshold, the threshold becomes MIN_SWAP_THRESHOLD, whatever the
    size: the threshold update is called once, with MIN_SWAP_THRESHOLD;
    otherwise nothing changes.  The threshold is a non-negative [int] and
    the generated code is patchable; "becomes MIN_SWAP_THRESHOLD" is for a
    threshold that is at least MIN_SWAP_THRESHOLD, as the data model has it
    (the guard before the update keeps a threshold that is not above the
    floor as it is). *)
Theorem C7_threshold_drops_to_floor (stack_size : Z) (st : state) :
  0 <= threshold st < half_modulus ->
  gencode_patchable st = true ->
  exists st',
    check_stack_size_vs_threshold stack_size st = Ok (tt, st') /\
    (MIN_SWAP_THRESHOLD <= threshold st ->
     threshold st' =
       if stack_size <? threshold st then MIN_SWAP_THRESHOLD else threshold st) /\
    threshold st' =
      (if (stack_size <? threshold st) && (MIN_SWAP_THRESHOLD <? threshold st)
       then MIN_SWAP_THRESHOLD else threshold st) /\
    filter is_threshold_update (events st') =
      (if (stack_size <? threshold st) && (MIN_SWAP_THRESHOLD <? threshold st)
       then [EvUpdateThreshold MIN_SWAP_THRESHOLD] else [])
      ++ filter is_threshold_update (events st) /\
    (threshold st <= stack_size -> st' = st).
Proof.
  intros Hi Hp. rewrite check_stack_size_vs_threshold_eq by assumption.
  destruct (Z.ltb_spec stack_size (threshold st)) as [Hlt | Hge]; cbn [andb].
  - destruct (Z.ltb_spec MIN_SWAP_THRESHOLD (threshold st)) as [Hgt | Heq].
    + rewrite update_stack_swap_threshold_eq, Hp.
      eexists. split; [reflexivity |]. repeat split. lia.
    + exists st. split; [reflexivity |]. repeat split. lia.
  - exists st. split; [reflexivity |]. repeat split.
Qed.

(** The scenario of the spec: a region of 1024 bytes is discovered while
    the threshold is 4096; the threshold drops to 2048, not to 1024. *)
Lemma C7_witness :
  exists st',
    check_stack_size_vs_threshold 1024 (set_threshold 4096
      (set_shared_esp_fastpath
         (generate_shared_esp_fastpath E0 (with_threshold 4096 options0)) st0))
    = Ok (tt, st') /\
    threshold st' = 2048 /\
    filter is_threshold_update (events st') = [EvUpdateThreshold 2048].
Proof.
  destruct (C7_threshold_drops_to_floor 1024 (set_threshold 4096
      (set_shared_esp_fastpath
         (generate_shared_esp_fastpath E0 (with_threshold 4096 options0)) st0)))
    as (st' & E & T & _ & U & _).
  - vm_compute. split; [discriminate | reflexivity].
  - vm_compute. reflexivity.
  - exists st'. split; [exact E |]. split; [| exact U].
    apply T. vm_compute. discriminate.
Defined.

(** ** The errant-stack handler (C9) *)

Lemma handle_push_addressable_unresolved R addr start_addr sz st :
  check_push (options st) = true ->
  region_of R addr = None ->
  exists st',
    handle_push_addressable R addr start_addr sz st = Ok (false, st') /\
    shadow st' = shadow st /\
    app_memory st' = app_memory st /\
    seen is_mutation st' = seen is_mutation st.
Proof.
  intros Hc Hr. unfold handle_push_addressable. step.
  cbn [options set_stats]. rewrite Hc. step.
  rewrite (bind_Ok _ _ _ _ _ (get_stack_region_bounds_eq _ _ _)).
  rewrite Hr. step. cbn [options add_event add_events set_stats].
  destruct (pause_at_unaddressable (options st)); step;
    (eexists; split; [reflexivity |]);
    repeat split; unfold seen; cbn;
    rewrite ?filter_app, ?filter_lookups_of by
      (intros []; (discriminate || reflexivity));
    destruct (is_in_heap_region R addr); reflexivity.
Qed.

(** The lower end of the range the handler marks. *)
Lemma push_range_start addr base :
  PAGE_SIZE <= addr < modulus ->
  (if to_reg_t (addr - PAGE_SIZE) <? base then base
   else to_reg_t (addr - PAGE_SIZE)) = Z.max (addr - PAGE_SIZE) base.
Proof.
  intros H. rewrite to_reg_t_small
    by (unfold is_reg_t, PAGE_SIZE in *; rewrite modulus_eq in *; lia).
  destruct (Z.ltb_spec (addr - PAGE_SIZE) base); lia.
Qed.

(** The sizing policy stops only where the patcher does, and leaves the
    monitored state alone. *)
Lemma check_stack_size_vs_threshold_ok stack_size st :
  gencode_patchable st = true ->
  exists st',
    check_stack_size_vs_threshold stack_size st = Ok (tt, st') /\
    shadow st' = shadow st /\
    app_memory st' = app_memory st /\
    mutations st' = mutations st.
Proof.
  intros Hp. unfold check_stack_size_vs_threshold. step.
  destruct (stack_size <? to_reg_t (threshold st)); cbv zeta;
    [destruct (_ <? to_reg_t (threshold st)) |];
    rewrite ?update_stack_swap_threshold_eq, ?Hp;
    (eexists; split; [reflexivity |]); repeat split.
Qed.

Lemma handle_push_addressable_resolved R addr start_addr sz st base size :
  check_push (options st) = true ->
  region_of R addr = Some (base, size) ->
  gencode_patchable st = true ->
  PAGE_SIZE <= addr < modulus ->
  exists st',
    handle_push_addressable R addr start_addr sz st = Ok (true, st') /\
    app_memory st' = app_memory st /\
    shadow st' =
      shadow_set_range (Z.max (addr - PAGE_SIZE) base) start_addr
                       SHADOW_UNADDRESSABLE (shadow st) /\
    mutations st' =
      EvShadowSetRange (Z.max (addr - PAGE_SIZE) base) start_addr
                       SHADOW_UNADDRESSABLE :: mutations st.
Proof.
  intros Hc Hr Hp Ha. unfold handle_push_addressable. step.
  cbn [options set_stats]. rewrite Hc. step.
  rewrite (bind_Ok _ _ _ _ _ (get_stack_region_bounds_eq _ _ _)).
  rewrite Hr. step. rewrite push_range_start by assumption.
  unfold do_shadow_set_range. rewrite bind_assoc. step.
  match goal with
  | |- context [bind (check_stack_size_vs_threshold size) _ ?s] =>
      destruct (check_stack_size_vs_threshold_ok size s Hp)
        as (st' & E & S & M & C);
      rewrite (bind_Ok _ _ _ _ _ E)
  end.
  exists st'. split; [reflexivity |].
  split; [rewrite M; reflexivity |]. split; [rewrite S; reflexivity |].
  rewrite C. unfold mutations. cbn.
  rewrite filter_app, filter_lookups_of
    by (intros []; (discriminate || reflexivity)).
  destruct (is_in_heap_region R addr); reflexivity.
Qed.

(** C9: with the check enabled, when the bounds of the region that holds
    the written address resolve, the handler marks as unaddressable the range
    that starts one page below the address, or at the start of the region if
    that is nearer, and ends where the bytes being written start, which it
    therefore never marks, and returns true: it makes the one call of
    shadow_set_range for that range; when the bounds do not resolve it
    changes no shadow state and returns false. *)
Theorem C9_errant_stack
        (R : resolver) (addr start_addr sz : Z) (st : state) :
  check_push (options st) = true ->
  (forall base size,
      region_of R addr = Some (base, size) ->
      gencode_patchable st = true ->
      PAGE_SIZE <= addr < modulus ->
      exists st',
        handle_push_addressable R addr start_addr sz st = Ok (true, st') /\
        app_memory st' = app_memory st /\
        (forall a, Z.max (addr - PAGE_SIZE) base <= a < start_addr ->
                   shadow st' a = SHADOW_UNADDRESSABLE) /\
        (forall a, a < Z.max (addr - PAGE_SIZE) base \/ start_addr <= a ->
                   shadow st' a = shadow st a) /\
        mutations st' =
          EvShadowSetRange (Z.max (addr - PAGE_SIZE) base) start_addr
                           SHADOW_UNADDRESSABLE :: mutations st) /\
  (region_of R addr = None ->
   exists st',
     handle_push_addressable R addr start_addr sz st = Ok (false, st') /\
     shadow st' = shadow st /\
     app_memory st' = app_memory st /\
     seen is_mutation st' = seen is_mutation st).
Proof.
  intros Hc. split.
  - intros base size Hr Hp Ha.
    destruct (handle_push_addressable_resolved R addr start_addr sz st base size
                Hc Hr Hp Ha) as (st' & E & M & S & C).
    exists st'. split; [exact E |]. split; [exact M |].
    rewrite S. unfold shadow_set_range.
    split; [| split; [| exact C]]; intros a H.
    + destruct (Z.leb_spec (Z.max (addr - PAGE_SIZE) base) a),
        (Z.ltb_spec a start_addr); cbn; try reflexivity; lia.
    + destruct (Z.leb_spec (Z.max (addr - PAGE_SIZE) base) a),
        (Z.ltb_spec a start_addr); cbn; try reflexivity; lia.
  - now apply handle_push_addressable_unresolved.
Qed.

(** In the concrete process, with all shadow state defined: a push at
    0x18000 marks the page below it, up to the pushed bytes; a push at
    0x50000, off every known region, marks nothing. *)
Lemma C9_witness :
  (exists st',
      handle_push_addressable R0 0x18000 0x18000 4
        (set_shadow (fun _ => SHADOW_DEFINED) st0) = Ok (true, st') /\
      shadow st' 0x17000 = SHADOW_UNADDRESSABLE /\
      shadow st' 0x17fff = SHADOW_UNADDRESSABLE /\
      shadow st' 0x16fff = SHADOW_DEFINED /\
      shadow st' 0x18000 = SHADOW_DEFINED) /\
  (exists st',
      handle_push_addressable R0 0x50000 0x50000 4
        (set_shadow (fun _ => SHADOW_DEFINED) st0) = Ok (false, st') /\
      shadow st' = (fun _ => SHADOW_DEFINED)).
Proof.
  split.
  - destruct (C9_errant_stack R0 0x18000 0x18000 4
                (set_shadow (fun _ => SHADOW_DEFINED) st0) eq_refl)
      as [Hres _].
    destruct (Hres 0x10000 0x20000) as (st' & E & _ & In & Out & _).
    + reflexivity.
    + vm_compute. reflexivity.
    + vm_compute. split; [discriminate | reflexivity].
    + exists st'. split; [exact E |].
      split; [apply In; vm_compute; split; [discriminate | reflexivity] |].
      split; [apply In; vm_compute; split; [discriminate | reflexivity] |].
      split; [rewrite Out by (left; reflexivity); reflexivity |].
      rewrite Out by (right; vm_compute; discriminate). reflexivity.
  - destruct (C9_errant_stack R0 0x50000 0x50000 4
                (set_shadow (fun _ => SHADOW_DEFINED) st0) eq_refl)
      as [_ Hun].
    destruct Hun as (st' & E & S & _); [reflexivity |].
    exists st'. split; [exact E | exact S].
Defined.

(** ** The runtime patcher (C8) *)

(** C8: on a change of the threshold, in each of the two generated
    fragments of the absolute kind (one per flags-liveness variant) the
    patcher overwrites the immediate operand of exactly two compares, the one
    that held the old threshold with the new threshold and the one that held
    its negation with the negation of the new one; the code before, between
    and after them, and the fragments of the other kinds, stay as they are,
    so the table is the one the generator emits for the new threshold.  On
    any table, the patcher stops the process exactly when the count it
    found in a fragment is not two; the scan of a fragment ends at the
    second patch, so the count is never more than two. *)
Theorem C8_patcher_rewrites_two_operands (E : emitter) (new : Z) (st : state) :
  (shared_esp_fastpath st = generate_shared_esp_fastpath E (options st) ->
   0 < threshold st < half_modulus ->
   emitter_clear E (threshold st) = true ->
   exists st',
     esp_fastpath_update_swap_threshold new st = Ok (tt, st') /\
     shared_esp_fastpath st' =
       generate_shared_esp_fastpath E (with_threshold new (options st)) /\
     forall eflags_live : bool,
       let pre := absolute_pre E (options st) eflags_live in
       let mid := add_jcc_slowpath E OP_jg in
       let post := absolute_post E (options st) eflags_live in
       let row := table_row (shared_esp_fastpath st) eflags_live in
       let row' := table_row (shared_esp_fastpath st') eflags_live in
       frag_absolute row =
         pre ++ threshold_cmp REG_ECX (threshold st)
             :: mid ++ threshold_cmp REG_ECX (neg_int (threshold st)) :: post /\
       frag_absolute row' =
         pre ++ threshold_cmp REG_ECX new
             :: mid ++ threshold_cmp REG_ECX (neg_int new) :: post /\
       frag_negative row' = frag_negative row /\
       frag_positive row' = frag_positive row /\
       frag_ret_immed row' = frag_ret_immed row) /\
  ((exists msg, esp_fastpath_update_swap_threshold new st = Fatal msg) <->
   (exists eflags_live : bool,
       threshold_cmps_found (threshold st)
         (frag_absolute (table_row (shared_esp_fastpath st) eflags_live)) <> 2)) /\
  (forall eflags_live : bool,
      threshold_cmps_found (threshold st)
        (frag_absolute (table_row (shared_esp_fastpath st) eflags_live)) <= 2).
Proof.
  split; [| split]; cycle 2.
  - intros eflags_live. apply patch_fragment_found_le. lia.
  - intros Ht Hthr Hclear.
    rewrite esp_fastpath_update_swap_threshold_eq.
    rewrite (generated_table_patchable E st Ht Hthr Hclear).
    eexists. split; [reflexivity |].
    assert (T : shared_esp_fastpath (after_patch new st) =
                generate_shared_esp_fastpath E (with_threshold new (options st))).
    { unfold after_patch. cbn [shared_esp_fastpath set_shared_esp_fastpath].
      change (threshold (add_event _ st)) with (threshold st).
      change (shared_esp_fastpath (add_event _ st)) with (shared_esp_fastpath st).
      rewrite Ht. now apply patch_generated_table. }
    split; [exact T |].
    intros eflags_live. cbv zeta. rewrite T, Ht.
    unfold generate_shared_esp_fastpath.
    destruct eflags_live;
      cbn [table_row row_eflags_dead row_eflags_live frag_absolute
           frag_negative frag_positive frag_ret_immed];
      rewrite !absolute_fragment_shape;
      rewrite (relative_fragment_threshold E new (options st) _
                 ESP_ADJUST_NEGATIVE eq_refl),
        (relative_fragment_threshold E new (options st) _
           ESP_ADJUST_POSITIVE eq_refl),
        (relative_fragment_threshold E new (options st) _
           ESP_ADJUST_RET_IMMED eq_refl);
      repeat split.
  - rewrite esp_fastpath_update_swap_threshold_eq. unfold gencode_patchable.
    destruct (Z.eqb_spec
                (threshold_cmps_found (threshold st)
                   (frag_absolute (table_row (shared_esp_fastpath st) false))) 2)
      as [E0 | N0];
      destruct (Z.eqb_spec
                  (threshold_cmps_found (threshold st)
                     (frag_absolute (table_row (shared_esp_fastpath st) true))) 2)
      as [E1 | N1]; cbn [andb]; split.
    + intros [msg H]. discriminate H.
    + intros [[] H]; contradiction.
    + intros _. now exists true.
    + intros _. eexists. reflexivity.
    + intros _. now exists false.
    + intros _. eexists. reflexivity.
    + intros _. now exists false.
    + intros _. eexists. reflexivity.
Qed.

(** In the concrete process the threshold goes from 0x9000 to 0xa000: the
    patched table is the one generated for 0xa000. *)
Lemma C8_witness :
  exists st',
    esp_fastpath_update_swap_threshold 0xa000 st0 = Ok (tt, st') /\
    shared_esp_fastpath st' =
      generate_shared_esp_fastpath E0 (with_threshold 0xa000 options0).
Proof.
  destruct (proj1 (C8_patcher_rewrites_two_operands E0 0xa000 st0))
    as (st' & E & T & _).
  - reflexivity.
  - vm_compute. split; reflexivity.
  - vm_compute. reflexivity.
  - exists st'. split; [exact E | exact T].
Defined.

(** ** The counter of false alarms (C1) *)

Lemma intra_state_frame R cur_xsp new_xsp st :
  threshold (intra_state R cur_xsp new_xsp st) = threshold st /\
  shared_esp_fastpath (intra_state R cur_xsp new_xsp st) = shared_esp_fastpath st /\
  seen is_threshold_update (intra_state R cur_xsp new_xsp st) =
    seen is_threshold_update st /\
  seen is_patch (intra_state R cur_xsp new_xsp st) = seen is_patch st.
Proof.
  unfold intra_state, triggered. repeat split;
    unfold seen; cbn; rewrite ?filter_app, ?filter_lookups_of by
      (intros []; (discriminate || reflexivity)); reflexivity.
Qed.

(** While the counter stays at or below the ceiling, each false alarm adds
    one to it and the threshold stays. *)
Lemma false_alarms_below_ceiling R l : forall st,
  Forall (is_false_alarm R) l ->
  0 <= num_non_swaps st ->
  num_non_swaps st + Z.of_nat (List.length l) <= MAX_NUMBER_NON_SWAPS + 1 ->
  exists st',
    false_alarms R l st = Ok (tt, st') /\
    num_non_swaps st' = num_non_swaps st + Z.of_nat (List.length l) /\
    threshold st' = threshold st /\
    shared_esp_fastpath st' = shared_esp_fastpath st /\
    seen is_threshold_update st' = seen is_threshold_update st /\
    seen is_patch st' = seen is_patch st.
Proof.
  induction l as [| [cur_xsp new_xsp] rest IH]; intros st Hall Hn Hlen.
  - exists st. cbn. repeat split. lia.
  - inversion Hall as [| p l' Hfa Hrest]; subst.
    cbn [List.length] in Hlen. rewrite Nat2Z.inj_succ in Hlen.
    unfold MAX_NUMBER_NON_SWAPS in *.
    cbn [false_alarms]. unfold bind.
    rewrite (check_stack_swap_intra _ _ _ _ Hfa).
    replace (num_non_swaps st >? MAX_NUMBER_NON_SWAPS) with false
      by (symmetry; rewrite Z.gtb_ltb; apply Z.ltb_ge;
          unfold MAX_NUMBER_NON_SWAPS; lia).
    destruct (intra_state_frame R cur_xsp new_xsp st) as (Ht & Hg & Hu & Hp).
    assert (Hc : num_non_swaps (intra_state R cur_xsp new_xsp st) =
                 num_non_swaps st + 1).
    { cbn. apply to_ptr_int_t_small. unfold is_int.
      rewrite half_modulus_eq. lia. }
    destruct (IH (intra_state R cur_xsp new_xsp st) Hrest) as
      (st' & E & Hc' & Ht' & Hg' & Hu' & Hp').
    + rewrite Hc. lia.
    + rewrite Hc. lia.
    + exists st'. split; [exact E |].
      rewrite Hc', Ht', Hg', Hu', Hp', Hc, Ht, Hg, Hu, Hp.
      cbn [List.length]. rewrite Nat2Z.inj_succ. repeat split. lia.
Qed.

Lemma gencode_patchable_ext st st' :
  threshold st' = threshold st ->
  shared_esp_fastpath st' = shared_esp_fastpath st ->
  gencode_patchable st' = gencode_patchable st.
Proof. unfold gencode_patchable. now intros -> ->. Qed.

(** C1 fails on the code by one call: the counter is compared before it is
    incremented ([num_non_swaps++ > MAX_NUMBER_NON_SWAPS]), so from a counter
    of 0 the 33rd consecutive false alarm still leaves the threshold, with
    the counter at 33 and neither the threshold update nor the patcher
    called; it is the 34th that raises the threshold by one page, resets the
    counter and calls each of the two once. *)
Theorem C1_thirty_third_false_alarm_keeps_threshold
        (R : resolver) (l : list (Z * Z)) (cur_xsp new_xsp : Z) (st : state) :
  Forall (is_false_alarm R) l ->
  List.length l = 33%nat ->
  is_false_alarm R (cur_xsp, new_xsp) ->
  num_non_swaps st = 0 ->
  gencode_patchable st = true ->
  exists st33 st34,
    false_alarms R l st = Ok (tt, st33) /\
    threshold st33 = threshold st /\
    num_non_swaps st33 = 33 /\
    seen is_threshold_update st33 = seen is_threshold_update st /\
    seen is_patch st33 = seen is_patch st /\
    check_stack_swap R cur_xsp new_xsp st33 = Ok (false, st34) /\
    threshold st34 = to_ptr_int_t (threshold st + PAGE_SIZE) /\
    num_non_swaps st34 = 0 /\
    seen is_threshold_update st34 = S (seen is_threshold_update st) /\
    seen is_patch st34 = S (seen is_patch st) /\
    hd_error (events st34) =
      Some (EvPatchGencode (to_ptr_int_t (threshold st + PAGE_SIZE))).
Proof.
  intros Hall Hlen Hfa Hz Hp.
  destruct (false_alarms_below_ceiling R l st Hall) as
    (st33 & E & Hc & Ht & Hg & Hu & Hpa).
  - lia.
  - rewrite Hz, Hlen. unfold MAX_NUMBER_NON_SWAPS. lia.
  - rewrite Hz, Hlen in Hc. cbn in Hc.
    exists st33, (bump_state R cur_xsp new_xsp st33).
    split; [exact E |]. split; [exact Ht |]. split; [exact Hc |].
    split; [exact Hu |]. split; [exact Hpa |].
    split.
    + rewrite (check_stack_swap_intra _ _ _ _ Hfa), Hc.
      rewrite (gencode_patchable_ext _ _ Ht Hg), Hp. reflexivity.
    + destruct (intra_state_frame R cur_xsp new_xsp st33) as (Ht' & _ & Hu' & Hp').
      unfold bump_state. rewrite Ht.
      split; [reflexivity |]. split; [reflexivity |].
      rewrite <- Hu, <- Hpa, <- Hu', <- Hp'.
      repeat split.
Qed.

(** In the concrete process: 33 times the stack pointer is set 0x10000
    bytes down on the same stack, and the threshold is still 0x9000; the
    34th time it becomes 0xa000. *)
Lemma C1_witness :
  exists st33 st34,
    false_alarms R0 (repeat (0x20000, 0x10000) 33) st0 = Ok (tt, st33) /\
    threshold st33 = 0x9000 /\
    num_non_swaps st33 = 33 /\
    seen is_threshold_update st33 = 0%nat /\
    check_stack_swap R0 0x20000 0x10000 st33 = Ok (false, st34) /\
    threshold st34 = 0xa000 /\
    num_non_swaps st34 = 0 /\
    seen is_threshold_update st34 = 1%nat /\
    seen is_patch st34 = 1%nat.
Proof.
  destruct (C1_thirty_third_false_alarm_keeps_threshold
              R0 (repeat (0x20000, 0x10000) 33) 0x20000 0x10000 st0)
    as (st33 & st34 & E & T & C & U & _ & E' & T' & C' & U' & P' & _).
  - apply Forall_forall. intros p Hin. apply repeat_spec in Hin. subst p.
    reflexivity.
  - reflexivity.
  - reflexivity.
  - reflexivity.
  - vm_compute. reflexivity.
  - exists st33, st34. repeat (split; [assumption |]). exact P'.
Defined.

(** ** Invariants of the threshold and of the counter *)

(** What a call of the classifier can leave. *)
Lemma check_stack_swap_cases R cur_xsp new_xsp st r st' :
  check_stack_swap R cur_xsp new_xsp st = Ok (r, st') ->
  (r = true /\ st' = swap_state R cur_xsp new_xsp st) \/
  (r = false /\ num_non_swaps st <= MAX_NUMBER_NON_SWAPS /\
   st' = intra_state R cur_xsp new_xsp st) \/
  (r = false /\ MAX_NUMBER_NON_SWAPS < num_non_swaps st /\
   st' = bump_state R cur_xsp new_xsp st).
Proof.
  intros E. destruct (is_stack_swap R cur_xsp new_xsp) eqn:Sw.
  - rewrite (check_stack_swap_swap _ _ _ _ Sw) in E. injection E as <- <-.
    now left.
  - rewrite (check_stack_swap_intra _ _ _ _ Sw) in E.
    destruct (Z.gtb_spec (num_non_swaps st) MAX_NUMBER_NON_SWAPS).
    + destruct (gencode_patchable st); [| discriminate].
      injection E as <- <-. right. right. repeat split. assumption.
    + injection E as <- <-. right. left. repeat split. assumption.
Qed.

(** X1, the threshold floor: a threshold that is at least MIN_SWAP_THRESHOLD,
    and that a page can be added to within [int], stays at least
    MIN_SWAP_THRESHOLD through the classifier and through the threshold
    sizing policy. *)
Theorem threshold_floor_preserved
        (R : resolver) (cur_xsp new_xsp stack_size : Z) (st : state) :
  MIN_SWAP_THRESHOLD <= threshold st ->
  threshold st + PAGE_SIZE < half_modulus ->
  (forall r st',
      check_stack_swap R cur_xsp new_xsp st = Ok (r, st') ->
      MIN_SWAP_THRESHOLD <= threshold st') /\
  (forall st',
      check_stack_size_vs_threshold stack_size st = Ok (tt, st') ->
      MIN_SWAP_THRESHOLD <= threshold st').
Proof.
  intros Hm Hp.
  assert (Em : MIN_SWAP_THRESHOLD = 2048) by reflexivity.
  assert (Ep : PAGE_SIZE = 4096) by reflexivity.
  split.
  - intros r st' E.
    destruct (check_stack_swap_cases _ _ _ _ _ _ E)
      as [(_ & ->) | [(_ & _ & ->) | (_ & _ & ->)]].
    + unfold swap_state. cbv zeta.
      destruct (region_of R cur_xsp); exact Hm.
    + exact Hm.
    + change (threshold (bump_state R cur_xsp new_xsp st))
        with (to_ptr_int_t (threshold st + PAGE_SIZE)).
      rewrite to_ptr_int_t_small; [lia |].
      unfold is_int. rewrite half_modulus_eq in *. lia.
  - intros st' E.
    rewrite check_stack_size_vs_threshold_eq in E
      by (rewrite half_modulus_eq in *; lia).
    destruct ((stack_size <? threshold st) &&
              (MIN_SWAP_THRESHOLD <? threshold st)).
    + rewrite update_stack_swap_threshold_eq in E.
      destruct (gencode_patchable st); [| discriminate].
      injection E as <-. cbn. lia.
    + injection E as <-. exact Hm.
Qed.

(** In the concrete process, at the 34th false alarm: the threshold goes
    from 0x9000 up, not below the floor. *)
Lemma threshold_floor_witness :
  forall_ok (check_stack_swap R0 0x20000 0x10000 (set_num_non_swaps 33 st0))
            (fun st' => MIN_SWAP_THRESHOLD <= threshold st').
Proof.
  unfold forall_ok.
  destruct (check_stack_swap R0 0x20000 0x10000 (set_num_non_swaps 33 st0))
    as [[r st'] | msg] eqn:E; [| exact I].
  apply (proj1 (threshold_floor_preserved R0 0x20000 0x10000 0
                  (set_num_non_swaps 33 st0)
                  ltac:(vm_compute; discriminate)
                  ltac:(vm_compute; reflexivity)) r st' E).
Defined.

(** X2, the counter and the raise: after a false alarm the counter is 0 exactly
    when that call raised the threshold. *)
Theorem counter_reset_iff_raise
        (R : resolver) (cur_xsp new_xsp : Z) (st st' : state) :
  0 <= num_non_swaps st < half_modulus - 1 ->
  check_stack_swap R cur_xsp new_xsp st = Ok (false, st') ->
  (num_non_swaps st' = 0 <->
   seen is_threshold_update st' = S (seen is_threshold_update st)).
Proof.
  intros Hn E.
  destruct (check_stack_swap_cases _ _ _ _ _ _ E)
    as [(C & _) | [(_ & Hle & ->) | (_ & Hgt & ->)]]; [discriminate | |].
  - destruct (intra_state_frame R cur_xsp new_xsp st) as (_ & _ & -> & _).
    cbn. rewrite to_ptr_int_t_small
      by (unfold is_int; rewrite half_modulus_eq in *; lia).
    split; intros H; [lia |].
    exfalso. revert H. apply n_Sn.
  - destruct (intra_state_frame R cur_xsp new_xsp st) as (_ & _ & Hu & _).
    split; intros _; [| reflexivity].
    rewrite <- Hu. reflexivity.
Qed.

(** In the concrete process: the 34th false alarm resets the counter and
    raises the threshold. *)
Lemma counter_reset_witness :
  num_non_swaps (bump_state R0 0x20000 0x10000 (set_num_non_swaps 33 st0)) = 0 <->
  seen is_threshold_update
       (bump_state R0 0x20000 0x10000 (set_num_non_swaps 33 st0)) = 1%nat.
Proof.
  apply (counter_reset_iff_raise R0 0x20000 0x10000 (set_num_non_swaps 33 st0)).
  - vm_compute. split; [discriminate | reflexivity].
  - vm_compute. reflexivity.
Defined.

(** ** The shared slow path *)

(** The decoding passes over the instructions that neither write esp nor
    transfer control. *)
Lemma shared_slowpath_skip D R skip code val st :
  forallb (passed_over D) skip = true ->
  handle_esp_adjust_shared_slowpath D R (skip ++ code) val st =
  handle_esp_adjust_shared_slowpath D R code val st.
Proof.
  induction skip as [| [inst |] skip IH]; intros H; [reflexivity | |].
  - cbn in H. apply andb_prop in H as [H1 H2].
    apply andb_prop in H1 as [Hw Hc].
    apply negb_true_iff in Hw, Hc.
    cbn [app handle_esp_adjust_shared_slowpath]. rewrite Hw, Hc.
    now apply IH.
  - discriminate H.
Qed.

(** X3, the kind the shared slow path derives: decoding forward from the
    return address, the routine passes over the instructions that neither
    write esp nor transfer control and stops at the first one that writes
    esp, whatever follows it.  If that instruction is a pop (the mangled
    return) it runs the adjustment handler with the kind of a return with
    immediate; otherwise, if needs_esp_adjust accepts the instruction, with
    the kind get_esp_adjust_type gives its opcode, and if not it stops on the
    assertion, the handler not run. *)
Theorem shared_slowpath_derives_kind
        (D : opcode_info) (R : resolver) (skip rest : list (option app_instr_t))
        (inst : app_instr_t) (val : Z) (st : state) :
  forallb (passed_over D) skip = true ->
  instr_writes_esp inst = true ->
  handle_esp_adjust_shared_slowpath D R (skip ++ Some inst :: rest) val st =
  if opc_is (app_get_opcode inst) OP_pop
  then handle_esp_adjust R ESP_ADJUST_RET_IMMED val st
  else if needs_esp_adjust D (options st) inst
       then handle_esp_adjust R (esp_adjust_type_of (app_get_opcode inst)) val st
       else Fatal "found wrong esp-using instr".
Proof.
  intros Hs Hw. rewrite shared_slowpath_skip by assumption.
  cbn [handle_esp_adjust_shared_slowpath]. rewrite Hw.
  destruct (opc_is (app_get_opcode inst) OP_pop); [reflexivity |].
  step. unfold ASSERT, bind.
  destruct (needs_esp_adjust D (options st) inst); reflexivity.
Qed.

(** Past the restore of a scratch register the routine finds [sub esp, 16]
    and handles it as the kind ESP_ADJUST_NEGATIVE. *)
Lemma shared_slowpath_derives_kind_witness :
  handle_esp_adjust_shared_slowpath D0 R0
    [Some restore_ecx; Some sub_esp_16; None] 16 st0 =
  handle_esp_adjust R0 ESP_ADJUST_NEGATIVE 16 st0.
Proof.
  apply (shared_slowpath_derives_kind D0 R0 [Some restore_ecx] [None]
           sub_esp_16 16 st0); reflexivity.
Defined.

(** X4, the shared slow path without an instruction to blame: when, after
    instructions that neither write esp nor transfer control, the decoding
    meets a control transfer that does not write esp, bytes that are no valid
    instruction, or the end of the code, the routine stops on an assertion
    and the adjustment handler is not run. *)
Theorem shared_slowpath_missed_instr
        (D : opcode_info) (R : resolver) (skip rest : list (option app_instr_t))
        (val : Z) (st : state) :
  forallb (passed_over D) skip = true ->
  (forall inst,
      instr_writes_esp inst = false -> instr_is_cti D inst = true ->
      handle_esp_adjust_shared_slowpath D R (skip ++ Some inst :: rest) val st =
      Fatal "somehow missed app esp-adjust instr") /\
  handle_esp_adjust_shared_slowpath D R (skip ++ None :: rest) val st =
    Fatal "unknown suspect instr" /\
  handle_esp_adjust_shared_slowpath D R skip val st =
    Fatal "unknown suspect instr".
Proof.
  intros Hs. repeat split.
  - intros inst Hw Hc. rewrite shared_slowpath_skip by assumption.
    cbn. now rewrite Hw, Hc.
  - now rewrite shared_slowpath_skip by assumption.
  - rewrite <- (app_nil_r skip) at 1.
    now rewrite shared_slowpath_skip by assumption.
Qed.

(** A jump ahead of the [sub esp, 16] stops the routine. *)
Lemma shared_slowpath_missed_instr_witness :
  handle_esp_adjust_shared_slowpath D0 R0
    [Some restore_ecx;
     Some (decoded (INSTR_CREATE_jmp (opnd_create_pc 0x8048000)));
     Some sub_esp_16] 16 st0 =
  Fatal "somehow missed app esp-adjust instr".
Proof.
  apply (proj1 (shared_slowpath_missed_instr D0 R0 [Some restore_ecx]
                  [Some sub_esp_16] 16 st0 eq_refl)); reflexivity.
Defined.

(** ** The instrumentation pass *)

(** X5, the two switches on the opcode agree: the fast-path instrumentation
    keeps an instruction exactly when get_esp_adjust_type gives its opcode
    one of the fast kinds, those that index the table of fragments (so the
    assertion on the index holds), and hands every other one to the
    slow-path instrumentation; the value is marked absolute exactly for the
    kind ESP_ADJUST_ABSOLUTE and negated exactly for the kind
    ESP_ADJUST_NEGATIVE. *)
Theorem fastpath_operand_matches_kind (inst : app_instr_t) :
  let type := esp_adjust_type_of (app_get_opcode inst) in
  match instrument_esp_adjust_fastpath_operand inst with
  | Some f =>
      is_fast_kind type = true /\
      absolute f = is_absolute type /\
      negate f = is_negative type
  | None => is_fast_kind type = false
  end.
Proof.
  destruct inst as [[[] | | | | |] dsts srcs]; cbn; repeat split.
Qed.

Lemma opc_is_ret (opc : app_opcode_t) :
  esp_adjust_type_of opc = ESP_ADJUST_RET_IMMED -> opc = OP_of OP_ret.
Proof. destruct opc as [[] | | | | |]; cbn; congruence. Qed.

(** X6, no return in lightweight mode: an instruction needs_esp_adjust
    accepts in lightweight (leaks-only) mode is never of the kind
    ESP_ADJUST_RET_IMMED, the case the inlined loop asserts away, and is
    neither an inc nor a leave. *)
Theorem lightweight_never_instruments_ret
        (D : opcode_info) (o : options_t) (inst : app_instr_t) :
  SHADOW_STACK_POINTER o = false ->
  needs_esp_adjust D o inst = true ->
  esp_adjust_type_of (app_get_opcode inst) <> ESP_ADJUST_RET_IMMED /\
  opc_is (app_get_opcode inst) OP_inc = false /\
  opc_is (app_get_opcode inst) OP_leave = false.
Proof.
  intros Hs Hn. unfold needs_esp_adjust in Hn. rewrite Hs in Hn.
  cbn [negb andb] in Hn.
  destruct ((opc_is_push D (app_get_opcode inst) || opc_is_pop D (app_get_opcode inst)) &&
            (negb (opc_is (app_get_opcode inst) OP_ret) ||
             negb (opnd_is_immed_int (app_get_src inst 0))) &&
            negb (opc_is (app_get_opcode inst) OP_enter) &&
            negb (opc_is (app_get_opcode inst) OP_leave)); [discriminate |].
  destruct (opc_is (app_get_opcode inst) OP_inc) eqn:Ei; [discriminate |].
  destruct (opc_is (app_get_opcode inst) OP_ret) eqn:Er; [discriminate |].
  destruct (opc_is (app_get_opcode inst) OP_leave) eqn:El; [discriminate |].
  repeat split. intros H. apply opc_is_ret in H. rewrite H in Er. discriminate Er.
Qed.

(** [sub esp, 16] is accepted in lightweight mode, and is no return. *)
Lemma lightweight_never_instruments_ret_witness :
  esp_adjust_type_of (app_get_opcode sub_esp_16) <> ESP_ADJUST_RET_IMMED.
Proof.
  apply (lightweight_never_instruments_ret D0 (options st0_leaks_only) sub_esp_16);
    reflexivity.
Defined.

(** In lightweight mode an adjustment whose delta is not negative changes
    nothing. *)
Lemma adjusted_lightweight_shrink esp delta st :
  SHADOW_STACK_POINTER (options st) = false ->
  0 <= delta ->
  adjusted esp delta st = st.
Proof.
  intros Hs Hd. unfold adjusted. rewrite Hs. cbn [negb].
  destruct (Z.eqb_spec delta 0); [reflexivity |]. cbn [negb].
  destruct (Z.ltb_spec delta 0); [lia | reflexivity].
Qed.

(** X7, what lightweight mode skips: for an inc, or an add or a sub with an
    immediate (above the least int), that is no push or pop and that
    needs_esp_adjust rejects in lightweight mode, the adjustment handler, had
    it been called with the kind of the opcode and the operand the
    instrumentation picks, would have changed neither application memory nor
    shadow state and made no call of memset or shadow_set_range. *)
Theorem lightweight_skips_lose_nothing
        (D : opcode_info) (R : resolver) (inst : app_instr_t)
        (f : fastpath_operand) (imm : Z) (sz : opnd_size_t) (st : state) :
  let opc := app_get_opcode inst in
  SHADOW_STACK_POINTER (options st) = false ->
  opc_is opc OP_inc || opc_is opc OP_add || opc_is opc OP_sub = true ->
  opc_is_push D opc || opc_is_pop D opc = false ->
  needs_esp_adjust D (options st) inst = false ->
  instrument_esp_adjust_fastpath_operand inst = Some f ->
  arg f = opnd_create_immed_int imm sz ->
  - half_modulus < imm < half_modulus ->
  exists st',
    handle_esp_adjust R (esp_adjust_type_of opc) (to_reg_t imm) st = Ok (tt, st') /\
    app_memory st' = app_memory st /\
    shadow st' = shadow st /\
    mutations st' = mutations st.
Proof.
  intros opc Hs Hop Hpp Hn Hf Ha Hi. subst opc.
  assert (Hv : to_ptr_int_t (to_reg_t imm) = imm).
  { unfold to_ptr_int_t, to_reg_t. rewrite Z.mod_mod by (rewrite modulus_eq; lia).
    apply to_ptr_int_t_small. unfold is_int. lia. }
  assert (Hd : 0 <= adjust_delta (esp_adjust_type_of (app_get_opcode inst))
                                 (to_reg_t imm) (mc_xsp st) /\
               swap_candidate (esp_adjust_type_of (app_get_opcode inst))
                              (to_reg_t imm) (mc_xsp st) = None).
  { unfold needs_esp_adjust in Hn. rewrite Hpp, Hs in Hn. cbn [negb andb] in Hn.
    unfold instrument_esp_adjust_fastpath_operand in Hf.
    destruct inst as [[[] | | | | |] dsts srcs]; try discriminate Hop;
      cbn in Hn, Hf; injection Hf as <-; cbn in Ha;
      cbn [esp_adjust_type_of get_esp_adjust_type adjust_delta swap_candidate
           app_get_opcode]; rewrite Hv.
    - injection Ha as <- <-. split; [lia | reflexivity].
    - rewrite Ha in Hn. cbn in Hn.
      destruct (Z.geb_spec imm 0); [split; [lia | reflexivity] | discriminate Hn].
    - rewrite Ha in Hn. cbn in Hn.
      destruct (Z.leb_spec imm 0); [| discriminate Hn].
      rewrite neg_int_small by lia. split; [lia | reflexivity]. }
  destruct Hd as [Hd Hc].
  rewrite handle_esp_adjust_local by (right; exact Hc).
  eexists. split; [reflexivity |].
  destruct (classified_frame R (esp_adjust_type_of (app_get_opcode inst))
              (to_reg_t imm) st) as (Hsh & Hm & _ & Hsp & _).
  rewrite adjusted_lightweight_shrink by (rewrite ?Hsp; assumption).
  rewrite classified_mutations. repeat split; assumption.
Qed.

(** [add esp, 16] is skipped in lightweight mode; handled, it changes
    nothing. *)
Lemma lightweight_skips_lose_nothing_witness :
  exists st',
    handle_esp_adjust R0 ESP_ADJUST_POSITIVE 16 st0_leaks_only = Ok (tt, st') /\
    app_memory st' = app_memory st0_leaks_only /\
    shadow st' = shadow st0_leaks_only /\
    mutations st' = mutations st0_leaks_only.
Proof.
  apply (lightweight_skips_lose_nothing D0 R0
           (decoded (INSTR_CREATE_add (opnd_create_reg REG_ESP) (OPND_CREATE_INT8 16)))
           (mk_fastpath_operand (OPND_CREATE_INT8 16) false false) 16 OPSZ_1
           st0_leaks_only); try reflexivity.
  vm_compute. split; reflexivity.
Defined.




(** ** How adjustments compose *)

Lemma land_le (a b : Z) : 0 <= a -> Z.land a b <= a.
Proof.
  intros Ha.
  assert (D : Z.land (Z.ldiff a b) (Z.land a b) = 0).
  { apply Z.bits_inj'. intros n Hn.
    rewrite Z.land_spec, Z.ldiff_spec, Z.land_spec, Z.bits_0.
    destruct (Z.testbit a n), (Z.testbit b n); reflexivity. }
  pose proof (Z.add_lor_land (Z.ldiff a b) (Z.land a b)) as H.
  rewrite D, Z.lor_ldiff_and in H.
  assert (0 <= Z.ldiff a b) by (apply Z.ldiff_nonneg; now left).
  lia.
Qed.

Lemma to_ptr_int_t_to_reg_t (z : Z) : to_ptr_int_t (to_reg_t z) = to_ptr_int_t z.
Proof.
  unfold to_ptr_int_t, to_reg_t. now rewrite Z.mod_mod by (rewrite modulus_eq; lia).
Qed.

Lemma to_ptr_int_t_shift (a b : Z) :
  to_ptr_int_t (to_reg_t a - b) = to_ptr_int_t (a - b).
Proof.
  unfold to_ptr_int_t, to_reg_t. now rewrite Zdiv.Zminus_mod_idemp_l.
Qed.

(** X9, one adjustment, three ways of writing it: for a delta [d] whose
    magnitude does not exceed the threshold, the handler called for an add of
    [d], for a sub of [-d] and for an absolute move to [esp + d] returns the
    same result, state and events included: the update by [d] from the
    current stack pointer, with no classifier call and no warning. *)
Theorem kinds_agree_within_threshold (R : resolver) (d : Z) (st : state) :
  threshold st < half_modulus ->
  Z.abs d <= threshold st ->
  let r := handle_esp_adjust R ESP_ADJUST_POSITIVE (to_reg_t d) st in
  r = Ok (tt, adjusted (mc_xsp st) d (entered st)) /\
  handle_esp_adjust R ESP_ADJUST_NEGATIVE (to_reg_t (- d)) st = r /\
  handle_esp_adjust R ESP_ADJUST_ABSOLUTE (to_reg_t (mc_xsp st + d)) st = r.
Proof.
  intros Ht Hd r. subst r.
  assert (Hi : is_int d) by (unfold is_int; lia).
  assert (Hx : exceeds_threshold d (threshold st) = false).
  { rewrite exceeds_threshold_abs by lia. rewrite Z.gtb_ltb. apply Z.ltb_ge. lia. }
  assert (Dp : adjust_delta ESP_ADJUST_POSITIVE (to_reg_t d) (mc_xsp st) = d).
  { cbn. rewrite to_ptr_int_t_to_reg_t. now apply to_ptr_int_t_small. }
  assert (Dn : adjust_delta ESP_ADJUST_NEGATIVE (to_reg_t (- d)) (mc_xsp st) = d).
  { cbn. rewrite to_ptr_int_t_to_reg_t.
    rewrite to_ptr_int_t_small by (unfold is_int in *; lia).
    rewrite neg_int_small by lia. lia. }
  assert (Da : adjust_delta ESP_ADJUST_ABSOLUTE (to_reg_t (mc_xsp st + d)) (mc_xsp st) = d).
  { cbn. rewrite to_ptr_int_t_shift.
    replace (mc_xsp st + d - mc_xsp st) with d by lia.
    now apply to_ptr_int_t_small. }
  rewrite !handle_esp_adjust_local by (left; rewrite ?Dp, ?Dn, ?Da; exact Hx).
  unfold classified. rewrite Dp, Dn, Da, Hx. cbn [swap_candidate adjust_base].
  repeat split.
Qed.

(** In the concrete process, a claim of 64 bytes. *)
Lemma kinds_agree_within_threshold_witness :
  handle_esp_adjust R0 ESP_ADJUST_NEGATIVE 64 st0 =
  handle_esp_adjust R0 ESP_ADJUST_POSITIVE (to_reg_t (-64)) st0 /\
  handle_esp_adjust R0 ESP_ADJUST_ABSOLUTE (0x20000 - 64) st0 =
  handle_esp_adjust R0 ESP_ADJUST_POSITIVE (to_reg_t (-64)) st0.
Proof.
  destruct (kinds_agree_within_threshold R0 (-64) st0) as (_ & N & A).
  - vm_compute. reflexivity.
  - vm_compute. discriminate.
  - split; [exact N | exact A].
Defined.

(** What a relative adjustment leaves: the mode stays, and the monitored
    state has taken the local update. *)
Lemma handle_relative R type val st :
  swap_candidate type val (mc_xsp st) = None ->
  let pre := adjust_base type (mc_xsp st) in
  let delta := adjust_delta type val (mc_xsp st) in
  exists st',
    handle_esp_adjust R type val st = Ok (tt, st') /\
    SHADOW_STACK_POINTER (options st') = SHADOW_STACK_POINTER (options st) /\
    (is_reg_t (pre + delta) -> local_update pre (pre + delta) st st').
Proof.
  intros Hc pre delta. subst pre delta.
  rewrite handle_esp_adjust_local by (right; exact Hc).
  eexists. split; [reflexivity |]. split.
  - destruct (adjusted_control (adjust_base type (mc_xsp st))
                (adjust_delta type val (mc_xsp st)) (classified R type val st))
      as (-> & _).
    apply classified_frame.
  - apply adjusted_classified_local.
Qed.

(** X10, claim and release compose: in full-tracking mode, for [n] bytes
    that fit the address space, a sub by [n] followed (the stack pointer
    moved down) by an add by [n] leaves the [n] bytes below the original
    stack pointer unaddressable and every other byte as it was; an add by
    [n] followed (the stack pointer moved up) by a sub by [n] leaves the [n]
    bytes from the original stack pointer on undefined, whatever they held,
    and every other byte as it was. *)
Theorem claim_and_release_compose (R : resolver) (n : Z) (st : state) :
  SHADOW_STACK_POINTER (options st) = true ->
  0 < n < half_modulus ->
  (n <= mc_xsp st < modulus ->
   exists st1 st2,
     handle_esp_adjust R ESP_ADJUST_NEGATIVE n st = Ok (tt, st1) /\
     handle_esp_adjust R ESP_ADJUST_POSITIVE n
       (set_mc_xsp (mc_xsp st - n) st1) = Ok (tt, st2) /\
     forall a, shadow st2 a =
               if (mc_xsp st - n <=? a) && (a <? mc_xsp st)
               then SHADOW_UNADDRESSABLE else shadow st a) /\
  (0 <= mc_xsp st /\ mc_xsp st + n < modulus ->
   exists st1 st2,
     handle_esp_adjust R ESP_ADJUST_POSITIVE n st = Ok (tt, st1) /\
     handle_esp_adjust R ESP_ADJUST_NEGATIVE n
       (set_mc_xsp (mc_xsp st + n) st1) = Ok (tt, st2) /\
     forall a, shadow st2 a =
               if (mc_xsp st <=? a) && (a <? mc_xsp st + n)
               then SHADOW_UNDEFINED else shadow st a).
Proof.
  intros Hs Hn.
  assert (Hm : modulus = 4294967296) by reflexivity.
  assert (Hh : half_modulus = 2147483648) by reflexivity.
  assert (Dp : forall esp, adjust_delta ESP_ADJUST_POSITIVE n esp = n).
  { intros esp. cbn. apply to_ptr_int_t_small. unfold is_int. lia. }
  assert (Dn : forall esp, adjust_delta ESP_ADJUST_NEGATIVE n esp = - n).
  { intros esp. cbn. rewrite to_ptr_int_t_small by (unfold is_int; lia).
    apply neg_int_small. lia. }
  split; intros He.
  - destruct (handle_relative R ESP_ADJUST_NEGATIVE n st eq_refl)
      as (st1 & E1 & S1 & L1).
    destruct (handle_relative R ESP_ADJUST_POSITIVE n
                (set_mc_xsp (mc_xsp st - n) st1) eq_refl)
      as (st2 & E2 & S2 & L2).
    exists st1, st2. split; [exact E1 |]. split; [exact E2 |].
    cbn [adjust_base mc_xsp set_mc_xsp] in L1, L2. rewrite Dn in L1. rewrite Dp in L2.
    assert (R1 : is_reg_t (mc_xsp st + - n)) by (unfold is_reg_t; lia).
    assert (R2 : is_reg_t (mc_xsp st - n + n)) by (unfold is_reg_t; lia).
    specialize (L1 R1). specialize (L2 R2).
    unfold local_update in L1, L2.
    cbn [options set_mc_xsp] in L2. rewrite S1, Hs in L2. rewrite Hs in L1.
    destruct L1 as [_ L1], L2 as [_ L2]. intros a.
    rewrite L2. cbn [shadow set_mc_xsp]. rewrite L1.
    replace (mc_xsp st - n + n) with (mc_xsp st) by lia.
    replace (mc_xsp st + - n) with (mc_xsp st - n) by lia.
    destruct (Z.leb_spec (mc_xsp st - n) a), (Z.ltb_spec a (mc_xsp st)),
      (Z.leb_spec (mc_xsp st) a), (Z.ltb_spec a (mc_xsp st - n));
      cbn; try reflexivity; lia.
  - destruct (handle_relative R ESP_ADJUST_POSITIVE n st eq_refl)
      as (st1 & E1 & S1 & L1).
    destruct (handle_relative R ESP_ADJUST_NEGATIVE n
                (set_mc_xsp (mc_xsp st + n) st1) eq_refl)
      as (st2 & E2 & S2 & L2).
    exists st1, st2. split; [exact E1 |]. split; [exact E2 |].
    cbn [adjust_base mc_xsp set_mc_xsp] in L1, L2. rewrite Dp in L1. rewrite Dn in L2.
    assert (R1 : is_reg_t (mc_xsp st + n)) by (unfold is_reg_t; lia).
    assert (R2 : is_reg_t (mc_xsp st + n + - n)) by (unfold is_reg_t; lia).
    specialize (L1 R1). specialize (L2 R2).
    unfold local_update in L1, L2.
    cbn [options set_mc_xsp] in L2. rewrite S1, Hs in L2. rewrite Hs in L1.
    destruct L1 as [_ L1], L2 as [_ L2]. intros a.
    rewrite L2. cbn [shadow set_mc_xsp]. rewrite L1.
    replace (mc_xsp st + n + - n) with (mc_xsp st) by lia.
    destruct (Z.leb_spec (mc_xsp st + n) a), (Z.ltb_spec a (mc_xsp st)),
      (Z.leb_spec (mc_xsp st) a), (Z.ltb_spec a (mc_xsp st + n));
      cbn; try reflexivity; lia.
Qed.

(** In the concrete process: 64 defined bytes are released and claimed
    again, and are undefined. *)
Lemma claim_and_release_compose_witness :
  exists st1 st2,
    handle_esp_adjust R0 ESP_ADJUST_POSITIVE 64 st0 = Ok (tt, st1) /\
    handle_esp_adjust R0 ESP_ADJUST_NEGATIVE 64
      (set_mc_xsp 0x20040 st1) = Ok (tt, st2) /\
    shadow st0 0x20000 = SHADOW_DEFINED /\
    shadow st2 0x20000 = SHADOW_UNDEFINED /\
    shadow st2 0x20040 = SHADOW_DEFINED.
Proof.
  destruct (proj2 (claim_and_release_compose R0 64 st0 eq_refl
                     ltac:(vm_compute; split; reflexivity)))
    as (st1 & st2 & E1 & E2 & S).
  - vm_compute. split; [discriminate | reflexivity].
  - exists st1, st2. split; [exact E1 |]. split; [exact E2 |].
    split; [reflexivity |]. rewrite !S. split; reflexivity.
Defined.

(** ** What the handlers leave alone *)

Lemma to_ptr_int_t_sub (a b : Z) :
  to_ptr_int_t (to_ptr_int_t a - b) = to_ptr_int_t (a - b).
Proof.
  assert (Hm : modulus = 4294967296) by reflexivity.
  assert (H : (to_ptr_int_t a - b) mod modulus = (a - b) mod modulus).
  { unfold to_ptr_int_t. destruct (_ <? half_modulus).
    - apply Zdiv.Zminus_mod_idemp_l.
    - replace (a mod modulus - modulus - b)
        with (a mod modulus - b + (-1) * modulus) by lia.
      rewrite Z.mod_add by lia. apply Zdiv.Zminus_mod_idemp_l. }
  unfold to_ptr_int_t at 1 3. now rewrite H.
Qed.

(** The two states the handler can leave when it does not stop. *)
Lemma handle_esp_adjust_cases R type val st st' :
  handle_esp_adjust R type val st = Ok (tt, st') ->
  (confirmed_swap R type val st = true /\
   exists new_xsp,
     swap_candidate type val (mc_xsp st) = Some new_xsp /\
     st' = swap_state R (mc_xsp st) new_xsp (entered st)) \/
  (confirmed_swap R type val st = false /\
   st' = adjusted (adjust_base type (mc_xsp st))
                  (adjust_delta type val (mc_xsp st))
                  (classified R type val st)).
Proof.
  intros E. destruct (confirmed_swap R type val st) eqn:Hc.
  - destruct (handle_esp_adjust_swap R type val st Hc) as (new_xsp & Hs & E').
    rewrite E' in E. injection E as <-. left. split; [reflexivity |].
    now exists new_xsp.
  - right. split; [reflexivity |]. destruct (gencode_patchable st) eqn:Hp.
    + rewrite (handle_esp_adjust_ordinary R type val st Hc Hp) in E.
      now injection E as <-.
    + revert E Hc. unfold confirmed_swap, classified.
      rewrite handle_esp_adjust_eq. cbv zeta.
      destruct (swap_candidate type val (mc_xsp st)) as [new_xsp |] eqn:Ec.
      * assert (Hb : adjust_base type (mc_xsp st) = mc_xsp st)
          by (destruct type; try discriminate; reflexivity).
        rewrite Hb.
        destruct (exceeds_threshold _ (threshold st)).
        -- cbn [andb]. intros E H. revert E.
           unfold bind. rewrite (check_stack_swap_intra _ _ _ _ H).
           change (gencode_patchable (entered st)) with (gencode_patchable st).
           rewrite Hp. change (num_non_swaps (entered st)) with (num_non_swaps st).
           destruct (num_non_swaps st >? MAX_NUMBER_NON_SWAPS); [discriminate |].
           rewrite apply_adjustment_eq. now intros [= <-].
        -- rewrite apply_adjustment_eq. now intros [= <-].
      * rewrite apply_adjustment_eq. now intros [= <-].
Qed.

Lemma swap_state_control R cur_xsp new_xsp st :
  mc_xsp (swap_state R cur_xsp new_xsp st) = mc_xsp st /\
  options (swap_state R cur_xsp new_xsp st) = options st.
Proof.
  unfold swap_state. cbv zeta. destruct (region_of R cur_xsp); split; reflexivity.
Qed.

(** X11, what each mode never touches: whenever the adjustment handler
    returns, for every kind and value, the application's stack pointer and
    the mode are as before; in full-tracking mode application memory is
    unchanged; in lightweight mode shadow state is unchanged and every byte
    of application memory is as before or zero. *)
Theorem handler_mode_frame
        (R : resolver) (type : esp_adjust_t) (val : Z) (st st' : state) :
  handle_esp_adjust R type val st = Ok (tt, st') ->
  mc_xsp st' = mc_xsp st /\
  SHADOW_STACK_POINTER (options st') = SHADOW_STACK_POINTER (options st) /\
  if SHADOW_STACK_POINTER (options st)
  then app_memory st' = app_memory st
  else shadow st' = shadow st /\
       forall a, app_memory st' a = app_memory st a \/ app_memory st' a = 0.
Proof.
  intros E.
  destruct (handle_esp_adjust_cases R type val st st' E)
    as [(_ & new_xsp & _ & ->) | (_ & ->)].
  - destruct (swap_state_frame R (mc_xsp st) new_xsp (entered st))
      as (Hs & Hm & _).
    destruct (swap_state_control R (mc_xsp st) new_xsp (entered st)) as (Hx & Ho).
    rewrite Hx, Ho, Hs, Hm. cbn [entered set_stats mc_xsp options shadow app_memory].
    repeat split.
    destruct (SHADOW_STACK_POINTER (options st)); [reflexivity |].
    split; [reflexivity | now left].
  - destruct (classified_frame R type val st) as (Hs & Hm & Hx & Ho & _).
    destruct (adjusted_control (adjust_base type (mc_xsp st))
                (adjust_delta type val (mc_xsp st)) (classified R type val st))
      as (Ho' & _ & _ & Hx' & _).
    rewrite Hx', Ho', Hx, Ho. repeat split.
    unfold adjusted. rewrite Ho.
    destruct (SHADOW_STACK_POINTER (options st));
      destruct (negb (_ =? 0)); cbn [negb];
      try destruct (_ <? 0); try destruct (_ >? 0);
      cbn [app_memory shadow set_shadow set_app_memory add_event];
      rewrite ?Hs, ?Hm; try reflexivity; try (split; [reflexivity | now left]).
    split; [reflexivity |]. intros a. unfold memset.
    destruct (_ && _); [now right | now left].
Qed.

(** In the concrete process, in full-tracking mode. *)
Lemma handler_mode_frame_witness :
  forall_ok (handle_esp_adjust R0 ESP_ADJUST_ABSOLUTE 0x10000 st0)
            (fun st' => app_memory st' = app_memory st0).
Proof.
  unfold forall_ok.
  destruct (handle_esp_adjust R0 ESP_ADJUST_ABSOLUTE 0x10000 st0)
    as [[[] st'] | msg] eqn:E; [| exact I].
  exact (proj2 (proj2 (handler_mode_frame R0 ESP_ADJUST_ABSOLUTE 0x10000 st0 st' E))).
Defined.

(** X12, an and with a mask only claims: for a 32-bit stack pointer, when
    the mask clears no more than 2^31 from it, the delta of the kind
    ESP_ADJUST_AND is [esp & val - esp], never positive, and whenever the
    handler returns every shadow byte is as before or is a byte of
    [esp & val, esp) marked undefined: nothing is marked unaddressable. *)
Theorem and_only_claims (R : resolver) (val : Z) (st st' : state) :
  is_reg_t (mc_xsp st) ->
  mc_xsp st - Z.land (mc_xsp st) val <= half_modulus ->
  handle_esp_adjust R ESP_ADJUST_AND val st = Ok (tt, st') ->
  adjust_delta ESP_ADJUST_AND val (mc_xsp st) =
    Z.land (mc_xsp st) val - mc_xsp st /\
  Z.land (mc_xsp st) val <= mc_xsp st /\
  forall a,
    shadow st' a = shadow st a \/
    (Z.land (mc_xsp st) val <= a < mc_xsp st /\ shadow st' a = SHADOW_UNDEFINED).
Proof.
  intros He Hl E.
  assert (Hm : modulus = 4294967296) by reflexivity.
  assert (Hh : half_modulus = 2147483648) by reflexivity.
  unfold is_reg_t in He.
  pose proof (land_le (mc_xsp st) val (proj1 He)) as Hle.
  assert (H0 : 0 <= Z.land (mc_xsp st) val) by (apply Z.land_nonneg; now left).
  assert (Hd : adjust_delta ESP_ADJUST_AND val (mc_xsp st) =
               Z.land (mc_xsp st) val - mc_xsp st).
  { cbn [adjust_delta]. rewrite to_ptr_int_t_sub.
    apply to_ptr_int_t_small. unfold is_int. lia. }
  split; [exact Hd |]. split; [exact Hle |].
  destruct (handle_esp_adjust_cases R ESP_ADJUST_AND val st st' E)
    as [(_ & new_xsp & _ & ->) | (_ & ->)]; intros a.
  - left. destruct (swap_state_frame R (mc_xsp st) new_xsp (entered st)) as (-> & _).
    reflexivity.
  - destruct (classified_frame R ESP_ADJUST_AND val st) as (Hs & _ & _ & Ho & _).
    unfold adjusted. rewrite Hd, Ho. cbn [adjust_base].
    destruct (negb (_ =? 0)); [| left; now rewrite Hs].
    destruct (negb (SHADOW_STACK_POINTER (options st)));
      [destruct (_ <? 0); left;
       cbn [shadow set_app_memory add_event]; now rewrite Hs |].
    destruct (Z.gtb_spec (Z.land (mc_xsp st) val - mc_xsp st) 0); [lia |].
    cbn [shadow set_shadow add_event]. rewrite Hs. unfold shadow_set_range.
    replace (mc_xsp st + (Z.land (mc_xsp st) val - mc_xsp st))
      with (Z.land (mc_xsp st) val) by lia.
    rewrite to_reg_t_small by (unfold is_reg_t; lia).
    destruct (Z.leb_spec (Z.land (mc_xsp st) val) a), (Z.ltb_spec a (mc_xsp st));
      cbn; [right; split; [lia | reflexivity] | now left ..].
Qed.

(** In the concrete process, the stack pointer at 0x20008 is aligned to 16
    bytes. *)
Lemma and_only_claims_witness :
  forall_ok (handle_esp_adjust R0 ESP_ADJUST_AND 0xfffffff0 (set_mc_xsp 0x20008 st0))
            (fun st' => shadow st' 0x20004 = SHADOW_UNDEFINED \/
                        shadow st' 0x20004 = SHADOW_DEFINED).
Proof.
  unfold forall_ok.
  destruct (handle_esp_adjust R0 ESP_ADJUST_AND 0xfffffff0 (set_mc_xsp 0x20008 st0))
    as [[[] st'] | msg] eqn:E; [| exact I].
  destruct (and_only_claims R0 0xfffffff0 (set_mc_xsp 0x20008 st0) st') as (_ & _ & H).
  - vm_compute. split; [discriminate | reflexivity].
  - vm_compute. discriminate.
  - exact E.
  - destruct (H 0x20004) as [-> | [_ ->]]; [now right | now left].
Defined.

Lemma bind_Ok_inv {A B} (m : M A) (k : A -> M B) st b st' :
  bind m k st = Ok (b, st') ->
  exists a st1, m st = Ok (a, st1) /\ k a st1 = Ok (b, st').
Proof.
  unfold bind. destruct (m st) as [[a st1] | msg]; [| discriminate].
  intros H. now exists a, st1.
Qed.

(** What the sizing policy can leave. *)
Lemma check_stack_size_vs_threshold_cases stack_size st st' :
  check_stack_size_vs_threshold stack_size st = Ok (tt, st') ->
  st' = st \/
  (MIN_SWAP_THRESHOLD < to_reg_t (threshold st) /\
   st' = after_update MIN_SWAP_THRESHOLD st).
Proof.
  unfold check_stack_size_vs_threshold. step.
  destruct (stack_size <? to_reg_t (threshold st)); cbv zeta.
  - change (MIN_SWAP_THRESHOLD <? MIN_SWAP_THRESHOLD) with false. cbv iota.
    destruct (Z.ltb_spec MIN_SWAP_THRESHOLD (to_reg_t (threshold st))).
    + rewrite update_stack_swap_threshold_eq.
      destruct (gencode_patchable st); [| discriminate].
      intros [= <-]. now right.
    + intros [= <-]. now left.
  - intros [= <-]. now left.
Qed.

Lemma classified_threshold R type val st :
  threshold (classified R type val st) = threshold st \/
  threshold (classified R type val st) = to_ptr_int_t (threshold st + PAGE_SIZE).
Proof.
  unfold classified. cbv zeta.
  destruct (swap_candidate type val (mc_xsp st)) as [new_xsp |].
  - destruct (exceeds_threshold _ _); [| now left].
    destruct (_ >? MAX_NUMBER_NON_SWAPS).
    + right. reflexivity.
    + left. exact (proj1 (intra_state_frame R (mc_xsp st) new_xsp (entered st))).
  - destruct (exceeds_threshold _ _); now left.
Qed.

(** What the errant-stack handler can leave. *)
Lemma handle_push_addressable_cases R addr start_addr sz st r st' :
  handle_push_addressable R addr start_addr sz st = Ok (r, st') ->
  push_addressable (stats st') = inc (push_addressable (stats st)) /\
  app_memory st' = app_memory st /\
  mc_xsp st' = mc_xsp st /\
  ((r = false /\
    (check_push (options st) = false \/ region_of R addr = None) /\
    shadow st' = shadow st /\ threshold st' = threshold st /\
    mutations st' = mutations st) \/
   (r = true /\ check_push (options st) = true /\
    exists base size,
      region_of R addr = Some (base, size) /\
      shadow st' =
        shadow_set_range
          (if to_reg_t (addr - PAGE_SIZE) <? base then base
           else to_reg_t (addr - PAGE_SIZE))
          start_addr SHADOW_UNADDRESSABLE (shadow st) /\
      (threshold st' = threshold st \/
       MIN_SWAP_THRESHOLD < to_reg_t (threshold st) /\
       threshold st' = MIN_SWAP_THRESHOLD))).
Proof.
  unfold handle_push_addressable. step. cbn [options set_stats].
  destruct (check_push (options st)) eqn:Hc.
  - step. rewrite (bind_Ok _ _ _ _ _ (get_stack_region_bounds_eq _ _ _)).
    destruct (region_of R addr) as [[base size] |] eqn:Hr.
    + step. unfold do_shadow_set_range. rewrite bind_assoc. step.
      intros E. apply bind_Ok_inv in E as ([] & st1 & E1 & E2).
      injection E2 as <- <-.
      apply check_stack_size_vs_threshold_cases in E1 as [-> | [Hlt ->]].
      * (split; [| split; [| split]]);
          try (destruct (is_in_heap_region R addr); reflexivity).
        right. split; [reflexivity |]. split; [reflexivity |].
        exists base, size. split; [reflexivity |]. split; [reflexivity |]. now left.
      * (split; [| split; [| split]]);
          try (destruct (is_in_heap_region R addr); reflexivity).
        right. split; [reflexivity |]. split; [reflexivity |].
        exists base, size. split; [reflexivity |]. split; [reflexivity |].
        right. split; [exact Hlt | reflexivity].
    + step. cbn [options add_event add_events set_stats].
      destruct (pause_at_unaddressable (options st)); step; intros [= <- <-].
      all: (split; [| split; [| split]]); try reflexivity.
      all: left; split; [reflexivity |]; split; [now right |];
        split; [reflexivity |]; split; [reflexivity |].
      all: unfold mutations; cbn;
        rewrite ?filter_app, ?filter_lookups_of by
          (intros []; (discriminate || reflexivity));
        destruct (is_in_heap_region R addr); reflexivity.
  - intros [= <- <-]. (split; [| split; [| split]]); try reflexivity.
    left. split; [reflexivity |]. split; [now left |]. repeat split.
Qed.

(** X13, which way each handler moves the threshold: for a non-negative
    threshold that a page can be added to within int, the adjustment handler
    never lowers it and raises it by at most one page, and the errant-stack
    handler never raises it. *)
Theorem threshold_moves_one_way
        (R : resolver) (type : esp_adjust_t) (val addr start_addr sz : Z)
        (st : state) :
  0 <= threshold st ->
  threshold st + PAGE_SIZE < half_modulus ->
  (forall st',
      handle_esp_adjust R type val st = Ok (tt, st') ->
      threshold st <= threshold st' <= threshold st + PAGE_SIZE) /\
  (forall r st',
      handle_push_addressable R addr start_addr sz st = Ok (r, st') ->
      threshold st' <= threshold st).
Proof.
  intros H0 Hp.
  assert (Ep : PAGE_SIZE = 4096) by reflexivity.
  assert (Hh : half_modulus = 2147483648) by reflexivity.
  assert (Hm : modulus = 4294967296) by reflexivity.
  split.
  - intros st' E.
    destruct (handle_esp_adjust_cases R type val st st' E)
      as [(_ & new_xsp & _ & ->) | (_ & ->)].
    + unfold threshold.
      rewrite (proj2 (swap_state_control R (mc_xsp st) new_xsp (entered st))).
      cbn [entered set_stats options]. fold (threshold st). lia.
    + unfold threshold at 2 3.
      rewrite (proj1 (adjusted_control _ _ _)).
      fold (threshold (classified R type val st)).
      destruct (classified_threshold R type val st) as [-> | ->]; [lia |].
      rewrite to_ptr_int_t_small by (unfold is_int; lia). lia.
  - intros r st' E.
    destruct (handle_push_addressable_cases _ _ _ _ _ _ _ E)
      as (_ & _ & _ & [(_ & _ & _ & -> & _) | (_ & _ & base & size & _ & _ & T)]);
      [lia |].
    destruct T as [-> | [Hlt ->]]; [lia |].
    rewrite to_reg_t_small in Hlt by (unfold is_reg_t; lia). lia.
Qed.

(** In the concrete process, an errant push at 0x18000. *)
Lemma threshold_moves_one_way_witness :
  forall_ok (handle_push_addressable R0 0x18000 0x18000 4 st0)
            (fun st' => threshold st' <= threshold st0).
Proof.
  unfold forall_ok.
  destruct (handle_push_addressable R0 0x18000 0x18000 4 st0)
    as [[r st'] | msg] eqn:E; [| exact I].
  assert (H0 : 0 <= threshold st0) by (vm_compute; discriminate).
  assert (Hp : threshold st0 + PAGE_SIZE < half_modulus) by (vm_compute; reflexivity).
  exact (proj2 (threshold_moves_one_way R0 ESP_ADJUST_ABSOLUTE 0 0x18000 0x18000 4
                  st0 H0 Hp) r st' E).
Defined.

(** X14, the errant-stack handler on every input: whenever it returns, it
    returns true exactly when check_push is set and the bounds of the region
    resolve; it counts the call; it leaves application memory alone; when it
    returns false shadow state and threshold are unchanged; and every shadow
    byte is as before or is a byte below [start_addr] marked unaddressable,
    so nothing from the pushed bytes on is touched and nothing is made
    addressable. *)
Theorem errant_stack_frame
        (R : resolver) (addr start_addr sz : Z) (st : state) (r : bool)
        (st' : state) :
  handle_push_addressable R addr start_addr sz st = Ok (r, st') ->
  (r = true <-> check_push (options st) = true /\ region_of R addr <> None) /\
  push_addressable (stats st') = inc (push_addressable (stats st)) /\
  app_memory st' = app_memory st /\
  (r = false -> shadow st' = shadow st /\ threshold st' = threshold st) /\
  (forall a, shadow st' a = shadow st a \/
             (a < start_addr /\ shadow st' a = SHADOW_UNADDRESSABLE)).
Proof.
  intros E.
  destruct (handle_push_addressable_cases _ _ _ _ _ _ _ E)
    as (Hc & Hm & _ & [(-> & Hn & Hs & Ht & _) |
                       (-> & Hcp & base & size & Hr & Hs & _)]).
  - split; [| repeat split; try assumption].
    + split; [discriminate |]. intros [Hcp Hr].
      destruct Hn as [Hn | Hn]; [congruence | contradiction].
    + intros a. left. now rewrite Hs.
  - split; [| repeat split; try assumption; try discriminate].
    + split; [| reflexivity]. intros _. split; [exact Hcp | congruence].
    + intros a. rewrite Hs. unfold shadow_set_range.
      destruct (_ <=? a); cbn [andb]; [| now left].
      destruct (Z.ltb_spec a start_addr); [right | left]; now repeat split.
Qed.

(** In the concrete process, an errant push at 0x18000 leaves the pushed
    byte as it was. *)
Lemma errant_stack_frame_witness :
  forall_ok (handle_push_addressable R0 0x18000 0x18000 4 st0)
            (fun st' => shadow st' 0x18000 = shadow st0 0x18000).
Proof.
  unfold forall_ok.
  destruct (handle_push_addressable R0 0x18000 0x18000 4 st0)
    as [[r st'] | msg] eqn:E; [| exact I].
  destruct (errant_stack_frame R0 0x18000 0x18000 4 st0 r st' E)
    as (_ & _ & _ & _ & H).
  destruct (H 0x18000) as [H' | [H' _]]; [exact H' | discriminate H'].
Defined.

(** ** The patcher and the generated table *)

Lemma patch_instr_from old new found inst :
  patched_from old new inst (fst (patch_instr old new found inst)).
Proof.
  unfold patch_instr, patched_from, is_threshold_cmp.
  destruct (opcode_eqb (instr_get_opcode inst) OP_cmp) eqn:Eo; [| now left].
  destruct (opnd_is_reg (instr_get_src inst 0)); [| now left].
  destruct (opnd_is_immed_int (instr_get_src inst 1)); [| now left].
  assert (Ho : instr_get_opcode inst = OP_cmp)
    by (destruct (instr_get_opcode inst); (discriminate || reflexivity)).
  cbn [andb].
  destruct (_ =? old) eqn:E1.
  - right. cbn. repeat split; try assumption. now left.
  - destruct (_ =? neg_int old) eqn:E2; [| now left].
    right. cbn. repeat split; try assumption. now right.
Qed.

Lemma patch_fragment_from old new code : forall found,
  Forall2 (patched_from old new) code (fst (patch_fragment old new found code)).
Proof.
  induction code as [| inst rest IH]; intros found; cbn [patch_fragment].
  - constructor.
  - pose proof (patch_instr_from old new found inst) as Hi.
    destruct (patch_instr old new found inst) as [inst' found'].
    destruct (found' >=? 2).
    + constructor; [exact Hi |].
      clear. induction rest; constructor; [now left | assumption].
    + specialize (IH found').
      destruct (patch_fragment old new found' rest) as [rest' found''].
      constructor; assumption.
Qed.

(** X15, what the patcher never changes, on any table: whenever it returns
    the options are as before, the fragments of the relative kinds are as
    before, and each fragment of the absolute kind has the same number of
    instructions, each one either unchanged or a compare of a register with
    the old threshold or its negation, turned into the compare of the same
    register with the new threshold or its negation. *)
Theorem patcher_touches_only_threshold_cmps (new : Z) (st st' : state) :
  esp_fastpath_update_swap_threshold new st = Ok (tt, st') ->
  options st' = options st /\
  (forall eflags_live : bool,
      let row := table_row (shared_esp_fastpath st) eflags_live in
      let row' := table_row (shared_esp_fastpath st') eflags_live in
      Forall2 (patched_from (threshold st) new)
              (frag_absolute row) (frag_absolute row') /\
      frag_negative row' = frag_negative row /\
      frag_positive row' = frag_positive row /\
      frag_ret_immed row' = frag_ret_immed row).
Proof.
  rewrite esp_fastpath_update_swap_threshold_eq.
  destruct (gencode_patchable st); [| discriminate].
  intros [= <-]. split; [reflexivity |].
  intros eflags_live. unfold after_patch, patch_table.
  cbn [shared_esp_fastpath set_shared_esp_fastpath add_event].
  change (threshold (add_event (EvPatchGencode new) st)) with (threshold st).
  destruct (shared_esp_fastpath st) as [r0 r1].
  destruct eflags_live; cbn; (split; [apply patch_fragment_from | repeat split]).
Qed.

(** In the concrete process, a patch to 0xa000. *)
Lemma patcher_touches_only_threshold_cmps_witness :
  forall_ok (esp_fastpath_update_swap_threshold 0xa000 st0)
            (fun st' =>
               frag_negative (table_row (shared_esp_fastpath st') true) =
               frag_negative (table_row (shared_esp_fastpath st0) true)).
Proof.
  unfold forall_ok.
  destruct (esp_fastpath_update_swap_threshold 0xa000 st0)
    as [[[] st'] | msg] eqn:E; [| exact I].
  destruct (patcher_touches_only_threshold_cmps 0xa000 st0 st' E) as (_ & H).
  exact (proj1 (proj2 (H true))).
Defined.

(** A threshold update keeps the table current. *)
Lemma update_keeps_current E new st :
  gencode_current E st ->
  0 < threshold st < half_modulus ->
  emitter_clear E (threshold st) = true ->
  update_stack_swap_threshold new st = Ok (tt, after_update new st) /\
  gencode_current E (after_update new st).
Proof.
  intros Hg Ht Hc. rewrite update_stack_swap_threshold_eq.
  rewrite (generated_table_patchable E st Hg Ht Hc). split; [reflexivity |].
  unfold gencode_current, after_update, after_patch.
  cbn [shared_esp_fastpath set_threshold set_shared_esp_fastpath add_event options].
  change (threshold (add_event _ (add_event _ st))) with (threshold st).
  rewrite Hg. now apply patch_generated_table.
Qed.

(** X16, threshold updates compose: from the table the generator emits for
    the options in force (thresholds positive, helper code free of threshold
    compares), an update to [a] followed by an update to [b] succeeds and
    leaves the table the generator emits for [b]; when [b] is the original
    threshold, table and options are back to what they were. *)
Theorem threshold_update_round_trip (E : emitter) (a b : Z) (st : state) :
  gencode_current E st ->
  0 < threshold st < half_modulus ->
  0 < a < half_modulus ->
  emitter_clear E (threshold st) = true ->
  emitter_clear E a = true ->
  exists st1 st2,
    update_stack_swap_threshold a st = Ok (tt, st1) /\
    update_stack_swap_threshold b st1 = Ok (tt, st2) /\
    threshold st2 = b /\
    shared_esp_fastpath st2 =
      generate_shared_esp_fastpath E (with_threshold b (options st)) /\
    (b = threshold st ->
     shared_esp_fastpath st2 = shared_esp_fastpath st /\
     options st2 = options st).
Proof.
  intros Hg Ht Ha Hc Hca.
  destruct (update_keeps_current E a st Hg Ht Hc) as (E1 & G1).
  destruct (update_keeps_current E b (after_update a st) G1 Ha Hca) as (E2 & G2).
  exists (after_update a st), (after_update b (after_update a st)).
  split; [exact E1 |]. split; [exact E2 |]. split; [reflexivity |].
  split; [exact G2 |].
  intros ->. split.
  - rewrite G2, Hg. f_equal. exact (with_threshold_same (options st)).
  - exact (with_threshold_same (options st)).
Qed.

(** In the concrete process: to 0xa000 and back to 0x9000. *)
Lemma threshold_update_round_trip_witness :
  exists st1 st2,
    update_stack_swap_threshold 0xa000 st0 = Ok (tt, st1) /\
    update_stack_swap_threshold 0x9000 st1 = Ok (tt, st2) /\
    shared_esp_fastpath st2 = shared_esp_fastpath st0.
Proof.
  destruct (threshold_update_round_trip E0 0xa000 0x9000 st0)
    as (st1 & st2 & E1 & E2 & _ & _ & H).
  - reflexivity.
  - vm_compute. split; reflexivity.
  - vm_compute. split; reflexivity.
  - vm_compute. reflexivity.
  - vm_compute. reflexivity.
  - exists st1, st2. split; [exact E1 |]. split; [exact E2 |].
    exact (proj1 (H eq_refl)).
Defined.

Lemma gencode_current_ext E st st' :
  options st' = options st ->
  shared_esp_fastpath st' = shared_esp_fastpath st ->
  gencode_current E st -> gencode_current E st'.
Proof. unfold gencode_current. now intros -> ->. Qed.

Lemma classified_current E R type val st :
  gencode_current E st ->
  0 < threshold st < half_modulus ->
  emitter_clear E (threshold st) = true ->
  gencode_current E (classified R type val st).
Proof.
  intros Hg Ht Hc. unfold classified. cbv zeta.
  assert (Hi : forall new_xsp,
             gencode_current E (intra_state R (mc_xsp st) new_xsp (entered st))).
  { intros new_xsp. revert Hg. now apply gencode_current_ext. }
  destruct (swap_candidate type val (mc_xsp st)) as [new_xsp |].
  - destruct (exceeds_threshold _ _); [| exact Hg].
    destruct (_ >? MAX_NUMBER_NON_SWAPS); [| apply Hi].
    unfold bump_state.
    apply update_keeps_current; [| exact Ht | exact Hc].
    generalize (Hi new_xsp). now apply gencode_current_ext.
  - destruct (exceeds_threshold _ _); exact Hg.
Qed.

(** X17, the handlers never trip the patcher: when the table is the one the
    generator emits for the options in force (threshold positive, helper code
    free of threshold compares), the adjustment handler and the errant-stack
    handler return, on every input, and the table is again the one the
    generator emits for the options in force, the threshold they may have
    changed included. *)
Theorem handlers_keep_gencode_current
        (E : emitter) (R : resolver) (type : esp_adjust_t)
        (val addr start_addr sz : Z) (st : state) :
  gencode_current E st ->
  0 < threshold st < half_modulus ->
  emitter_clear E (threshold st) = true ->
  (exists st',
      handle_esp_adjust R type val st = Ok (tt, st') /\
      gencode_current E st') /\
  (exists r st',
      handle_push_addressable R addr start_addr sz st = Ok (r, st') /\
      gencode_current E st').
Proof.
  intros Hg Ht Hc.
  pose proof (generated_table_patchable E st Hg Ht Hc) as Hp.
  split.
  - destruct (confirmed_swap R type val st) eqn:Hs.
    + destruct (handle_esp_adjust_swap R type val st Hs) as (new_xsp & _ & ->).
      eexists. split; [reflexivity |].
      revert Hg. apply gencode_current_ext.
      * exact (proj2 (swap_state_control R (mc_xsp st) new_xsp (entered st))).
      * unfold swap_state. cbv zeta. now destruct (region_of R (mc_xsp st)).
    + rewrite (handle_esp_adjust_ordinary R type val st Hs Hp).
      eexists. split; [reflexivity |].
      generalize (classified_current E R type val st Hg Ht Hc).
      destruct (adjusted_control (adjust_base type (mc_xsp st))
                  (adjust_delta type val (mc_xsp st)) (classified R type val st))
        as (Ho & _ & _ & _ & Hf).
      now apply gencode_current_ext.
  - destruct (handle_push_addressable R addr start_addr sz st)
      as [[r st'] | msg] eqn:Ep.
    + exists r, st'. split; [reflexivity |].
      revert Ep. unfold handle_push_addressable. step. cbn [options set_stats].
      destruct (check_push (options st)).
      * step. rewrite (bind_Ok _ _ _ _ _ (get_stack_region_bounds_eq _ _ _)).
        destruct (region_of R addr) as [[base size] |].
        -- step. unfold do_shadow_set_range. rewrite bind_assoc. step.
           intros Ep. apply bind_Ok_inv in Ep as ([] & st1 & E1 & E2).
           injection E2 as <- <-.
           apply check_stack_size_vs_threshold_cases in E1 as [-> | [_ ->]].
           ++ revert Hg. now apply gencode_current_ext.
           ++ apply update_keeps_current; [| exact Ht | exact Hc].
              revert Hg. now apply gencode_current_ext.
        -- step. cbn [options add_event add_events set_stats].
           destruct (pause_at_unaddressable (options st)); step;
             intros [= <- <-]; revert Hg; now apply gencode_current_ext.
      * intros [= <- <-]. revert Hg. now apply gencode_current_ext.
    + exfalso. revert Ep. unfold handle_push_addressable. step.
      cbn [options set_stats].
      destruct (check_push (options st)); [| discriminate].
      step. rewrite (bind_Ok _ _ _ _ _ (get_stack_region_bounds_eq _ _ _)).
      destruct (region_of R addr) as [[base size] |].
      * step. unfold do_shadow_set_range. rewrite bind_assoc. step.
        match goal with
        | |- context [bind (check_stack_size_vs_threshold size) _ ?s] =>
            destruct (check_stack_size_vs_threshold_ok size s Hp)
              as (st' & Es & _);
            rewrite (bind_Ok _ _ _ _ _ Es)
        end.
        discriminate.
      * step. cbn [options add_event add_events set_stats].
        destruct (pause_at_unaddressable (options st)); step; discriminate.
Qed.

(** In the concrete process, at the false alarm that raises the
    threshold. *)
Lemma handlers_keep_gencode_current_witness :
  exists st',
    handle_esp_adjust R0 ESP_ADJUST_ABSOLUTE 0x10000 (set_num_non_swaps 33 st0) =
      Ok (tt, st') /\
    gencode_current E0 st'.
Proof.
  apply (handlers_keep_gencode_current E0 R0 ESP_ADJUST_ABSOLUTE 0x10000 0 0 0
           (set_num_non_swaps 33 st0)).
  - reflexivity.
  - vm_compute. split; reflexivity.
  - vm_compute. reflexivity.
Defined.

Lemma false_alarms_app R l1 l2 st :
  false_alarms R (l1 ++ l2) st =
  bind (false_alarms R l1) (fun _ => false_alarms R l2) st.
Proof.
  revert st. induction l1 as [| [c n] l1 IH]; intros st; [reflexivity |].
  cbn [app false_alarms]. unfold bind in *.
  destruct (check_stack_swap R c n st) as [[r st1] | msg]; [| reflexivity].
  apply IH.
Qed.

(** While the counter stays at or below the ceiling, false alarms leave
    the options and the generated code alone. *)
Lemma false_alarms_keep_options R l : forall st,
  Forall (is_false_alarm R) l ->
  0 <= num_non_swaps st ->
  num_non_swaps st + Z.of_nat (List.length l) <= MAX_NUMBER_NON_SWAPS + 1 ->
  exists st',
    false_alarms R l st = Ok (tt, st') /\
    num_non_swaps st' = num_non_swaps st + Z.of_nat (List.length l) /\
    options st' = options st /\
    shared_esp_fastpath st' = shared_esp_fastpath st /\
    seen is_threshold_update st' = seen is_threshold_update st.
Proof.
  induction l as [| [cur_xsp new_xsp] rest IH]; intros st Hall Hn Hlen.
  - exists st. cbn. repeat split. lia.
  - inversion Hall as [| p l' Hfa Hrest]; subst.
    cbn [List.length] in Hlen. rewrite Nat2Z.inj_succ in Hlen.
    cbn [false_alarms]. unfold bind.
    rewrite (check_stack_swap_intra _ _ _ _ Hfa).
    replace (num_non_swaps st >? MAX_NUMBER_NON_SWAPS) with false
      by (symmetry; rewrite Z.gtb_ltb; apply Z.ltb_ge; lia).
    assert (Hc : num_non_swaps (intra_state R cur_xsp new_xsp st) =
                 num_non_swaps st + 1).
    { cbn. apply to_ptr_int_t_small. unfold is_int.
      unfold MAX_NUMBER_NON_SWAPS in Hlen. rewrite half_modulus_eq. lia. }
    destruct (intra_state_frame R cur_xsp new_xsp st) as (_ & _ & Hu & _).
    destruct (IH (intra_state R cur_xsp new_xsp st) Hrest) as
      (st' & E & Hc' & Ho' & Hg' & Hu').
    + rewrite Hc. lia.
    + rewrite Hc. lia.
    + exists st'. split; [exact E |].
      rewrite Hc', Ho', Hg', Hu', Hc, Hu.
      cbn [List.length]. rewrite Nat2Z.inj_succ. repeat split. lia.
Qed.

(** X18, the period of the raise: from a counter of 0 and the generated
    table, 34 * k false alarms in a row raise the threshold by k pages (as
    long as that fits an int), in k threshold updates, and leave the counter
    at 0 and the table current. *)
Theorem false_alarms_raise_every_34th
        (E : emitter) (R : resolver) (k : nat) :
  (forall v, emitter_clear E v = true) ->
  forall (l : list (Z * Z)) (st : state),
    gencode_current E st ->
    0 < threshold st ->
    threshold st + Z.of_nat k * PAGE_SIZE < half_modulus ->
    num_non_swaps st = 0 ->
    Forall (is_false_alarm R) l ->
    List.length l = (34 * k)%nat ->
    exists st',
      false_alarms R l st = Ok (tt, st') /\
      threshold st' = threshold st + Z.of_nat k * PAGE_SIZE /\
      num_non_swaps st' = 0 /\
      gencode_current E st' /\
      seen is_threshold_update st' = (k + seen is_threshold_update st)%nat.
Proof.
  intros Hclear.
  assert (Ep : PAGE_SIZE = 4096) by reflexivity.
  assert (Hh : half_modulus = 2147483648) by reflexivity.
  induction k as [| k IH]; intros l st Hg Ht Hb Hz Hall Hlen.
  - destruct l; [| discriminate]. exists st. cbn. repeat split; try assumption. lia.
  - assert (Hl : firstn 33 l ++ skipn 33 l = l) by apply firstn_skipn.
    assert (L1 : List.length (firstn 33 l) = 33%nat)
      by (rewrite length_firstn; lia).
    assert (L2 : List.length (skipn 33 l) = S (34 * k))
      by (rewrite length_skipn; lia).
    rewrite <- Hl in Hall. apply Forall_app in Hall as [A1 A2].
    rewrite <- Hl.
    destruct (skipn 33 l) as [| [c n] rest]; [discriminate |].
    inversion A2 as [| p l' Hfa Hrest]; subst p l'.
    destruct (false_alarms_keep_options R (firstn 33 l) st A1) as
      (st33 & E33 & Hc & Ho & Htab & Hu).
    + lia.
    + rewrite Hz, L1. unfold MAX_NUMBER_NON_SWAPS. lia.
    + rewrite Hz, L1 in Hc. cbn in Hc.
      assert (T33 : threshold st33 = threshold st)
        by (unfold threshold; now rewrite Ho).
      assert (G33 : gencode_current E
                      (set_num_non_swaps 0 (intra_state R c n st33)))
        by (revert Hg; now apply gencode_current_ext).
      destruct (update_keeps_current E (to_ptr_int_t (threshold st33 + PAGE_SIZE))
                  (set_num_non_swaps 0 (intra_state R c n st33)) G33)
        as (_ & G34).
      { change (threshold (set_num_non_swaps 0 (intra_state R c n st33)))
          with (threshold st33). lia. }
      { apply Hclear. }
      fold (bump_state R c n st33) in G34.
      assert (T34 : threshold (bump_state R c n st33) = threshold st + PAGE_SIZE).
      { change (threshold (bump_state R c n st33))
          with (to_ptr_int_t (threshold st33 + PAGE_SIZE)).
        rewrite T33. apply to_ptr_int_t_small. unfold is_int. lia. }
      destruct (IH rest (bump_state R c n st33) G34) as
        (st' & E' & T' & C' & G' & U').
      * lia.
      * rewrite T34. lia.
      * reflexivity.
      * exact Hrest.
      * cbn [List.length] in L2. lia.
      * exists st'. split.
        { rewrite false_alarms_app, (bind_Ok _ _ _ _ _ E33).
          cbn [false_alarms]. unfold bind at 1.
          rewrite (check_stack_swap_intra _ _ _ _ Hfa), Hc.
          change (33 >? MAX_NUMBER_NON_SWAPS) with true. cbv iota.
          assert (P33 : gencode_patchable st33 = true).
          { apply (generated_table_patchable E).
            - revert Hg. now apply gencode_current_ext.
            - lia.
            - apply Hclear. }
          rewrite P33. exact E'. }
        rewrite T', T34, C'. split; [lia |]. split; [reflexivity |].
        split; [exact G' |]. rewrite U'.
        destruct (intra_state_frame R c n st33) as (_ & _ & Hu' & _).
        change (seen is_threshold_update (bump_state R c n st33))
          with (S (seen is_threshold_update (intra_state R c n st33))).
        rewrite Hu', Hu. lia.
Qed.

(** In the concrete process, 68 false alarms raise the threshold by two
    pages. *)
Lemma false_alarms_raise_every_34th_witness :
  exists st',
    false_alarms R0 (repeat (0x20000, 0x10000) 68) st0 = Ok (tt, st') /\
    threshold st' = 0xb000 /\
    num_non_swaps st' = 0.
Proof.
  destruct (false_alarms_raise_every_34th E0 R0 2 (fun v => eq_refl)
              (repeat (0x20000, 0x10000) 68) st0)
    as (st' & E & T & C & _).
  - reflexivity.
  - reflexivity.
  - reflexivity.
  - reflexivity.
  - apply Forall_forall. intros p Hin. apply repeat_spec in Hin. subst p.
    reflexivity.
  - reflexivity.
  - exists st'. split; [exact E |]. split; [exact T | exact C].
Defined.

(** ** The fragments, run *)

Lemma land_3_mod (z : Z) : Z.land z 3 = z mod 4.
Proof. change 3 with (Z.ones 2). now rewrite Z.land_ones by lia. Qed.

Lemma to_reg_t_to_ptr_int_t (z : Z) : to_reg_t (to_ptr_int_t z) = to_reg_t z.
Proof.
  assert (Hm : modulus = 4294967296) by reflexivity.
  unfold to_ptr_int_t, to_reg_t. destruct (_ <? half_modulus).
  - apply Z.mod_mod. lia.
  - replace (z mod modulus - modulus) with (z mod modulus + (-1) * modulus) by lia.
    rewrite Z.mod_add by lia. apply Z.mod_mod. lia.
Qed.

Lemma to_reg_t_mod4 (z : Z) : to_reg_t z mod 4 = z mod 4.
Proof.
  unfold to_reg_t. rewrite modulus_eq. change 4294967296 with (4 * 1073741824).
  rewrite Z.rem_mul_r by lia. rewrite (Z.mul_comm 4), Z.mod_add by lia.
  apply Z.mod_mod. lia.
Qed.

Lemma to_ptr_int_t_mod4 (z : Z) : to_ptr_int_t z mod 4 = z mod 4.
Proof.
  rewrite <- (to_reg_t_mod4 (to_ptr_int_t z)), to_reg_t_to_ptr_int_t.
  apply to_reg_t_mod4.
Qed.

(** The flags of [test z, 3], as the model keeps them. *)
Lemma test_3 (z : Z) : to_ptr_int_t (Z.land z 3) = z mod 4.
Proof.
  rewrite land_3_mod. apply to_ptr_int_t_small.
  pose proof (Z.mod_pos_bound z 4 ltac:(lia)).
  unfold is_int. rewrite half_modulus_eq. lia.
Qed.

Lemma slot_above (b : Z) : (b + 1 =? b) = false.
Proof. apply Z.eqb_neq. lia. Qed.

(** X19, when a fragment leaves for the slow path: run from its entry with
    the value in ecx and flags dead, a fragment saves the value and the
    return address in its two spill slots and, for the absolute kind, turns
    ecx into the delta from the stack pointer; it jumps to the slow-path
    label exactly when, for the absolute kind, the delta exceeds the
    threshold in magnitude, by the very test for which handle_esp_adjust
    calls the swap classifier, or when the delta is no multiple of 4, and
    otherwise reaches the shadow lookup with esp (plus 4 for a return with
    immediate) in edx. *)
Theorem fastpath_entry_decision
        (E : emitter) (o : options_t) (type : esp_adjust_t) (m : machine) :
  let esp := regs m REG_ESP in
  let val := regs m REG_ECX in
  let delta := fastpath_delta type val (adjust_base type esp) in
  let bails :=
    (is_absolute type && exceeds_threshold delta (stack_swap_threshold o)) ||
    negb (delta mod 4 =? 0) in
  plain_emitter E ->
  is_fast_kind type = true ->
  is_int (stack_swap_threshold o) ->
  exists m',
    run_block (generate_shared_esp_fastpath_helper E o false type) m =
      (if bails then Jump mi_slowpath else At loop_shadow_lookup, m') /\
    regs m' REG_ESP = esp /\
    regs m' REG_EDX = adjust_base type esp /\
    regs m' REG_ECX = (if is_absolute type then to_reg_t delta else val) /\
    slots m' (esp_spill_slot_base o + 1) = val /\
    slots m' (esp_spill_slot_base o) = regs m REG_EDX.
Proof.
  intros esp val delta bails (Hj & _ & _) Hf Ht.
  subst esp val delta bails.
  unfold generate_shared_esp_fastpath_helper, fastpath_entry, swap_check,
    fastpath_loops.
  rewrite !Hj.
  destruct type; try discriminate Hf;
    cbn [is_absolute is_ret_immed app andb orb adjust_base fastpath_delta].
  - cbn. rewrite !to_ptr_int_t_to_reg_t.
    rewrite (to_ptr_int_t_small _ Ht).
    rewrite (to_ptr_int_t_small (neg_int (stack_swap_threshold o))
               (to_ptr_int_t_range _)).
    unfold exceeds_threshold.
    set (d := to_ptr_int_t (regs m REG_ECX - regs m REG_ESP)).
    destruct (d >? stack_swap_threshold o); cbn.
    + eexists. split; [reflexivity |]. cbn.
      rewrite slot_above, !Z.eqb_refl. subst d.
      now rewrite to_reg_t_to_ptr_int_t.
    + rewrite to_ptr_int_t_to_reg_t. fold d.
      fold (neg_int (stack_swap_threshold o)).
      destruct (d <? neg_int (stack_swap_threshold o)); cbn.
      * eexists. split; [reflexivity |]. cbn.
        rewrite slot_above, !Z.eqb_refl. subst d.
        now rewrite to_reg_t_to_ptr_int_t.
      * rewrite test_3, to_reg_t_mod4. fold d.
        replace ((regs m REG_ECX - regs m REG_ESP) mod 4) with (d mod 4)
          by (subst d; apply to_ptr_int_t_mod4).
        destruct (negb (d mod 4 =? 0)); cbn;
          (eexists; split; [reflexivity |]); cbn;
          rewrite slot_above, !Z.eqb_refl; subst d;
          now rewrite to_reg_t_to_ptr_int_t.
  - cbn. rewrite test_3, to_ptr_int_t_mod4.
    destruct (negb (regs m REG_ECX mod 4 =? 0)); cbn;
      (eexists; split; [reflexivity |]); cbn;
      now rewrite slot_above, !Z.eqb_refl.
  - cbn. rewrite test_3, to_ptr_int_t_mod4.
    destruct (negb (regs m REG_ECX mod 4 =? 0)); cbn;
      (eexists; split; [reflexivity |]); cbn;
      now rewrite slot_above, !Z.eqb_refl.
  - cbn. rewrite test_3, to_ptr_int_t_mod4.
    destruct (negb (regs m REG_ECX mod 4 =? 0)); cbn;
      (eexists; split; [reflexivity |]); cbn;
      now rewrite slot_above, !Z.eqb_refl.
Qed.

(** With the generated code of the concrete process: a move of the stack
    pointer from 0x20000 to 0x10000 exceeds the threshold 0x9000 and leaves
    for the slow path. *)
Lemma fastpath_entry_decision_witness :
  exists m',
    run_block (generate_shared_esp_fastpath_helper E0 options0 false
                 ESP_ADJUST_ABSOLUTE)
              (mk_machine (fun r => match r with
                                    | REG_ESP => 0x20000
                                    | REG_ECX => 0x10000
                                    | _ => 0
                                    end) (fun _ => 0) (fun _ => 0) None) =
      (Jump mi_slowpath, m') /\
    regs m' REG_ECX = to_reg_t (- 0x10000).
Proof.
  destruct (fastpath_entry_decision E0 options0 ESP_ADJUST_ABSOLUTE
              (mk_machine (fun r => match r with
                                    | REG_ESP => 0x20000
                                    | REG_ECX => 0x10000
                                    | _ => 0
                                    end) (fun _ => 0) (fun _ => 0) None))
    as (m' & Hr & _ & _ & Hc & _).
  - repeat split.
  - reflexivity.
  - vm_compute. split; [discriminate | reflexivity].
  - exists m'. split; [exact Hr | exact Hc].
Defined.

Lemma block_at_skip l a b :
  defines_label l a = false -> block_at l (a ++ b) = block_at l b.
Proof.
  induction a as [| inst a IH]; [reflexivity |].
  cbn [defines_label existsb app block_at]. intros H.
  apply orb_false_iff in H as [H1 H2].
  destruct (instr_label inst) as [l' |]; [rewrite H1 |]; now apply IH.
Qed.

Lemma neg_int_neg (v : Z) : neg_int (to_ptr_int_t (to_reg_t (- v))) = to_ptr_int_t v.
Proof.
  assert (Hm : modulus = 4294967296) by reflexivity.
  rewrite to_ptr_int_t_to_reg_t. unfold neg_int.
  assert (H : (- to_ptr_int_t (- v)) mod modulus = v mod modulus).
  { unfold to_ptr_int_t. destruct (_ <? half_modulus).
    - rewrite <- (Z.sub_0_l (_ mod _)), Zdiv.Zminus_mod_idemp_r.
      f_equal. lia.
    - replace (- ((- v) mod modulus - modulus))
        with (0 - (- v) mod modulus + 1 * modulus) by lia.
      rewrite Z.mod_add by lia. rewrite Zdiv.Zminus_mod_idemp_r. f_equal. lia. }
  unfold to_ptr_int_t at 1 3. now rewrite H.
Qed.

(** X20, the value handed to the slow path: at its slow-path label a
    fragment (flags dead) with the shared slow path reloads the value and the
    return address, negates the value back for the kind ESP_ADJUST_NEGATIVE
    and jumps to the shared slow path, whose clean call gets ecx: the delta
    handle_esp_adjust derives from it is the delta the fragment worked with.
    Without the shared slow path the clean call gets the saved value as it
    is, for every kind: for ESP_ADJUST_NEGATIVE the handler, negating it,
    works with the opposite of the fragment's delta. *)
Theorem slowpath_handover
        (E : emitter) (o : options_t) (type : esp_adjust_t) (m : machine) :
  let val := slots m (esp_spill_slot_base o + 1) in
  let retaddr := slots m (esp_spill_slot_base o) in
  let exit_block :=
    block_at mi_slowpath (generate_shared_esp_fastpath_helper E o false type) in
  plain_emitter E ->
  is_fast_kind type = true ->
  (shared_slowpath o = true ->
   exists m',
     run_block exit_block m = (Exit (shared_esp_slowpath E), m') /\
     regs m' REG_EDX = retaddr /\
     regs m' REG_ESP = regs m REG_ESP /\
     fst (run_block (generate_shared_esp_slowpath E o) m') =
       Called [regs m' REG_ECX] /\
     forall esp,
       adjust_delta type (regs m' REG_ECX) esp = fastpath_delta type val esp) /\
  (shared_slowpath o = false ->
   run_block exit_block m = (Called [val], m) /\
   forall esp,
     adjust_delta type val esp =
     if is_negative type then neg_int (fastpath_delta type val esp)
     else fastpath_delta type val esp).
Proof.
  intros val retaddr exit_block (Hj & Hc & Hl) Hf.
  subst val retaddr exit_block.
  unfold generate_shared_esp_fastpath_helper, fastpath_entry, swap_check,
    fastpath_loops, fastpath_exit, generate_shared_esp_slowpath.
  rewrite !Hj, !Hc.
  split; intros Hs; rewrite Hs.
  - destruct type; try discriminate Hf;
      cbn [is_absolute is_ret_immed is_negative app block_at instr_label
           instr_get_opcode instr_get_src instr_srcs nth INSTR_CREATE_mov_st
           INSTR_CREATE_mov_ld INSTR_CREATE_add INSTR_CREATE_sub
           INSTR_CREATE_cmp INSTR_CREATE_test INSTR_CREATE_jcc
           INSTR_CREATE_label INSTR_CREATE_neg INSTR_CREATE_inc
           INSTR_CREATE_dec INSTR_CREATE_jmp_short label_eqb];
      rewrite <- ?app_assoc; rewrite (block_at_skip _ _ _ Hl);
      destruct (statistics o); cbn;
      (eexists; split; [reflexivity |]); cbn;
      rewrite ?Z.eqb_refl; repeat split;
      intros esp; apply neg_int_neg.
  - destruct type; try discriminate Hf;
      cbn [is_absolute is_ret_immed is_negative app block_at instr_label
           instr_get_opcode instr_get_src instr_srcs nth INSTR_CREATE_mov_st
           INSTR_CREATE_mov_ld INSTR_CREATE_add INSTR_CREATE_sub
           INSTR_CREATE_cmp INSTR_CREATE_test INSTR_CREATE_jcc
           INSTR_CREATE_label INSTR_CREATE_neg INSTR_CREATE_inc
           INSTR_CREATE_dec INSTR_CREATE_jmp_short label_eqb];
      rewrite <- ?app_assoc; rewrite (block_at_skip _ _ _ Hl);
      destruct (statistics o); cbn; repeat split.
Qed.

(** With the generated code of the concrete process, for [sub esp, 16]. *)
Lemma slowpath_handover_witness :
  exists m',
    run_block
      (block_at mi_slowpath
         (generate_shared_esp_fastpath_helper E0 options0 false
            ESP_ADJUST_NEGATIVE)) m0 =
      (Exit (shared_esp_slowpath E0), m') /\
    regs m' REG_EDX = 0x8048123 /\
    adjust_delta ESP_ADJUST_NEGATIVE (regs m' REG_ECX) 0x20000 = -16.
Proof.
  destruct (proj1 (slowpath_handover E0 options0 ESP_ADJUST_NEGATIVE m0
                     ltac:(repeat split) eq_refl) eq_refl)
    as (m' & Hr & Hd & _ & _ & Ha).
  exists m'. split; [exact Hr |]. split; [exact Hd |].
  rewrite Ha. reflexivity.
Defined.

(** ** The labels of the fragments *)

Lemma labels_defined_app a b :
  labels_defined (a ++ b) = labels_defined a ++ labels_defined b.
Proof. apply flat_map_app. Qed.

Lemma jump_targets_app a b :
  jump_targets (a ++ b) = jump_targets a ++ jump_targets b.
Proof. apply flat_map_app. Qed.

Lemma helper_code_targets code L :
  helper_code code -> In mi_slowpath L -> incl (jump_targets code) L.
Proof. intros [_ H] Hin l Hl. apply H in Hl. now subst l. Qed.

Ltac targets_incl :=
  repeat match goal with
         | |- incl (jump_targets (_ ++ _)) _ =>
             rewrite jump_targets_app; apply incl_app
         | |- incl (jump_targets (if ?c then _ else _)) _ => destruct c
         | |- incl (jump_targets []) _ => apply incl_nil_l
         | H : helper_code ?c |- incl (jump_targets ?c) _ =>
             apply (helper_code_targets _ _ H); cbn; tauto
         end;
  try (let x := fresh "x" in
       let H := fresh "H" in
       unfold incl; intros x H; cbn in H; cbn; intuition (subst; tauto)).

(** X21, the labels of a fragment: when the helpers' code defines no label
    and jumps only to the slow-path label, every generated fragment defines
    the same nine labels, each once, and every jump in it aims at one of
    them. *)
Theorem fragment_labels_closed
        (E : emitter) (o : options_t) (eflags_live : bool) (type : esp_adjust_t) :
  emitter_helpers E o ->
  let code := generate_shared_esp_fastpath_helper E o eflags_live type in
  labels_defined code =
    [loop_shadow_lookup; shadow_lookup; loop_pop_repeat; loop_next_shadow;
     loop_push; loop_push_repeat; loop_done; mi_slowpath; restore] /\
  NoDup (labels_defined code) /\
  incl (jump_targets code) (labels_defined code).
Proof.
  intros (Hs & Hr & Hg & Hl & Hz & Ht & Hc) code.
  assert (D : labels_defined code =
              [loop_shadow_lookup; shadow_lookup; loop_pop_repeat;
               loop_next_shadow; loop_push; loop_push_repeat; loop_done;
               mi_slowpath; restore]).
  { subst code.
    unfold generate_shared_esp_fastpath_helper, fastpath_entry, swap_check,
      fastpath_loops, fastpath_exit.
    destruct eflags_live, (is_ret_immed type), (is_absolute type),
      (statistics o), (shared_slowpath o), (is_negative type);
      rewrite ?labels_defined_app, ?(proj1 Hs), ?(proj1 Hr), ?(proj1 Hg),
        ?(proj1 Hl), ?(proj1 Hz), ?(proj1 Ht), ?(proj1 Hc); reflexivity. }
  split; [exact D |]. split.
  - rewrite D. repeat constructor; cbn; intuition discriminate.
  - rewrite D. subst code.
    unfold generate_shared_esp_fastpath_helper, fastpath_entry, swap_check,
      fastpath_loops, fastpath_exit.
    targets_incl.
Qed.

(** The code generated in the concrete process. *)
Lemma fragment_labels_closed_witness :
  NoDup (labels_defined
           (generate_shared_esp_fastpath_helper E0 options0 true
              ESP_ADJUST_ABSOLUTE)) /\
  incl (jump_targets
          (generate_shared_esp_fastpath_helper E0 options0 true
             ESP_ADJUST_ABSOLUTE))
       (labels_defined
          (generate_shared_esp_fastpath_helper E0 options0 true
             ESP_ADJUST_ABSOLUTE)).
Proof.
  apply (fragment_labels_closed E0 options0 true ESP_ADJUST_ABSOLUTE).
  repeat split; cbn; intros l H; intuition congruence.
Defined.

(** ** The zeroing loop of lightweight mode *)

Lemma reg_eqb_refl r : reg_eqb r r = true.
Proof. now destruct r. Qed.

Lemma reg_eqb_neq a b : a <> b -> reg_eqb a b = false.
Proof. destruct a, b; (reflexivity || congruence). Qed.

Lemma label_eqb_refl l : label_eqb l l = true.
Proof. now destruct l. Qed.

Lemma label_eqb_neq a b : a <> b -> label_eqb a b = false.
Proof. destruct a, b; (reflexivity || congruence). Qed.

(** Two addresses in the same half of the address space compare as signed
    integers the way they do as addresses. *)
Lemma to_ptr_int_t_same_half lo x :
  lo = 0 \/ lo = half_modulus ->
  lo <= x < lo + half_modulus ->
  to_ptr_int_t x = x - 2 * lo.
Proof.
  assert (Hm : modulus = 4294967296) by reflexivity.
  assert (Hh : half_modulus = 2147483648) by reflexivity.
  intros [-> | ->] Hx.
  - rewrite to_ptr_int_t_small by (unfold is_int; lia). lia.
  - unfold to_ptr_int_t. rewrite Z.mod_small by lia.
    destruct (Z.ltb_spec x half_modulus); lia.
Qed.

Lemma opnd_address_reg m r :
  r <> REG_NULL -> opnd_address m r 0 = to_reg_t (regs m r).
Proof.
  intros H. unfold opnd_address. rewrite Z.add_0_r.
  destruct r; (reflexivity || congruence).
Qed.

Lemma zero_loop_round_run reg1 reg_mod retaddr loop_repeat m :
  reg1 <> reg_mod ->
  reg1 <> REG_NULL ->
  let r := to_reg_t (regs m reg1 - 4) in
  let m1 :=
    set_last_cmp (Some (to_ptr_int_t r, to_ptr_int_t (regs m reg_mod)))
                 (set_reg reg1 r (set_last_cmp None m)) in
  run_block (zero_loop_round reg1 reg_mod retaddr loop_repeat) m =
  if to_ptr_int_t r <? to_ptr_int_t (regs m reg_mod) then (Jump retaddr, m1)
  else if to_reg_t r + 4 <=? modulus
       then (Jump loop_repeat, set_mem (store_bytes (to_reg_t r) 4 0 (mem m)) m1)
       else (Stuck, m1).
Proof.
  intros Hr Hn r m1. subst r m1. cbn -[opnd_address reg_eqb].
  rewrite reg_eqb_refl, (reg_eqb_neq _ _ (not_eq_sym Hr)).
  destruct (_ <? _); [reflexivity |].
  rewrite opnd_address_reg by assumption. cbn -[to_reg_t reg_eqb].
  rewrite reg_eqb_refl.
  destruct (_ <=? _); reflexivity.
Qed.

Lemma run_S fuel code block m :
  run (S fuel) code block m =
  match run_block block m with
  | (Jump l, m') | (At l, m') => run fuel code (block_at l code) m'
  | r => r
  end.
Proof. reflexivity. Qed.

Lemma zero_loop_rounds reg1 reg_mod retaddr loop_repeat lo target code :
  reg1 <> reg_mod ->
  reg1 <> REG_NULL ->
  lo = 0 \/ lo = half_modulus ->
  lo + 4 <= target < lo + half_modulus ->
  block_at loop_repeat code = zero_loop_round reg1 reg_mod retaddr loop_repeat ->
  block_at retaddr code = [] ->
  forall (j : nat) m,
    regs m reg_mod = target ->
    target + 4 * Z.of_nat j <= regs m reg1 < target + 4 * Z.of_nat j + 4 ->
    regs m reg1 <= lo + half_modulus ->
    exists m',
      run (S j) code (zero_loop_round reg1 reg_mod retaddr loop_repeat) m =
        (Fall, m') /\
      (forall r, r <> reg1 -> regs m' r = regs m r) /\
      slots m' = slots m /\
      forall a, mem m' a =
                if (regs m reg1 - 4 * Z.of_nat j <=? a) && (a <? regs m reg1)
                then 0 else mem m a.
Proof.
  intros Hr Hn Hlo Ht B Br.
  assert (Hm : modulus = 4294967296) by reflexivity.
  assert (Hh : half_modulus = 2147483648) by reflexivity.
  induction j as [| j IH]; intros m Hmod Hreg Hhi.
  - cbn [run]. rewrite zero_loop_round_run by assumption. cbv zeta.
    rewrite Hmod.
    assert (R4 : to_reg_t (regs m reg1 - 4) = regs m reg1 - 4)
      by (apply to_reg_t_small; unfold is_reg_t; lia).
    rewrite R4.
    rewrite (to_ptr_int_t_same_half lo (regs m reg1 - 4)) by (assumption || lia).
    rewrite (to_ptr_int_t_same_half lo target) by (assumption || lia).
    destruct (Z.ltb_spec (regs m reg1 - 4 - 2 * lo) (target - 2 * lo)); [| lia].
    rewrite Br. cbn [run_block].
    eexists. split; [reflexivity |]. split; [| split].
    + intros r Hne. cbn. now rewrite (reg_eqb_neq _ _ Hne).
    + reflexivity.
    + intros a. cbn.
      destruct (Z.leb_spec (regs m reg1 - 0) a), (Z.ltb_spec a (regs m reg1));
        try reflexivity; lia.
  - rewrite run_S. rewrite zero_loop_round_run by assumption. cbv zeta.
    rewrite Hmod.
    assert (R4 : to_reg_t (regs m reg1 - 4) = regs m reg1 - 4)
      by (apply to_reg_t_small; unfold is_reg_t; lia).
    rewrite !R4.
    rewrite (to_ptr_int_t_same_half lo (regs m reg1 - 4)) by (assumption || lia).
    rewrite (to_ptr_int_t_same_half lo target) by (assumption || lia).
    destruct (Z.ltb_spec (regs m reg1 - 4 - 2 * lo) (target - 2 * lo)); [lia |].
    destruct (Z.leb_spec (regs m reg1 - 4 + 4) modulus); [| lia].
    rewrite B.
    match goal with
    | |- context [run (S j) code _ ?m2] =>
        destruct (IH m2) as (m' & E & Hregs & Hslots & Hmem)
    end.
    + cbn [regs set_mem set_last_cmp set_reg].
      now rewrite (reg_eqb_neq _ _ (not_eq_sym Hr)).
    + cbn [regs set_mem set_last_cmp set_reg]. rewrite reg_eqb_refl.
      rewrite Nat2Z.inj_succ in Hreg. lia.
    + cbn [regs set_mem set_last_cmp set_reg]. rewrite reg_eqb_refl. lia.
    + exists m'. split; [exact E |]. split; [| split].
      * intros r Hne. rewrite (Hregs r Hne). cbn [regs set_mem set_last_cmp set_reg].
        now rewrite (reg_eqb_neq _ _ Hne).
      * rewrite Hslots. reflexivity.
      * intros a. rewrite Hmem. cbn [regs mem set_mem set_last_cmp set_reg].
        rewrite reg_eqb_refl. rewrite Nat2Z.inj_succ.
        unfold store_bytes.
        rewrite Zdiv.Zdiv_0_l, Zdiv.Zmod_0_l.
        destruct (Z.leb_spec (regs m reg1 - 4 - 4 * Z.of_nat j) a),
          (Z.ltb_spec a (regs m reg1 - 4)),
          (Z.leb_spec (regs m reg1 - 4) a),
          (Z.ltb_spec a (regs m reg1 - 4 + 4)),
          (Z.leb_spec (regs m reg1 - 4 * Z.succ (Z.of_nat j)) a),
          (Z.ltb_spec a (regs m reg1));
          cbn [andb]; try reflexivity; lia.
Qed.

Lemma inline_zero_loop_blocks reg1 reg_mod type retaddr loop_repeat :
  retaddr <> loop_repeat ->
  block_at loop_repeat (inline_zero_loop reg1 reg_mod type retaddr loop_repeat) =
    zero_loop_round reg1 reg_mod retaddr loop_repeat /\
  block_at retaddr (inline_zero_loop reg1 reg_mod type retaddr loop_repeat) = [].
Proof.
  intros Hl. unfold inline_zero_loop, zero_loop_round.
  destruct (negb (is_absolute type)); cbn -[label_eqb];
    rewrite ?(label_eqb_neq _ _ (not_eq_sym Hl)), !label_eqb_refl;
    split; reflexivity.
Qed.

(** The entry of the loop: the copy of the stack pointer, the end of the
    loop and the test for a claim. *)
Lemma inline_zero_loop_entry reg1 reg_mod type retaddr loop_repeat m :
  reg1 <> reg_mod ->
  reg1 <> REG_ESP ->
  reg_mod <> REG_ESP ->
  let esp := regs m REG_ESP in
  let target := zero_loop_target type (regs m reg_mod) esp in
  exists m1,
    run_block (inline_zero_loop reg1 reg_mod type retaddr loop_repeat) m =
      (if to_ptr_int_t target >=? to_ptr_int_t esp
       then Jump retaddr else At loop_repeat, m1) /\
    regs m1 reg1 = esp /\
    regs m1 reg_mod = target /\
    regs m1 REG_ESP = esp /\
    slots m1 = slots m /\
    mem m1 = mem m.
Proof.
  intros H12 H1 H2 esp target. subst esp target.
  unfold inline_zero_loop, zero_loop_target, REG_XSP.
  destruct (is_absolute type); cbn -[reg_eqb];
    rewrite ?reg_eqb_refl, ?(reg_eqb_neq _ _ H12),
      ?(reg_eqb_neq _ _ (not_eq_sym H12)), ?(reg_eqb_neq _ _ H1),
      ?(reg_eqb_neq _ _ (not_eq_sym H1)), ?(reg_eqb_neq _ _ H2),
      ?(reg_eqb_neq _ _ (not_eq_sym H2));
    destruct (_ >=? _); cbn -[reg_eqb];
    (eexists; split; [reflexivity |]); cbn -[reg_eqb];
    rewrite ?reg_eqb_refl, ?(reg_eqb_neq _ _ H12),
      ?(reg_eqb_neq _ _ (not_eq_sym H12)), ?(reg_eqb_neq _ _ H1),
      ?(reg_eqb_neq _ _ (not_eq_sym H1)), ?(reg_eqb_neq _ _ H2),
      ?(reg_eqb_neq _ _ (not_eq_sym H2));
    repeat split.
Qed.

(** X22, the zeroing loop of lightweight mode: with three distinct
    registers and the target and the stack pointer in the same half of the
    address space, the loop ends, leaves esp and the spill slots alone and
    zeroes the whole dwords counted down from the stack pointer that start at
    or above the target, the bytes of [esp - 4 * ((esp - target) / 4), esp),
    and nothing if the target is not below the stack pointer; it does so
    whatever the distance, with no test against the threshold.  Where the
    distance is a multiple of 4 and the adjustment handler, called for the
    same delta in lightweight mode, does not confirm a swap, the loop leaves
    memory as the handler leaves application memory. *)
Theorem inline_zero_loop_zeroes
        (reg1 reg_mod : reg_id_t) (type : esp_adjust_t)
        (retaddr loop_repeat : label_t) (lo : Z) (m : machine) :
  let code := inline_zero_loop reg1 reg_mod type retaddr loop_repeat in
  let esp := regs m REG_ESP in
  let target := zero_loop_target type (regs m reg_mod) esp in
  let k := Z.max 0 ((esp - target) / 4) in
  reg1 <> reg_mod ->
  reg1 <> REG_ESP /\ reg1 <> REG_NULL ->
  reg_mod <> REG_ESP ->
  retaddr <> loop_repeat ->
  same_half lo target esp ->
  exists m',
    run (S (S (Z.to_nat k))) code code m = (Fall, m') /\
    regs m' REG_ESP = esp /\
    slots m' = slots m /\
    (forall a, mem m' a =
               if (esp - 4 * k <=? a) && (a <? esp) then 0 else mem m a) /\
    (forall (R : resolver) (val : Z) (st st' : state),
        SHADOW_STACK_POINTER (options st) = false ->
        mc_xsp st = esp ->
        app_memory st = mem m ->
        is_ret_immed type = false ->
        adjust_delta type val esp = target - esp ->
        handle_esp_adjust R type val st = Ok (tt, st') ->
        confirmed_swap R type val st = false ->
        (esp - target) mod 4 = 0 ->
        forall a, app_memory st' a = mem m' a).
Proof.
  intros code esp target k H12 [H1 Hn] H2 Hl (Hlo & Ht & He).
  assert (Hm : modulus = 4294967296) by reflexivity.
  assert (Hh : half_modulus = 2147483648) by reflexivity.
  destruct (inline_zero_loop_blocks reg1 reg_mod type retaddr loop_repeat Hl)
    as (B & Br). fold code in B, Br.
  destruct (inline_zero_loop_entry reg1 reg_mod type retaddr loop_repeat m
              H12 H1 H2) as (m1 & E1 & R1 & Rm & Re & S1 & M1).
  fold code esp in E1. fold esp in R1, Re, Rm. fold target in Rm, E1.
  rewrite (to_ptr_int_t_same_half lo target Hlo) in E1 by lia.
  rewrite (to_ptr_int_t_same_half lo esp Hlo) in E1 by lia.
  assert (Hmem :
    exists m',
      run (S (S (Z.to_nat k))) code code m = (Fall, m') /\
      regs m' REG_ESP = esp /\
      slots m' = slots m /\
      (forall a, mem m' a =
                 if (esp - 4 * k <=? a) && (a <? esp) then 0 else mem m a)).
  { rewrite run_S, E1.
    destruct (Z.geb_spec (target - 2 * lo) (esp - 2 * lo)) as [Hge | Hlt].
    - rewrite Br, run_S. cbn [run_block].
      exists m1. split; [reflexivity |]. split; [exact Re |].
      split; [exact S1 |]. intros a. rewrite M1.
      assert (K : k = 0).
      { subst k. apply Z.max_l. apply Z.div_le_upper_bound; lia. }
      rewrite K.
      destruct (Z.leb_spec (esp - 4 * 0) a), (Z.ltb_spec a esp);
        cbn; try reflexivity; lia.
    - rewrite B.
      pose proof (Z.div_mod (esp - target) 4 ltac:(lia)) as Hdm.
      pose proof (Z.mod_pos_bound (esp - target) 4 ltac:(lia)) as Hmb.
      assert (Hq : 0 <= (esp - target) / 4) by (apply Z.div_pos; lia).
      assert (K : k = (esp - target) / 4) by (subst k; lia).
      destruct (zero_loop_rounds reg1 reg_mod retaddr loop_repeat lo target code
                  H12 Hn Hlo Ht B Br (Z.to_nat k) m1 Rm)
        as (m' & E & Hregs & Hslots & Hmem).
      + rewrite R1, Z2Nat.id by lia. lia.
      + rewrite R1. lia.
      + exists m'. split; [exact E |].
        split; [rewrite (Hregs REG_ESP (not_eq_sym H1)); exact Re |].
        split; [rewrite Hslots; exact S1 |].
        intros a. rewrite Hmem, R1, M1, Z2Nat.id by lia. reflexivity. }
  destruct Hmem as (m' & Em & Hesp & Hslots & Hmem).
  exists m'. split; [exact Em |]. split; [exact Hesp |].
  split; [exact Hslots |]. split; [exact Hmem |].
  intros R val st st' Hs Hx Ha Hret Hd Eh Hc Hal a.
  destruct (handle_esp_adjust_cases R type val st st' Eh)
    as [(Hc' & _) | (_ & ->)]; [congruence |].
  destruct (classified_frame R type val st) as (_ & Hcm & _ & Hcs & _).
  rewrite Hx, Hd. rewrite Hmem.
  assert (Hb : adjust_base type esp = esp)
    by (destruct type; (discriminate || reflexivity)).
  rewrite Hb. unfold adjusted. rewrite Hcs, Hs. cbn [negb].
  pose proof (Z.div_mod (esp - target) 4 ltac:(lia)) as Hdm.
  rewrite Hal, Z.add_0_r in Hdm.
  destruct (Z.eqb_spec (target - esp) 0) as [Hz | Hnz]; cbn [negb].
  - rewrite Hcm, Ha.
    assert (K : k = 0) by (subst k; replace (esp - target) with 0 by lia;
                           reflexivity).
    rewrite K.
    destruct (Z.leb_spec (esp - 4 * 0) a), (Z.ltb_spec a esp);
      cbn; try reflexivity; lia.
  - destruct (Z.ltb_spec (target - esp) 0) as [Hneg | Hpos].
    + cbn [app_memory set_app_memory add_event]. rewrite Hcm, Ha.
      unfold memset.
      replace (esp + (target - esp)) with target by lia.
      rewrite (to_reg_t_small target) by (unfold is_reg_t; lia).
      rewrite (to_reg_t_small (- (target - esp))) by (unfold is_reg_t; lia).
      assert (K : 4 * k = esp - target) by (subst k; lia).
      rewrite K.
      replace (esp - (esp - target)) with target by lia.
      replace (target + - (target - esp)) with esp by lia.
      reflexivity.
    + rewrite Hcm, Ha.
      assert (K : k = 0).
      { subst k. apply Z.max_l. apply Z.div_le_upper_bound; lia. }
      rewrite K.
      destruct (Z.leb_spec (esp - 4 * 0) a), (Z.ltb_spec a esp);
        cbn; try reflexivity; lia.
Qed.

(** For [sub esp, 22] at 0x20000: the five dwords down to 0x20000 - 20 are
    zeroed, the two bytes below them are not. *)
Lemma inline_zero_loop_zeroes_witness :
  exists m',
    regs m' REG_ESP = 0x20000 /\
    mem m' (0x20000 - 20) = 0 /\
    mem m' (0x20000 - 21) = 0xCC /\
    mem m' 0x20000 = 0xCC.
Proof.
  destruct (inline_zero_loop_zeroes REG_EDX REG_ECX ESP_ADJUST_NEGATIVE
              restore loop_done 0 m_sub_22)
    as (m' & _ & Hesp & _ & Hmem & _).
  - discriminate.
  - split; discriminate.
  - discriminate.
  - discriminate.
  - vm_compute. repeat split; (discriminate || (now left)).
  - exists m'. split; [exact Hesp |]. rewrite !Hmem.
    vm_compute. repeat split.
Defined.
